(** * Json-Data-Pipline-Agent: the response parser and the batch loop

    A shallow embedding of [src/pipeline_app.py]:
    - the Python string primitives [parse_analysis] uses ([replace],
      [find], slicing, [strip]);
    - the backtracking semantics of the [re] constructs that occur in
      [qa_pattern], and [re.findall];
    - [download_youtube_video], [parse_analysis], [process_video] and
      [main] with its loop, with the collaborators (yt-dlp, the remote
      service, the file system, the environment) as parameters over an
      abstract world.

    Text is a list of characters with code points below 256. An
    exception is one of class [Exception], which [except Exception]
    catches; [KeyboardInterrupt] and the like are not modelled.

    Printing: a [print] whose message holds a value (a URL, a title, a
    path, the text of an exception, the reply of the agent) is a call
    that may raise, as the output stream may fail to encode the message:
    whether it does depends on the message. A [print] of constant ASCII
    text is left out. What is printed is not recorded. *)

From Stdlib Require Import ZArith Lia Ascii String.
From stdpp Require Import base list.

Open Scope list_scope.

Abbreviation str := (list ascii).

(** ** Python string primitives *)

Module Py.

(** [str.isspace] on one character: HT..CR, FS..US, SP, NEL, NBSP. This is
    also the class [\s] of [re] on [str] patterns. *)
Definition isspace (a : ascii) : bool :=
  let n := N_of_ascii a in
  ((9 <=? n) && (n <=? 13) || (28 <=? n) && (n <=? 32) || (n =? 133) || (n =? 160))%N.

(** The class [\d] of [re]. *)
Definition isdigit (a : ascii) : bool :=
  let n := N_of_ascii a in ((48 <=? n) && (n <=? 57))%N.

(** [s.startswith(p)] *)
Fixpoint startswith (p s : str) : bool :=
  match p, s with
  | [], _ => true
  | a :: p', b :: s' => Ascii.eqb a b && startswith p' s'
  | _ :: _, [] => false
  end.

Fixpoint find_from (sub s : str) (i : Z) : Z :=
  if startswith sub s then i
  else match s with
       | [] => (-1)%Z
       | _ :: s' => find_from sub s' (i + 1)%Z
       end.

(** [s.find(sub)]: the lowest index of an occurrence, or -1. *)
Definition find (s sub : str) : Z := find_from sub s 0%Z.

(** Left-to-right replacement of non-overlapping occurrences; [skip] counts
    the characters of an occurrence that remain to be dropped. *)
Fixpoint replace_from (old new : str) (skip : nat) (s : str) : str :=
  match s with
  | [] => []
  | a :: s' =>
      match skip with
      | S n => replace_from old new n s'
      | O =>
          if startswith old s
          then new ++ replace_from old new (length old - 1) s'
          else a :: replace_from old new 0 s'
      end
  end.

(** [s.replace(old, new)] *)
Definition replace (s old new : str) : str :=
  match old with
  | [] => new ++ flat_map (fun a => a :: new) s
  | _ :: _ => replace_from old new 0 s
  end.

Fixpoint lstrip (s : str) : str :=
  match s with
  | a :: s' => if isspace a then lstrip s' else s
  | [] => []
  end.

Definition rstrip (s : str) : str := rev (lstrip (rev s)).

(** [s.strip()] *)
Definition strip (s : str) : str := rstrip (lstrip s).

(** Slice bounds: a negative index counts from the end, then the index is
    clamped into [0, len]. *)
Definition clamp (n : nat) (i : Z) : nat :=
  let j := if (i <? 0)%Z then (i + Z.of_nat n)%Z else i in
  Z.to_nat (Z.max 0 (Z.min j (Z.of_nat n))).

(** [s[lo:hi]] *)
Definition slice (s : str) (lo hi : Z) : str :=
  let l := clamp (length s) lo in
  let h := clamp (length s) hi in
  take (h - l) (drop l s).

(** [s[lo:]] *)
Definition slice_from (s : str) (lo : Z) : str :=
  drop (clamp (length s) lo) s.

End Py.

(** ** Outcomes of a call *)

Inductive outcome (A : Type) : Type :=
| Returns (a : A)
| Raises (e : str)      (* an [Exception], carrying [str(e)] *)
| Diverges.             (* no result: the loop budget ran out *)
Arguments Returns {A} a.
Arguments Raises {A} e.
Arguments Diverges {A}.

Definition obind {A B} (x : outcome A) (f : A -> outcome B) : outcome B :=
  match x with
  | Returns a => f a
  | Raises e => Raises e
  | Diverges => Diverges
  end.

Notation "x <- c1 ;; c2" := (obind c1 (fun x => c2))
  (at level 100, c1 at next level, right associativity).

(** ** The fragment of [re] used by the parser *)

Module Re.

Inductive cset : Type :=
| CChar (a : ascii)     (* a literal character *)
| CSpace                (* \s *)
| CDigit                (* \d *)
| CAny.                 (* . under re.DOTALL *)

Definition cset_mem (cs : cset) (a : ascii) : bool :=
  match cs with
  | CChar b => Ascii.eqb b a
  | CSpace => Py.isspace a
  | CDigit => Py.isdigit a
  | CAny => true
  end.

Inductive regex : Type :=
| REps                              (* the empty pattern *)
| RSet (cs : cset)                  (* one character of a class *)
| RSeq (r1 r2 : regex)
| RAlt (r1 r2 : regex)              (* r1|r2 *)
| ROpt (r : regex)                  (* r?  *)
| RStar (cs : cset)                 (* cs*  *)
| RPlus (cs : cset)                 (* cs+  *)
| RLazyStar (cs : cset)             (* cs*? *)
| RLazyPlus (cs : cset)             (* cs+? *)
| RGroup (n : nat) (r : regex)      (* capturing group number n *)
| RLook (r : regex)                 (* (?=r) *)
| REnd.                             (* $ without re.MULTILINE *)

(** Captured groups, most recent first. *)
Definition caps : Type := list (nat * str).

Fixpoint group (c : caps) (n : nat) : option str :=
  match c with
  | [] => None
  | (k, v) :: c' => if Nat.eqb k n then Some v else group c' n
  end.

Definition result : Type := (str * caps)%type.

Definition orelse (x y : option result) : option result :=
  match x with Some _ => x | None => y end.

(** [cs*]: the longest run first, giving characters back one at a time. *)
Fixpoint star_greedy (p : ascii -> bool) (s : str) (k : str -> option result)
  : option result :=
  match s with
  | a :: s' => if p a then orelse (star_greedy p s' k) (k s) else k s
  | [] => k s
  end.

(** [cs*?]: the shortest run first. *)
Fixpoint star_lazy (p : ascii -> bool) (s : str) (k : str -> option result)
  : option result :=
  match k s with
  | Some x => Some x
  | None =>
      match s with
      | a :: s' => if p a then star_lazy p s' k else None
      | [] => None
      end
  end.

(** [$]: at the end of the text, or just before a final newline. *)
Definition at_end (s : str) : bool :=
  match s with
  | [] => true
  | [a] => Ascii.eqb a "010"
  | _ => false
  end.

(** Backtracking matcher in continuation-passing style: [k] is what remains
    to be matched after [r]; [s] is the text from the current position. *)
Fixpoint m (r : regex) (s : str) (c : caps) (k : str -> caps -> option result)
  {struct r} : option result :=
  match r with
  | REps => k s c
  | RSet cs =>
      match s with
      | a :: s' => if cset_mem cs a then k s' c else None
      | [] => None
      end
  | RSeq r1 r2 => m r1 s c (fun s' c' => m r2 s' c' k)
  | RAlt r1 r2 => orelse (m r1 s c k) (m r2 s c k)
  | ROpt r1 => orelse (m r1 s c k) (k s c)
  | RStar cs => star_greedy (cset_mem cs) s (fun s' => k s' c)
  | RPlus cs =>
      match s with
      | a :: s' =>
          if cset_mem cs a then star_greedy (cset_mem cs) s' (fun s'' => k s'' c)
          else None
      | [] => None
      end
  | RLazyStar cs => star_lazy (cset_mem cs) s (fun s' => k s' c)
  | RLazyPlus cs =>
      match s with
      | a :: s' =>
          if cset_mem cs a then star_lazy (cset_mem cs) s' (fun s'' => k s'' c)
          else None
      | [] => None
      end
  | RGroup n r1 =>
      m r1 s c (fun s' c' => k s' ((n, take (length s - length s') s) :: c'))
  | RLook r1 =>
      match m r1 s c (fun s' c' => Some (s', c')) with
      | Some (_, c') => k s c'
      | None => None
      end
  | REnd => if at_end s then k s c else None
  end.

(** Number of capturing groups. *)
Fixpoint ngroups (r : regex) : nat :=
  match r with
  | RSeq r1 r2 | RAlt r1 r2 => Nat.max (ngroups r1) (ngroups r2)
  | ROpt r1 | RLook r1 => ngroups r1
  | RGroup n r1 => Nat.max n (ngroups r1)
  | _ => 0
  end.

(** One match attempt at the start of [s]. With [must_advance] an empty
    match is refused there (and the matcher backtracks). *)
Definition match_at (r : regex) (must_advance : bool) (s : str) : option result :=
  m r s [] (fun s' c' =>
    if must_advance && (length s' =? length s) then None else Some (s', c')).

(** [search]: the first position from which [r] matches. Returns the text
    at the start of the match, the text after it, and the groups. *)
Fixpoint search (r : regex) (must_advance : bool) (s : str)
  : option (str * str * caps) :=
  match match_at r must_advance s with
  | Some (s', c) => Some (s, s', c)
  | None =>
      match s with
      | [] => None
      | _ :: t => search r false t
      end
  end.

(** What [findall] reports for one match: the groups when the pattern has
    any (a group that did not take part is the empty string), else the
    whole match. *)
Definition item (r : regex) (s0 s1 : str) (c : caps) : list str :=
  match ngroups r with
  | O => [take (length s0 - length s1) s0]
  | S _ => map (fun n => default [] (group c n)) (seq 1 (ngroups r))
  end.

Fixpoint findall_loop (fuel : nat) (r : regex) (must_advance : bool) (s : str)
  : outcome (list (list str)) :=
  match fuel with
  | O => Diverges
  | S fuel' =>
      match search r must_advance s with
      | None => Returns []
      | Some (s0, s1, c) =>
          rest <- findall_loop fuel' r (length s1 =? length s0) s1 ;;
          Returns (item r s0 s1 c :: rest)
      end
  end.

(** [re.findall(r, s)] *)
Definition findall (r : regex) (s : str) : outcome (list (list str)) :=
  findall_loop (2 * length s + 2) r false s.

(** A literal string. *)
Definition lit (t : string) : regex :=
  foldr (fun a r => RSeq (RSet (CChar a)) r) REps (list_ascii_of_string t).

Definition seq_of (rs : list regex) : regex := foldr RSeq REps rs.

End Re.

(** ** The response parser *)

Definition dquote : ascii := "034".
Definition newline : ascii := "010".

Definition text (t : string) : str := list_ascii_of_string t.

Record qa_entry : Type := QA { question : str; answer : str; context : str }.

Record analysis : Type := Analysis { summary : str; qa : list qa_entry }.

Definition alias_marker : str := text "**Video Summary:**".
Definition summary_marker : str := text "**Summary:**".
Definition qa_marker : str := text "**Questions and Answers:**".

(** What the look-ahead at the end of a context accepts:
    [\n\s*\*\*|$] *)
Definition context_end : Re.regex :=
  Re.RAlt
    (Re.seq_of [Re.lit (String newline ""); Re.RStar Re.CSpace; Re.lit "**"])
    Re.REnd.

(** [\*\*Question(?:\s*\d+)?\:\*\*\s*(.*?)\s*\*\*Answer:\*\*\s*(.*?)\s*\*\*Context:\*\*\s*\"?(.+?)\"?(?=\n\s*\*\*|$)] *)
Definition qa_pattern : Re.regex :=
  Re.seq_of
    [ Re.lit "**Question";
      Re.ROpt (Re.RSeq (Re.RStar Re.CSpace) (Re.RPlus Re.CDigit));
      Re.lit ":**";
      Re.RStar Re.CSpace;
      Re.RGroup 1 (Re.RLazyStar Re.CAny);
      Re.RStar Re.CSpace;
      Re.lit "**Answer:**";
      Re.RStar Re.CSpace;
      Re.RGroup 2 (Re.RLazyStar Re.CAny);
      Re.RStar Re.CSpace;
      Re.lit "**Context:**";
      Re.RStar Re.CSpace;
      Re.ROpt (Re.RSet (Re.CChar dquote));
      Re.RGroup 3 (Re.RLazyPlus Re.CAny);
      Re.ROpt (Re.RSet (Re.CChar dquote));
      Re.RLook context_end ].

(** [for question, answer, context in matches]: each item must unpack into
    exactly three values. *)
Definition unpack3 (t : list str) : outcome (str * str * str) :=
  match t with
  | [q; a; c] => Returns (q, a, c)
  | _ => Raises (text "ValueError: wrong number of values to unpack")
  end.

Fixpoint collect (matches : list (list str)) : outcome (list qa_entry) :=
  match matches with
  | [] => Returns []
  | t :: rest =>
      qac <- unpack3 t ;;
      let '(question, answer, context) := qac in
      qs <- collect rest ;;
      Returns (QA (Py.strip question) (Py.strip answer) (Py.strip context) :: qs)
  end.

Definition parse_analysis (analysis_text : str) : outcome analysis :=
  let analysis_text := Py.replace analysis_text alias_marker summary_marker in
  let index_summary := Py.find analysis_text summary_marker in
  let summary :=
    if negb (index_summary =? -1)%Z then
      let summary_start := (index_summary + Z.of_nat (length summary_marker))%Z in
      let index_qa := Py.find analysis_text qa_marker in
      if negb (index_qa =? -1)%Z
      then Py.strip (Py.slice analysis_text summary_start index_qa)
      else Py.strip (Py.slice_from analysis_text summary_start)
    else Py.strip analysis_text in
  let index_qa := Py.find analysis_text qa_marker in
  qa_list <-
    (if negb (index_qa =? -1)%Z then
       let qa_text :=
         Py.strip (Py.slice_from analysis_text
                     (index_qa + Z.of_nat (length qa_marker))%Z) in
       matches <- Re.findall qa_pattern qa_text ;;
       collect matches
     else Returns []) ;;
  Returns (Analysis summary qa_list).

(** Small tests on texts. *)
Definition is_nil_str (s : str) : bool :=
  match s with [] => true | _ :: _ => false end.

Definition head_is (P : ascii -> bool) (s : str) : bool :=
  match s with a :: _ => P a | [] => false end.

(** ** JSON values and video descriptors *)

Unset Elimination Schemes.
Inductive json : Type :=
| JNull
| JBool (b : bool)
| JNum (n : Z)            (* integers; a float is truthy likewise: not 0 *)
| JStr (s : str)
| JArr (items : list json)
| JObj (fields : list (str * json)).
Set Elimination Schemes.

(** A descriptor is a JSON object: a Python [dict] with string keys. *)
Abbreviation dict := (list (str * json)).

Fixpoint str_eqb (a b : str) : bool :=
  match a, b with
  | [], [] => true
  | x :: a', y :: b' => Ascii.eqb x y && str_eqb a' b'
  | _, _ => false
  end.

Fixpoint dict_lookup (d : dict) (key : str) : option json :=
  match d with
  | [] => None
  | (k, v) :: d' => if str_eqb k key then Some v else dict_lookup d' key
  end.

(** [d.get(key)]: [None] when the key is missing. *)
Definition dict_get (d : dict) (key : str) : json :=
  default JNull (dict_lookup d key).

(** [d[key] = v] *)
Fixpoint dict_set (d : dict) (key : str) (v : json) : dict :=
  match d with
  | [] => [(key, v)]
  | (k, v') :: d' =>
      if str_eqb k key then (k, v) :: d' else (k, v') :: dict_set d' key v
  end.

(** Python truth value. *)
Definition truthy (v : json) : bool :=
  match v with
  | JNull => false
  | JBool b => b
  | JNum n => negb (n =? 0)%Z
  | JStr s => negb (is_nil_str s)
  | JArr l => match l with [] => false | _ :: _ => true end
  | JObj f => match f with [] => false | _ :: _ => true end
  end.

(** [video_obj.get("url")] is truthy. *)
Definition has_url (d : dict) : bool := truthy (dict_get d (text "url")).

Definition qa_entry_json (e : qa_entry) : json :=
  JObj [(text "question", JStr (question e));
        (text "answer", JStr (answer e));
        (text "context", JStr (context e))].

(** The value [parse_analysis] returns, as stored under ["analysis"]. *)
Definition analysis_json (a : analysis) : json :=
  JObj [(text "summary", JStr (summary a));
        (text "qa", JArr (map qa_entry_json (qa a)))].

(** [{"error": msg}] *)
Definition error_json (msg : str) : json := JObj [(text "error", JStr msg)].

(** ** Effects: the collaborators and the calls made to them *)

(** The handle of an uploaded file: its name and [state.name]. *)
Record file_handle : Type := Handle { fh_name : str; fh_state : str }.

Inductive event : Type :=
| EvMkdtemp
| EvRun (output_template : str) (url : json)   (* subprocess.run of yt-dlp *)
| EvListdir (dir : str)
| EvUpload (path : str)                        (* upload_file *)
| EvSleep
| EvGetFile (name : str)                       (* get_file *)
| EvAgentRun (video : file_handle)             (* agent.run *)
| EvRemove (path : str).                       (* os.remove *)



(** A message to print: its constant texts and the values formatted into
    it, in order. How a value is formatted and whether the output stream
    can encode the result is for [c_print] to say. *)
Definition message : Type := list json.

(** What lies outside the program, over a world [W]: each call returns,
    raises or never comes back, and leaves a new world. Printing depends
    on the message only. *)
Record collaborators (W : Type) : Type := Collaborators {
  c_mkdtemp : W -> outcome str * W;
  c_run : str -> json -> W -> outcome unit * W;
  c_listdir : str -> W -> outcome (list str) * W;
  c_upload_file : str -> W -> outcome file_handle * W;
  c_get_file : str -> W -> outcome file_handle * W;
  c_agent_run : file_handle -> W -> outcome json * W;
  c_remove : str -> W -> outcome unit * W;
  c_print : message -> outcome unit
}.
Arguments c_mkdtemp {W}.
Arguments c_run {W}.
Arguments c_listdir {W}.
Arguments c_upload_file {W}.
Arguments c_get_file {W}.
Arguments c_agent_run {W}.
Arguments c_remove {W}.
Arguments c_print {W}.

(** The messages of the program that hold a value, by the line that
    prints them. *)
Definition msg_downloading (url : json) : message :=                (* 26 *)
  [JStr (text "Downloading video from "); url;
   JStr (text " using yt-dlp...")].
Definition msg_downloaded (file_path : str) : message :=            (* 37 *)
  [JStr (text "Downloaded video to "); JStr file_path].
Definition msg_download_error (url : json) (e : str) : message :=   (* 42 *)
  [JStr (text "Error downloading video from "); url;
   JStr (text ": "); JStr e].
Definition msg_processing_file (video_file_path : str) : message := (* 98 *)
  [JStr (text "Processing video file: "); JStr video_file_path].
Definition msg_analysis (analysis_text : json) : message :=         (* 115 *)
  [analysis_text].
Definition msg_processing (title url : json) : message :=           (* 168 *)
  [JStr ("010"%char :: text "Processing video: "); title;
   JStr (text " - "); url].
Definition msg_skipping (url : json) : message :=                   (* 171 *)
  [JStr (text "Skipping video due to download error: "); url].
Definition msg_process_error (url : json) (e : str) : message :=    (* 180 *)
  [JStr (text "Error processing video "); url; JStr (text ": "); JStr e].
Definition msg_remove_error (video_file_path e : str) : message :=  (* 187 *)
  [JStr (text "Error removing temporary video file ");
   JStr video_file_path; JStr (text ": "); JStr e].
Definition msg_read_error (e : str) : message :=                    (* 141 *)
  [JStr (text "Error reading input JSON file: "); JStr e].

(** A computation over a state [S]. The state survives an exception. *)
Definition ST (S A : Type) : Type := S -> outcome A * S.

Definition ret {S A} (a : A) : ST S A := fun s => (Returns a, s).

Definition bind {S A B} (m : ST S A) (f : A -> ST S B) : ST S B :=
  fun s =>
    match m s with
    | (Returns a, s') => f a s'
    | (Raises e, s') => (Raises e, s')
    | (Diverges, s') => (Diverges, s')
    end.

Definition diverge {S A} : ST S A := fun s => (Diverges, s).

(** [try: m except Exception as e: h e] *)
Definition try_except {S A} (m : ST S A) (h : str -> ST S A) : ST S A :=
  fun s =>
    match m s with
    | (Raises e, s') => h e s'
    | r => r
    end.

(** [try: m finally: fin] *)
Definition try_finally {S A} (m : ST S A) (fin : ST S unit) : ST S A :=
  fun s =>
    match m s with
    | (Diverges, s') => (Diverges, s')
    | (r, s') =>
        match fin s' with
        | (Returns _, s'') => (r, s'')
        | (Raises e, s'') => (Raises e, s'')
        | (Diverges, s'') => (Diverges, s'')
        end
    end.

Notation "x <<- c1 ;; c2" := (bind c1 (fun x => c2))
  (at level 100, c1 at next level, right associativity).
Notation "c1 ;;; c2" := (bind c1 (fun _ => c2))
  (at level 100, right associativity).

Definition of_outcome {S A} (o : outcome A) : ST S A := fun s => (o, s).

Section Pipeline.

Context {W : Type} (C : collaborators W).

(** The world and the calls made so far. *)
Definition io_state : Type := (W * list event)%type.

Definition IO (A : Type) : Type := ST io_state A.

Definition call {A} (ev : event) (f : W -> outcome A * W) : IO A :=
  fun s => let '(r, w') := f (fst s) in (r, (w', snd s ++ [ev])).

Definition mkdtemp : IO str := call EvMkdtemp (c_mkdtemp C).
Definition subprocess_run (output_template : str) (url : json) : IO unit :=
  call (EvRun output_template url) (c_run C output_template url).
Definition listdir (dir : str) : IO (list str) :=
  call (EvListdir dir) (c_listdir C dir).
Definition upload_file (path : str) : IO file_handle :=
  call (EvUpload path) (c_upload_file C path).
Definition get_file (name : str) : IO file_handle :=
  call (EvGetFile name) (c_get_file C name).
Definition agent_run (video : file_handle) : IO json :=
  call (EvAgentRun video) (c_agent_run C video).
Definition os_remove (path : str) : IO unit :=
  call (EvRemove path) (c_remove C path).
Definition sleep : IO unit := fun s => (Returns tt, (fst s, snd s ++ [EvSleep])).

(** [print] of a message that holds a value. *)
Definition print (msg : message) : IO unit :=
  fun s => (c_print C msg, s).

(** [s.endswith(suffix)] *)
Definition endswith (s suffix : str) : bool :=
  Py.startswith (rev suffix) (rev s).

(** [os.path.join(a, b)] on POSIX paths. *)
Definition path_join (a b : str) : str :=
  if head_is (Ascii.eqb "/") b then b
  else if is_nil_str a || head_is (Ascii.eqb "/") (rev a) then a ++ b
  else a ++ text "/" ++ b.

(** The first [.mp4] file of the listing. *)
Fixpoint first_mp4 (temp_dir : str) (names : list str) : option str :=
  match names with
  | [] => None
  | file_name :: rest =>
      if endswith file_name (text ".mp4")
      then Some (path_join temp_dir file_name)
      else first_mp4 temp_dir rest
  end.

Definition download_youtube_video (url : json) : IO (option str) :=
  try_except
    (print (msg_downloading url) ;;;
     temp_dir <<- mkdtemp ;;
     let output_template := path_join temp_dir (text "%(id)s.%(ext)s") in
     subprocess_run output_template url ;;;
     names <<- listdir temp_dir ;;
     match first_mp4 temp_dir names with
     | Some file_path =>
         print (msg_downloaded file_path) ;;;
         ret (Some file_path)
     | None => ret None
     end)
    (fun e => print (msg_download_error url e) ;;; ret None).

(** [while processed_video.state.name == "PROCESSING"] *)
Fixpoint poll (fuel : nat) (processed_video : file_handle) : IO file_handle :=
  if str_eqb (fh_state processed_video) (text "PROCESSING") then
    match fuel with
    | O => diverge
    | S fuel' =>
        sleep ;;;
        processed_video <<- get_file (fh_name processed_video) ;;
        poll fuel' processed_video
    end
  else ret processed_video.

(** The name Python shows for the type of a value. *)
Definition type_name (v : json) : str :=
  match v with
  | JNull => text "NoneType"
  | JBool _ => text "bool"
  | JNum _ => text "int"
  | JStr _ => text "str"
  | JArr _ => text "list"
  | JObj _ => text "dict"
  end.

(** [parse_analysis] on whatever [response.content] holds: only a string
    has [replace]. *)
Definition parse_content (content : json) : outcome analysis :=
  match content with
  | JStr analysis_text => parse_analysis analysis_text
  | v => Raises (text "'" ++ type_name v
                   ++ text "' object has no attribute 'replace'")
  end.

Definition process_video (fuel : nat) (video_file_path : str) : IO analysis :=
  print (msg_processing_file video_file_path) ;;;
  processed_video <<- upload_file video_file_path ;;
  processed_video <<- poll fuel processed_video ;;
  content <<- agent_run processed_video ;;
  print (msg_analysis content) ;;;
  of_outcome (parse_content content).

(** The state of the loop of [main]: the objects loaded from the input
    file, by address, and the addresses appended to [output_data]. *)
Record mstate : Type := MState {
  io : io_state;
  heap : list dict;
  output_data : list nat
}.

Definition M (A : Type) : Type := ST mstate A.

Definition lift {A} (m : IO A) : M A :=
  fun st => let '(r, i) := m (io st) in (r, MState i (heap st) (output_data st)).

(** The object behind a reference. *)
Definition deref (r : nat) : M dict :=
  fun st => (Returns (default [] (heap st !! r)), st).

(** [video_obj[key] = v], on the object itself. *)
Definition set_item (r : nat) (key : str) (v : json) : M unit :=
  fun st =>
    (Returns tt,
     MState (io st) (alter (fun d => dict_set d key v) r (heap st))
       (output_data st)).

(** [output_data.append(video_obj)] *)
Definition append_output (r : nat) : M unit :=
  fun st => (Returns tt, MState (io st) (heap st) (output_data st ++ [r])).

Definition falsy_path (p : option str) : bool :=
  match p with
  | Some (_ :: _) => false
  | _ => true
  end.

(** [video_obj.get('title', 'Unknown Title')] *)
Definition title_of (video_obj : dict) : json :=
  default (JStr (text "Unknown Title")) (dict_lookup video_obj (text "title")).

(** One turn of the [for] loop, on the object at address [r]. *)
Definition step (fuel : nat) (r : nat) : M unit :=
  video_obj <<- deref r ;;
  let url := dict_get video_obj (text "url") in
  if negb (truthy url) then ret tt
  else
    lift (print (msg_processing (title_of video_obj) url)) ;;;
    video_file_path <<- lift (download_youtube_video url) ;;
    if falsy_path video_file_path then
      lift (print (msg_skipping url)) ;;;
      set_item r (text "analysis") (error_json (text "Download failed")) ;;;
      append_output r
    else
      let path := default [] video_file_path in
      try_finally
        (try_except
           (analysis <<- lift (process_video fuel path) ;;
            set_item r (text "analysis") (analysis_json analysis))
           (fun e =>
              lift (print (msg_process_error url e)) ;;;
              set_item r (text "analysis") (error_json e)))
        (try_except (lift (os_remove path))
           (fun e => lift (print (msg_remove_error path e)))) ;;;
      append_output r.

Fixpoint loop (fuel : nat) (videos_data : list nat) : M unit :=
  match videos_data with
  | [] => ret tt
  | r :: rest => step fuel r ;;; loop fuel rest
  end.

(** What [json.dump(output_data, ...)] writes. *)
Definition dump (st : mstate) : list dict :=
  map (fun r => default [] (heap st !! r)) (output_data st).

(** The loop of [main] on the objects [json.load] has built from the input
    file: one fresh object per item, at addresses 0, 1, ... *)
Definition run_batch (fuel : nat) (videos_data : list dict) (i : io_state)
  : outcome (list dict) * io_state :=
  let st0 := MState i videos_data [] in
  let '(o, st) := loop fuel (seq 0 (length videos_data)) st0 in
  (_ <- o ;; Returns (dump st), io st).

(** The same turn of the loop on the value of the object: the annotated
    descriptor to output, if any. *)
Definition item_result (fuel : nat) (video_obj : dict) : IO (option dict) :=
  let url := dict_get video_obj (text "url") in
  if negb (truthy url) then ret None
  else
    print (msg_processing (title_of video_obj) url) ;;;
    video_file_path <<- download_youtube_video url ;;
    if falsy_path video_file_path then
      print (msg_skipping url) ;;;
      ret (Some (dict_set video_obj (text "analysis")
                   (error_json (text "Download failed"))))
    else
      let path := default [] video_file_path in
      new_obj <<-
        try_finally
          (try_except
             (analysis <<- process_video fuel path ;;
              ret (dict_set video_obj (text "analysis") (analysis_json analysis)))
             (fun e =>
                print (msg_process_error url e) ;;;
                ret (dict_set video_obj (text "analysis") (error_json e))))
          (try_except (os_remove path)
             (fun e => print (msg_remove_error path e))) ;;
      ret (Some new_obj).

(** The messages about one descriptor that are printed outside every
    [try], or inside an [except] handler: lines 168, 42, 171, 180 and
    187. *)
Definition unguarded_message (d : dict) (msg : message) : Prop :=
  let url := dict_get d (text "url") in
  msg = msg_processing (title_of d) url \/
  (exists e, msg = msg_download_error url e) \/
  msg = msg_skipping url \/
  (exists e, msg = msg_process_error url e) \/
  (exists path e, msg = msg_remove_error path e).

(** The removal of the file went through, or it raised and the message
    about it (line 187) was printed: [o] is the outcome of [os.remove]. *)
Definition removal_done (path : str) (o : outcome unit) : Prop :=
  o = Returns tt \/
  exists e, o = Raises e /\ c_print C (msg_remove_error path e) = Returns tt.

Fixpoint batch (fuel : nat) (videos : list dict) : IO (list dict) :=
  match videos with
  | [] => ret []
  | d :: rest =>
      r <<- item_result fuel d ;;
      outs <<- batch fuel rest ;;
      ret (match r with Some d' => d' :: outs | None => outs end)
  end.

End Pipeline.

(** ** [main] around the loop

    [main] starts after the command line has been read: [input_json] is
    the path given there. *)

(** The calls [main] makes itself, besides those of the loop: each
    returns, raises or never comes back, and leaves a new world. *)
Record environment (W : Type) : Type := Environment {
  e_load_dotenv : W -> outcome unit * W;
  e_getenv : str -> W -> outcome (option str) * W;     (* os.getenv *)
  e_configure : str -> W -> outcome unit * W;          (* genai.configure *)
  e_read_json : str -> W -> outcome json * W;          (* open, json.load *)
  e_agent : W -> outcome unit * W;                     (* Agent(...) *)
  e_write_json : str -> json -> W -> outcome unit * W  (* open, json.dump *)
}.
Arguments e_load_dotenv {W}.
Arguments e_getenv {W}.
Arguments e_configure {W}.
Arguments e_read_json {W}.
Arguments e_agent {W}.
Arguments e_write_json {W}.

Inductive main_event : Type :=
| EvLoadDotenv
| EvGetenv (name : str)
| EvConfigure (api_key : str)
| EvReadJson (path : str)
| EvAgent
| EvItem (ev : event)                    (* a call made by the loop *)
| EvWriteJson (path : str) (data : json).

Definition is_write (ev : main_event) : bool :=
  match ev with EvWriteJson _ _ => true | _ => false end.

Definition is_remove (ev : event) : bool :=
  match ev with EvRemove _ => true | _ => false end.

Definition is_object (v : json) : bool :=
  match v with JObj _ => true | _ => false end.

(** [for video_obj in videos_data]: the values the loop goes through. A
    dict gives its keys, a string its characters. *)
Definition iterate (v : json) : outcome (list json) :=
  match v with
  | JArr items => Returns items
  | JObj fields => Returns (map (fun kv => JStr (fst kv)) fields)
  | JStr s => Returns (map (fun a => JStr [a]) s)
  | v => Raises (text "'" ++ type_name v ++ text "' object is not iterable")
  end.

(** The calls of one wait in [process_video], for the names asked. *)
Definition poll_calls (names : list str) : list event :=
  flat_map (fun name => [EvSleep; EvGetFile name]) names.

(** A computation of the loop that only adds to the record of calls, and
    never looks at it. *)
Definition appends {W A : Type} (m : ST (W * list event) A) : Prop :=
  forall w tr,
    m (w, tr) = (let '(r, i) := m (w, []) in (r, (fst i, tr ++ snd i))).

Section MainProgram.

Context {W : Type} (C : collaborators W) (E : environment W).

(** The world and the calls [main] has made so far. *)
Definition main_state : Type := (W * list main_event)%type.

Definition MainIO (A : Type) : Type := ST main_state A.

Definition env_call {A} (ev : main_event) (f : W -> outcome A * W) : MainIO A :=
  fun s => let '(r, w') := f (fst s) in (r, (w', snd s ++ [ev])).

(** [print] of a message that holds a value, in [main] itself. *)
Definition main_print (msg : message) : MainIO unit :=
  fun s => (c_print C msg, s).

(** A computation of the loop inside [main]: its calls join the trace. *)
Definition in_loop {A} (m : IO A) : MainIO A :=
  fun s =>
    let '(r, i) := m (fst s, []) in
    (r, (fst i, snd s ++ map EvItem (snd i))).

(** The loop of [main] on whatever values the input holds: only a dict has
    [get]. Each dict is a fresh object, handled as [item_result] says; on
    dicts only this is [run_batch] (see [main_loop_objects]). *)
Fixpoint main_loop (fuel : nat) (items : list json) : IO (list json) :=
  match items with
  | [] => ret []
  | video_obj :: rest =>
      match video_obj with
      | JObj d =>
          r <<- item_result C fuel d ;;
          output_data <<- main_loop fuel rest ;;
          ret (match r with
               | Some d' => JObj d' :: output_data
               | None => output_data
               end)
      | v =>
          of_outcome
            (Raises (text "'" ++ type_name v
                       ++ text "' object has no attribute 'get'"))
      end
  end.

Definition main (fuel : nat) (input_json : str) : MainIO unit :=
  env_call EvLoadDotenv (e_load_dotenv E) ;;;
  API_KEY <<- env_call (EvGetenv (text "GOOGLE_API_KEY"))
                (e_getenv E (text "GOOGLE_API_KEY")) ;;
  match API_KEY with
  | Some ((_ :: _) as key) =>
      env_call (EvConfigure key) (e_configure E key) ;;;
      loaded <<-
        try_except
          (videos_data <<- env_call (EvReadJson input_json)
                             (e_read_json E input_json) ;;
           ret (Some videos_data))
          (fun e => main_print (msg_read_error e) ;;; ret None) ;;
      match loaded with
      | None => ret tt
      | Some videos_data =>
          env_call EvAgent (e_agent E) ;;;
          items <<- of_outcome (iterate videos_data) ;;
          output_data <<- in_loop (main_loop fuel items) ;;
          env_call (EvWriteJson (text "output.json") (JArr output_data))
            (e_write_json E (text "output.json") (JArr output_data))
      end
  | _ => ret tt
  end.

End MainProgram.

(** ** Well-formed question/answer/context triples

    The shape of the text the remote agent is asked to produce, used to
    state what the parser extracts. *)

Record triple : Type := Triple {
  t_number : str;     (* between "**Question" and ":**" *)
  t_question : str;   (* between the question header and "**Answer:**" *)
  t_answer : str;     (* between "**Answer:**" and "**Context:**" *)
  t_lead : str;       (* blank text after "**Context:**" *)
  t_open : bool;      (* an opening double quote *)
  t_body : str;       (* the context body *)
  t_close : bool;     (* a closing double quote *)
  t_sep : str         (* blank text up to the next triple or the end *)
}.

Definition quote_if (b : bool) : str := if b then [dquote] else [].

Definition render (t : triple) : str :=
  text "**Question" ++ t_number t ++ text ":**" ++ t_question t ++
  text "**Answer:**" ++ t_answer t ++ text "**Context:**" ++ t_lead t ++
  quote_if (t_open t) ++ t_body t ++ quote_if (t_close t).

Definition all_space (w : str) : bool := forallb Py.isspace w.

(** Nothing, or optional blanks and then digits. *)
Definition wf_number (num : str) : bool :=
  match num with
  | [] => true
  | _ :: _ =>
      match Py.lstrip num with
      | [] => false
      | d => forallb Py.isdigit d
      end
  end.

(** The text after a context: the end, or a line break, blanks and [**]. *)
Definition tail_ok (tail : str) : bool :=
  match tail with
  | [] => true
  | a :: t => Ascii.eqb a newline && Py.startswith (text "**") (Py.lstrip t)
  end.

(** Where the look-ahead [(?=\n\s*\*\*|$)] holds. *)
Definition at_context_end (s : str) : bool := tail_ok s || Re.at_end s.

(** What may follow a context body: nothing, a quote, or a line break. *)
Definition after_body (X : str) : bool :=
  match X with
  | [] => true
  | a :: _ => Ascii.eqb a dquote || Ascii.eqb a newline
  end.

(** A character of a context body, after the first, that cannot be taken
    for the end of the context: a line break is followed by a non-blank
    text that does not start, after its blanks, with [**]; a double quote
    that only blanks follow is allowed when a closing quote comes. *)
Definition char_ok (c : ascii) (rest : str) (closing : bool) : bool :=
  if Ascii.eqb c newline then
    negb (is_nil_str (Py.lstrip rest)) &&
    negb (Py.startswith (text "**") (Py.lstrip rest))
  else if Ascii.eqb c dquote then
    closing || negb (is_nil_str (Py.lstrip rest))
  else true.

Fixpoint wf_tail (s : str) (closing : bool) : bool :=
  match s with
  | [] => true
  | c :: rest => char_ok c rest closing && wf_tail rest closing
  end.

(** A context body: not blank; without an opening quote it starts with
    neither a blank nor a double quote; the rest is as [char_ok] says.
    Bodies of several lines are allowed. *)
Definition wf_body (body : str) (opening closing : bool) : bool :=
  negb (is_nil_str (Py.strip body)) &&
  match body with
  | [] => false
  | b :: rest =>
      (opening || negb (Py.isspace b) && negb (Ascii.eqb b dquote)) &&
      wf_tail rest closing
  end.

(** [sub] occurs in [body ++ sub] at the end only. *)
Definition free_of (body sub : str) : bool :=
  (Py.find (body ++ sub) sub =? Z.of_nat (length body))%Z.

Definition wf_triple (t : triple) : bool :=
  wf_number (t_number t) &&
  free_of (t_question t) (text "**Answer:**") &&
  free_of (t_answer t) (text "**Context:**") &&
  all_space (t_lead t) &&
  wf_body (t_body t) (t_open t) (t_close t).

Definition entry_of (t : triple) : qa_entry :=
  QA (Py.strip (t_question t)) (Py.strip (t_answer t)) (Py.strip (t_body t)).

(** Triples one after the other, each followed by its blank separator. *)
Definition render_all (ts : list triple) : str :=
  flat_map (fun t => render t ++ t_sep t) ts.

(** Every triple is well formed and every triple but the last is followed
    by a line break. *)
Fixpoint wf_triples (ts : list triple) : bool :=
  match ts with
  | [] => true
  | t :: ts' =>
      wf_triple t && all_space (t_sep t) &&
      (is_nil_str (render_all ts') || head_is (Ascii.eqb newline) (t_sep t)) &&
      wf_triples ts'
  end.

Definition spaces (w : str) : Prop := Forall (fun a => Py.isspace a = true) w.

(** The last triple of a right-stripped text: only an unquoted body can
    lose blanks. *)
Definition trim_last (t : triple) : triple :=
  Triple (t_number t) (t_question t) (t_answer t) (t_lead t) (t_open t)
    (if t_close t then t_body t else Py.rstrip (t_body t))
    (t_close t) (t_sep t).

(** No occurrence of the alias overlaps the canonical heading that stands
    between [pre] and [post]. *)
Definition heading_clear (pre post : str) : bool :=
  let t := pre ++ summary_marker ++ post in
  let lo := length pre - (length alias_marker - 1) in
  forallb (fun j => negb (Py.startswith alias_marker (drop j t)))
    (seq lo (length pre + length summary_marker - lo)).

(** The summary [parse_analysis] computes from the normalized text. *)
Definition summary_part (analysis_text : str) : str :=
  let index_summary := Py.find analysis_text summary_marker in
  if negb (index_summary =? -1)%Z then
    let summary_start := (index_summary + Z.of_nat (length summary_marker))%Z in
    let index_qa := Py.find analysis_text qa_marker in
    if negb (index_qa =? -1)%Z
    then Py.strip (Py.slice analysis_text summary_start index_qa)
    else Py.strip (Py.slice_from analysis_text summary_start)
  else Py.strip analysis_text.

(** ** What a pattern can consume

    [reach r s s']: read from the start of [s], the pattern [r] can stop
    with [s'] left, whatever the order in which the matcher tries the
    ways to do so. *)
Fixpoint reach (r : Re.regex) (s s' : str) : Prop :=
  match r with
  | Re.REps => s' = s
  | Re.RSet cs => exists a, s = a :: s' /\ Re.cset_mem cs a = true
  | Re.RSeq r1 r2 => exists t, reach r1 s t /\ reach r2 t s'
  | Re.RAlt r1 r2 => reach r1 s s' \/ reach r2 s s'
  | Re.ROpt r1 => reach r1 s s' \/ s' = s
  | Re.RStar cs | Re.RLazyStar cs =>
      exists j, j <= length s /\ s' = drop j s /\
                Forall (fun a => Re.cset_mem cs a = true) (take j s)
  | Re.RPlus cs | Re.RLazyPlus cs =>
      exists j, S j <= length s /\ s' = drop (S j) s /\
                Forall (fun a => Re.cset_mem cs a = true) (take (S j) s)
  | Re.RGroup _ r1 => reach r1 s s'
  | Re.RLook r1 => s' = s /\ exists t, reach r1 s t
  | Re.REnd => s' = s /\ Re.at_end s = true
  end.

(** Patterns without a capturing group. *)
Fixpoint groupless (r : Re.regex) : bool :=
  match r with
  | Re.RSeq r1 r2 | Re.RAlt r1 r2 => groupless r1 && groupless r2
  | Re.ROpt r1 | Re.RLook r1 => groupless r1
  | Re.RGroup _ _ => false
  | _ => true
  end.

(** A text that starts with a line break, optional blanks and [**]: what
    the first branch of the look-ahead [(?=\n\s*\*\*|$)] accepts. *)
Definition at_bold_line (s : str) : bool :=
  match s with
  | a :: t => Ascii.eqb a newline && Py.startswith (text "**") (Py.lstrip t)
  | [] => false
  end.

(** ** Sample inputs *)


Definition ex_triple2 : triple :=
  Triple (text " 2") (text " Why?" ++ [newline])
    (text " Because." ++ [newline]) (text " ") false (text "cats") false [].


Definition ex_summary : str := text " A cat video." ++ [newline].



(** A question with no answer, followed by [ex_triple2]. *)
Definition ex_truncated : str :=
  summary_marker ++ ex_summary ++ qa_marker ++ [newline] ++
  (text "**Question" ++ text " 1" ++ text ":**" ++ text " What is it?" ++ [newline]) ++
  render ex_triple2 ++ t_sep ex_triple2.

Definition ex_plain : str := text "  The model declined to answer.  ".

Definition ex_qa_only : str :=
  text "Notes." ++ [newline] ++ qa_marker ++ [newline] ++ render ex_triple2.

(** A scripted world: the state counts the uploads. Acquisition fails for
    [https://example.com/v1]; the agent fails on the second upload. *)
Definition demo : collaborators nat :=
  Collaborators nat
    (fun w => (Returns (text "/tmp/d"), w))
    (fun _ url w =>
       match url with
       | JStr u =>
           if str_eqb u (text "https://example.com/v1")
           then (Raises (text "yt-dlp failed"), w)
           else (Returns tt, w)
       | _ => (Raises (text "TypeError"), w)
       end)
    (fun _ w => (Returns [text "notes.txt"; text "abc.mp4"], w))
    (fun _ w => (Returns (Handle (text "files/x") (text "PROCESSING")), S w))
    (fun name w => (Returns (Handle name (text "ACTIVE")), w))
    (fun _ w =>
       if w =? 2 then (Raises (text "quota exceeded"), w)
       else (Returns (JStr (summary_marker ++ text " ok")), w))
    (fun _ w => (Returns tt, w))
    (fun _ => Returns tt).

Definition ex_d1 : dict :=
  [(text "url", JStr (text "https://example.com/a")); (text "title", JStr (text "A"))].
Definition ex_d2 : dict :=
  [(text "title", JStr (text "B")); (text "url", JStr (text "https://example.com/b"))].
Definition ex_d3 : dict :=
  [(text "url", JStr (text "https://example.com/c"))].
Definition ex_fail : dict :=
  [(text "url", JStr (text "https://example.com/v1")); (text "title", JStr (text "T"))].
Definition ex_nourl : dict := [(text "title", JStr (text "no url"))].

Definition ex_i0 : io_state (W := nat) := (0, []).

(** The run of [ex_d1; ex_d2; ex_d3] in the scripted world, step by step:
    the agent fails on [ex_d2]. *)
Definition ex_out1 : list dict :=
  Eval vm_compute in
    match fst (run_batch demo 3 [ex_d1] ex_i0) with
    | Returns out => out
    | _ => []
    end.
Definition ex_i1 : io_state (W := nat) :=
  Eval vm_compute in snd (run_batch demo 3 [ex_d1] ex_i0).
Definition ex_path : str := text "/tmp/d/abc.mp4".
Definition ex_i2 : io_state (W := nat) :=
  Eval vm_compute in
    snd (download_youtube_video demo (dict_get ex_d2 (text "url")) ex_i1).
Definition ex_i3 : io_state (W := nat) :=
  Eval vm_compute in snd (process_video demo 3 ex_path ex_i2).
Definition ex_i4 : io_state (W := nat) :=
  Eval vm_compute in snd (os_remove demo ex_path ex_i3).


(** The run of [ex_nourl; ex_fail; ex_d1]. *)
Definition ex_out_mixed : list dict :=
  Eval vm_compute in
    match fst (run_batch demo 3 [ex_nourl; ex_fail; ex_d1] ex_i0) with
    | Returns out => out
    | _ => []
    end.
Definition ex_i_mixed : io_state (W := nat) :=
  Eval vm_compute in snd (run_batch demo 3 [ex_nourl; ex_fail; ex_d1] ex_i0).

(** A service that never finishes: every handle is in state PROCESSING. *)
Definition stuck : collaborators nat :=
  Collaborators nat
    (fun w => (Returns (text "/tmp/d"), w))
    (fun _ _ w => (Returns tt, w))
    (fun _ w => (Returns [text "abc.mp4"], w))
    (fun _ w => (Returns (Handle (text "files/x") (text "PROCESSING")), w))
    (fun name w => (Returns (Handle name (text "PROCESSING")), S w))
    (fun _ w => (Returns (JStr (text "unreachable")), w))
    (fun _ w => (Returns tt, w))
    (fun _ => Returns tt).

(** A scripted world whose output stream takes ASCII only: printing a
    message with a text that holds another character raises. As [demo]
    otherwise, but the error of the agent, on the second upload, holds
    such a character. The values formatted in the samples are texts. *)
Definition is_ascii (a : ascii) : bool := (N_of_ascii a <? 128)%N.

Definition encodable (v : json) : bool :=
  match v with
  | JStr s => forallb is_ascii s
  | _ => true
  end.

Definition ex_quota : str :=
  text "quota d" ++ ["233"%char] ++ text "pass" ++ ["233"%char].

Definition demo_ascii : collaborators nat :=
  Collaborators nat
    (c_mkdtemp demo) (c_run demo) (c_listdir demo) (c_upload_file demo)
    (c_get_file demo)
    (fun _ w =>
       if w =? 2 then (Raises ex_quota, w)
       else (Returns (JStr (summary_marker ++ text " ok")), w))
    (c_remove demo)
    (fun msg =>
       if forallb encodable msg then Returns tt
       else Raises (text "UnicodeEncodeError")).


(** The run of [ex_d1] alone, step by step: everything succeeds. *)
Definition ex_j2 : io_state (W := nat) :=
  Eval vm_compute in
    snd (download_youtube_video demo (dict_get ex_d1 (text "url")) ex_i0).
Definition ex_a1 : analysis :=
  Eval vm_compute in
    match fst (process_video demo 3 ex_path ex_j2) with
    | Returns a => a
    | _ => Analysis [] []
    end.
Definition ex_j3 : io_state (W := nat) :=
  Eval vm_compute in snd (process_video demo 3 ex_path ex_j2).
Definition ex_j4 : io_state (W := nat) :=
  Eval vm_compute in snd (os_remove demo ex_path ex_j3).

(** A scripted environment of [main]: the key is set when the world is not
    0; the file [videos.json] holds [ex_nourl; ex_fail; ex_d1], the file
    [mixed.json] holds [ex_d1] and then a number; no other file can be
    read. *)
Definition demo_env : environment nat :=
  Environment nat
    (fun w => (Returns tt, w))
    (fun _ w =>
       (Returns (if w =? 0 then None else Some (text "secret")), w))
    (fun _ w => (Returns tt, w))
    (fun path w =>
       if str_eqb path (text "videos.json")
       then (Returns (JArr (map JObj [ex_nourl; ex_fail; ex_d1])), 0)
       else if str_eqb path (text "mixed.json")
       then (Returns (JArr [JObj ex_d1; JNum 7; JObj ex_d3]), 0)
       else (Raises (text "[Errno 2] No such file or directory"), w))
    (fun w => (Returns tt, w))
    (fun _ _ w => (Returns tt, w)).

(** ** Proof steps for the calls *)

(** Case analysis on the outcome of the next print or removal. *)
Ltac next_call :=
  match goal with
  | |- context [c_print ?C ?m] => destruct (c_print C m) as [[]|?|]
  | |- context [os_remove ?C ?p ?i] =>
      destruct (os_remove C p i) as [[[]|?|] ?]
  end.

Ltac next_call_in H :=
  match type of H with
  | context [c_print ?C ?m] => destruct (c_print C m) as [[]|?|] eqn:?
  | context [os_remove ?C ?p ?i] =>
      destruct (os_remove C p i) as [[[]|?|] ?] eqn:?
  end.

(** The next call of [download_youtube_video] in the goal. *)
Ltac next_world :=
  match goal with
  | |- context [c_print ?C ?m] => destruct (c_print C m) as [[]|?|]
  | |- context [c_mkdtemp ?C ?w] => destruct (c_mkdtemp C w) as [[?|?|] ?]
  | |- context [c_run ?C ?t ?u ?w] => destruct (c_run C t u w) as [[[]|?|] ?]
  | |- context [c_listdir ?C ?d ?w] =>
      destruct (c_listdir C d w) as [[?|?|] ?]
  | |- context [first_mp4 ?d ?l] => destruct (first_mp4 d l)
  end.

(** Every way through one turn of the loop, from a fact about it. *)
Ltac item_cases H :=
  unfold item_result, bind, ret, try_finally, try_except, print in H;
  repeat (simpl in H; first
    [ next_call_in H
    | match type of H with
      | context [download_youtube_video ?C ?u ?i] =>
          destruct (download_youtube_video C u i) as [[?|?|] ?] eqn:?
      | context [process_video ?C ?f ?p ?i] =>
          destruct (process_video C f p i) as [[?|?|] ?] eqn:?
      | context [falsy_path ?p] => destruct (falsy_path p) eqn:?
      end ]);
  simpl in H.

(** * Properties *)

(** ** Every match ends inside the text it started from *)

Section Suffix.
Import Re.

Lemma star_greedy_suffix p s k x :
  star_greedy p s k = Some x -> exists s', s' `suffix_of` s /\ k s' = Some x.
Proof.
  induction s as [|a s IH]; simpl; intros H.
  - exists []. split; [done | exact H].
  - destruct (p a).
    + destruct (star_greedy p s k) as [y|] eqn:E; simpl in H.
      * destruct (IH H) as (s' & Hs & Hk).
        exists s'. split; [by apply suffix_cons_r | done].
      * exists (a :: s). split; [done | exact H].
    + exists (a :: s). split; [done | exact H].
Qed.

Lemma star_lazy_suffix p s k x :
  star_lazy p s k = Some x -> exists s', s' `suffix_of` s /\ k s' = Some x.
Proof.
  induction s as [|a s IH]; simpl; intros H.
  - destruct (k []) eqn:E; [|discriminate]. exists []. split; [done | congruence].
  - destruct (k (a :: s)) eqn:E.
    + exists (a :: s). split; [done | congruence].
    + destruct (p a); [|discriminate].
      destruct (IH H) as (s' & Hs & Hk).
      exists s'. split; [by apply suffix_cons_r | exact Hk].
Qed.

Lemma m_suffix r : forall s c k x,
  m r s c k = Some x ->
  exists s' c', s' `suffix_of` s /\ k s' c' = Some x.
Proof.
  induction r as [|cs|r1 IH1 r2 IH2|r1 IH1 r2 IH2|r1 IH1|cs|cs|cs|cs|n r1 IH1|r1 IH1|];
    simpl; intros s c k x H.
  - by exists s, c.
  - destruct s as [|a s]; [discriminate|].
    destruct (cset_mem cs a); [|discriminate].
    exists s, c. split; [by apply suffix_cons_r | exact H].
  - destruct (IH1 _ _ _ _ H) as (s1 & c1 & Hs1 & H1).
    destruct (IH2 _ _ _ _ H1) as (s2 & c2 & Hs2 & H2).
    exists s2, c2. split; [by etrans | exact H2].
  - destruct (m r1 s c k) as [y|] eqn:E; simpl in H.
    + apply IH1 with (c := c). congruence.
    + by apply IH2 with (c := c).
  - destruct (m r1 s c k) as [y|] eqn:E; simpl in H.
    + apply IH1 with (c := c). congruence.
    + by exists s, c.
  - destruct (star_greedy_suffix _ _ _ _ H) as (s' & Hs & Hk). by exists s', c.
  - destruct s as [|a s]; [discriminate|].
    destruct (cset_mem cs a); [|discriminate].
    destruct (star_greedy_suffix _ _ _ _ H) as (s' & Hs & Hk).
    exists s', c. split; [by apply suffix_cons_r | exact Hk].
  - destruct (star_lazy_suffix _ _ _ _ H) as (s' & Hs & Hk). by exists s', c.
  - destruct s as [|a s]; [discriminate|].
    destruct (cset_mem cs a); [|discriminate].
    destruct (star_lazy_suffix _ _ _ _ H) as (s' & Hs & Hk).
    exists s', c. split; [by apply suffix_cons_r | exact Hk].
  - destruct (IH1 _ _ _ _ H) as (s' & c' & Hs & Hk). eauto.
  - destruct (m r1 s c (fun s' c' => Some (s', c'))) as [[? c']|]; [|discriminate].
    by exists s, c'.
  - destruct (at_end s); [|discriminate]. by exists s, c.
Qed.

Lemma match_at_suffix r adv s s' c :
  match_at r adv s = Some (s', c) ->
  s' `suffix_of` s /\ (adv = true -> length s' < length s).
Proof.
  unfold match_at. intros H.
  destruct (m_suffix _ _ _ _ _ H) as (s1 & c1 & Hs & Hk).
  pose proof (suffix_length _ _ Hs) as Hl.
  destruct adv; simpl in Hk.
  - destruct (length s1 =? length s) eqn:E; [discriminate|].
    apply Nat.eqb_neq in E. inversion Hk; subst. split; [done | lia].
  - inversion Hk; subst. split; [done | discriminate].
Qed.

Lemma search_suffix r : forall s adv s0 s1 c,
  search r adv s = Some (s0, s1, c) ->
  s0 `suffix_of` s /\ s1 `suffix_of` s0 /\
  (adv = true -> length s1 < length s).
Proof.
  induction s as [|a s IH]; simpl; intros adv s0 s1 c H.
  - destruct (match_at r adv []) as [[s' c']|] eqn:E; [|discriminate].
    inversion H; subst. apply match_at_suffix in E as [E1 E2]. done.
  - destruct (match_at r adv (a :: s)) as [[s' c']|] eqn:E.
    + inversion H; subst. apply match_at_suffix in E as [E1 E2]. done.
    + destruct (IH _ _ _ _ H) as (H0 & H1 & _).
      split; [by apply suffix_cons_r|]. split; [done|].
      intros _. apply suffix_length in H0, H1. simpl. lia.
Qed.

(** The loop budget of [findall] is never exhausted. *)
Lemma findall_loop_returns r : forall fuel (adv : bool) s,
  2 * length s + (if adv then 1 else 2) <= fuel ->
  exists l, findall_loop fuel r adv s = Returns l /\
            Forall (fun t => length t = Nat.max 1 (ngroups r)) l.
Proof.
  induction fuel as [|fuel IH]; intros adv s Hf.
  - destruct adv; lia.
  - simpl. destruct (search r adv s) as [[[s0 s1] c]|] eqn:E.
    + destruct (search_suffix _ _ _ _ _ _ E) as (H0 & H1 & Hadv).
      apply suffix_length in H0, H1.
      destruct (IH (length s1 =? length s0) s1) as (l & -> & Hl).
      { destruct (length s1 =? length s0) eqn:Eq.
        - apply Nat.eqb_eq in Eq. destruct adv; [specialize (Hadv eq_refl)|]; lia.
        - apply Nat.eqb_neq in Eq. destruct adv; lia. }
      simpl. eexists. split; [done|]. constructor; [|done].
      unfold item. destruct (ngroups r) eqn:En; [done|].
      rewrite length_map, length_seq. lia.
    + by exists [].
Qed.

Lemma findall_returns r s :
  exists l, findall r s = Returns l /\
            Forall (fun t => length t = Nat.max 1 (ngroups r)) l.
Proof. apply findall_loop_returns. lia. Qed.

(** More budget than needed changes nothing. *)
Lemma findall_loop_fuel r : forall f1 f2 (adv : bool) s,
  2 * length s + (if adv then 1 else 2) <= f1 ->
  2 * length s + (if adv then 1 else 2) <= f2 ->
  findall_loop f1 r adv s = findall_loop f2 r adv s.
Proof.
  induction f1 as [|f1 IH]; intros f2 adv s H1 H2.
  - destruct adv; lia.
  - destruct f2 as [|f2]; [destruct adv; lia|].
    simpl. destruct (search r adv s) as [[[s0 s1] c]|] eqn:E; [|done].
    destruct (search_suffix _ _ _ _ _ _ E) as (Hs0 & Hs1 & Hadv).
    apply suffix_length in Hs0, Hs1.
    rewrite (IH f2); [done| |].
    all: destruct (length s1 =? length s0) eqn:Eq;
      [apply Nat.eqb_eq in Eq | apply Nat.eqb_neq in Eq];
      destruct adv; try specialize (Hadv eq_refl); lia.
Qed.

(** [findall] unfolds into one [search] and [findall] on the rest. *)
Lemma findall_step r s s0 s1 c :
  search r false s = Some (s0, s1, c) ->
  length s1 < length s0 ->
  findall r s = (rest <- findall r s1 ;; Returns (item r s0 s1 c :: rest)).
Proof.
  intros E Hlt. unfold findall at 1.
  replace (2 * length s + 2) with (S (2 * length s + 1)) by lia.
  simpl. rewrite E.
  destruct (search_suffix _ _ _ _ _ _ E) as (Hs0 & Hs1 & _).
  apply suffix_length in Hs0, Hs1.
  replace (length s1 =? length s0) with false
    by (symmetry; apply Nat.eqb_neq; lia).
  unfold findall.
  rewrite (findall_loop_fuel r _ (2 * length s1 + 2)); [done | lia | lia].
Qed.

Lemma findall_none r s :
  search r false s = None -> findall r s = Returns [].
Proof.
  intros E. unfold findall.
  replace (2 * length s + 2) with (S (2 * length s + 1)) by lia.
  simpl. by rewrite E.
Qed.

End Suffix.

(** ** Facts about the string primitives *)

Section Strings.
Import Py.

Lemma startswith_app p s : startswith p (p ++ s) = true.
Proof.
  induction p as [|a p IH]; simpl; [done|].
  by rewrite Ascii.eqb_refl, IH.
Qed.

Lemma startswith_drop p : forall s,
  startswith p s = true -> s = p ++ drop (length p) s.
Proof.
  induction p as [|a p IH]; intros [|b s]; simpl; try done.
  intros H. apply andb_true_iff in H as [Hab Hp].
  apply Ascii.eqb_eq in Hab. subst b. f_equal. by apply IH.
Qed.

(** Only the first [length p] characters matter. *)
Lemma startswith_app_long p : forall s x,
  length p <= length s -> startswith p (s ++ x) = startswith p s.
Proof.
  induction p as [|a p IH]; intros [|b s] x Hl; simpl in *; try done; [lia|].
  rewrite IH; [done | lia].
Qed.

Lemma startswith_app_r p : forall s w,
  startswith p s = true -> startswith p (s ++ w) = true.
Proof.
  induction p as [|a p IH]; intros [|b s] w; simpl; try done.
  intros H. apply andb_true_iff in H as [-> H]. by rewrite IH.
Qed.

Lemma startswith_head p a b s :
  a <> b -> startswith (a :: p) (b :: s) = false.
Proof.
  intros Hab. simpl. apply andb_false_iff. left. by apply Ascii.eqb_neq.
Qed.

(** [find]: either no position carries an occurrence, or the result is
    the first one that does. *)
Lemma find_from_spec sub : forall s i,
  (find_from sub s i = (-1)%Z /\ forall n, startswith sub (drop n s) = false) \/
  (exists n, find_from sub s i = (i + Z.of_nat n)%Z /\ n <= length s /\
             startswith sub (drop n s) = true /\
             forall j, j < n -> startswith sub (drop j s) = false).
Proof.
  induction s as [|a s IH]; intros i; simpl.
  - destruct (startswith sub []) eqn:E.
    + right. exists 0. rewrite Z.add_0_r. repeat split; [done | done | lia].
    + left. split; [done|]. intros n. by rewrite drop_nil.
  - destruct (startswith sub (a :: s)) eqn:E.
    + right. exists 0. rewrite Z.add_0_r. repeat split; [lia | done | lia].
    + destruct (IH (i + 1)%Z) as [[H1 H2] | (n & H1 & H2 & H3 & H4)].
      * left. split; [done|]. intros [|n]; [done | apply H2].
      * right. exists (S n). repeat split; [lia | lia | done |].
        intros [|j] Hj; [done | apply H4; lia].
Qed.

Lemma find_absent s sub :
  find s sub = (-1)%Z <-> forall n, startswith sub (drop n s) = false.
Proof.
  unfold find.
  destruct (find_from_spec sub s 0) as [[H1 H2] | (n & H1 & H2 & H3 & H4)].
  - done.
  - split; [lia | intros H; by rewrite H in H3].
Qed.

Lemma find_first s sub n :
  find s sub = Z.of_nat n <->
  startswith sub (drop n s) = true /\ n <= length s /\
  forall j, j < n -> startswith sub (drop j s) = false.
Proof.
  unfold find.
  destruct (find_from_spec sub s 0) as [[H1 H2] | (k & H1 & H2 & H3 & H4)].
  - split; [lia | intros (H & _); by rewrite H2 in H].
  - split.
    + intros H. assert (k = n) by lia. by subst.
    + intros (Hn & Hl & Hj). rewrite H1. f_equal.
      destruct (Nat.lt_trichotomy k n) as [Hlt | [-> | Hgt]]; [|done|].
      * rewrite (Hj _ Hlt) in H3. done.
      * rewrite (H4 _ Hgt) in Hn. done.
Qed.

(** An occurrence at the very end of [body ++ sub] and none before: then
    no occurrence starts inside [body], whatever follows. *)
Lemma find_sentinel body sub rest j :
  find (body ++ sub) sub = Z.of_nat (length body) ->
  j < length body ->
  startswith sub (drop j (body ++ sub ++ rest)) = false.
Proof.
  intros H Hj. apply find_first in H as (_ & _ & H).
  rewrite app_assoc, drop_app_le by (rewrite length_app; lia).
  rewrite startswith_app_long; [by apply H|].
  rewrite length_drop, length_app. lia.
Qed.

(** *** [replace] *)

Lemma replace_from_skip old new : forall s n,
  replace_from old new n s = replace_from old new 0 (drop n s).
Proof.
  induction s as [|a s IH]; intros [|n]; simpl; auto.
Qed.

Lemma replace_from_absent old new : forall s,
  (forall n, startswith old (drop n s) = false) ->
  replace_from old new 0 s = s.
Proof.
  induction s as [|a s IH]; intros H; simpl; [done|].
  pose proof (H 0) as H0. simpl in H0. rewrite H0.
  f_equal. apply IH. intros n. apply (H (S n)).
Qed.

Lemma replace_from_prefix old new pre : forall s,
  (forall j, j < length pre -> startswith old (drop j (pre ++ s)) = false) ->
  replace_from old new 0 (pre ++ s) = pre ++ replace_from old new 0 s.
Proof.
  induction pre as [|a pre IH]; intros s H; [done|].
  change ((a :: pre) ++ s) with (a :: (pre ++ s)).
  cbn [replace_from].
  pose proof (H 0 ltac:(simpl; lia)) as H0. simpl in H0. rewrite H0.
  simpl. f_equal. apply IH. intros j Hj. apply (H (S j)). simpl. lia.
Qed.

Lemma replace_from_here old new s :
  old <> [] ->
  replace_from old new 0 (old ++ s) = new ++ replace_from old new 0 s.
Proof.
  intros Hne. destruct old as [|a old]; [done|].
  change ((a :: old) ++ s) with (a :: (old ++ s)).
  cbn [replace_from].
  change (a :: old ++ s) with ((a :: old) ++ s).
  rewrite startswith_app. f_equal.
  rewrite replace_from_skip. simpl. rewrite Nat.sub_0_r.
  by rewrite drop_app_length.
Qed.

(** Occurrences that start in [pre] end in [pre]: then [pre] and what
    follows are rewritten apart. *)
Lemma replace_from_app old new pre : forall s k,
  k <= length pre ->
  (forall j, j < length pre ->
             startswith old (drop j (pre ++ s)) = true ->
             j + length old <= length pre) ->
  replace_from old new k (pre ++ s) =
  replace_from old new k pre ++ replace_from old new 0 s.
Proof.
  induction pre as [|a pre IH]; intros s k Hk H.
  - simpl in Hk. by replace k with 0 by lia.
  - assert (forall j, j < length pre ->
                      startswith old (drop j (pre ++ s)) = true ->
                      j + length old <= length pre) as H'.
    { intros j Hj Hs. specialize (H (S j)). simpl in H.
      specialize (H ltac:(lia) Hs). lia. }
    destruct k as [|k]; cbn [app replace_from].
    + destruct (startswith old (a :: pre ++ s)) eqn:E.
      * pose proof (H 0 ltac:(simpl; lia) E) as Hl. simpl in Hl.
        change (a :: pre ++ s) with ((a :: pre) ++ s) in E.
        rewrite startswith_app_long in E by (simpl; lia).
        rewrite E, <- app_assoc. f_equal. apply IH; [lia | done].
      * destruct (startswith old (a :: pre)) eqn:E'.
        -- apply (startswith_app_r _ _ s) in E'. simpl in E'. congruence.
        -- simpl. f_equal. apply IH; [lia | done].
    + apply IH; [simpl in Hk; lia | done].
Qed.

Lemma replace_absent s old new :
  find s old = (-1)%Z -> replace s old new = s.
Proof.
  intros H. unfold replace. destruct old as [|a old].
  - pose proof (proj1 (find_absent _ _) H 0) as H0. done.
  - apply replace_from_absent. exact (proj1 (find_absent _ _) H).
Qed.

(** *** [strip] *)

Lemma lstrip_app_space w s :
  Forall (fun a => isspace a = true) w -> lstrip (w ++ s) = lstrip s.
Proof.
  induction 1 as [|a w Ha _ IH]; simpl; [done|]. by rewrite Ha.
Qed.

Lemma lstrip_split s :
  exists w, s = w ++ lstrip s /\ Forall (fun a => isspace a = true) w.
Proof.
  induction s as [|a s (w & Hs & Hw)]; simpl.
  - by exists [].
  - destruct (isspace a) eqn:E.
    + exists (a :: w). split; [simpl; congruence | by constructor].
    + by exists [].
Qed.

Lemma lstrip_head s :
  match lstrip s with [] => True | a :: _ => isspace a = false end.
Proof.
  induction s as [|a s IH]; simpl; [done|].
  destruct (isspace a) eqn:E; [done | by simpl].
Qed.

Lemma lstrip_id a s : isspace a = false -> lstrip (a :: s) = a :: s.
Proof. intros H. simpl. by rewrite H. Qed.

Lemma lstrip_space_nil w :
  Forall (fun a => isspace a = true) w -> lstrip w = [].
Proof. intros H. rewrite <- (app_nil_r w). by rewrite lstrip_app_space. Qed.

Lemma lstrip_nil_space s :
  lstrip s = [] -> Forall (fun a => isspace a = true) s.
Proof.
  intros H. destruct (lstrip_split s) as (w & Hs & Hw).
  rewrite H, app_nil_r in Hs. by subst.
Qed.

Lemma lstrip_app_nonblank s w :
  lstrip s <> [] -> lstrip (s ++ w) = lstrip s ++ w.
Proof.
  intros Hne. destruct (lstrip_split s) as (u & Hs & Hu).
  pose proof (lstrip_head s) as Hh.
  destruct (lstrip s) as [|a r] eqn:E; [done|].
  rewrite Hs, <- app_assoc, lstrip_app_space by done.
  rewrite <- app_comm_cons. by apply lstrip_id.
Qed.

Lemma rstrip_app_space s w :
  Forall (fun a => isspace a = true) w -> rstrip (s ++ w) = rstrip s.
Proof.
  intros H. unfold rstrip. rewrite rev_app_distr.
  rewrite lstrip_app_space; [done|]. by apply Forall_rev.
Qed.

Lemma rstrip_split s :
  exists w, s = rstrip s ++ w /\ Forall (fun a => isspace a = true) w.
Proof.
  unfold rstrip. destruct (lstrip_split (rev s)) as (w & Hs & Hw).
  exists (rev w). split; [|by apply Forall_rev].
  rewrite <- rev_app_distr, <- Hs. by rewrite rev_involutive.
Qed.

Lemma rstrip_snoc s a : isspace a = false -> rstrip (s ++ [a]) = s ++ [a].
Proof.
  intros H. unfold rstrip. rewrite rev_app_distr. simpl. rewrite H.
  simpl. by rewrite rev_involutive.
Qed.

(** The last character of a right-stripped text is not a space. *)
Lemma rstrip_last s :
  rstrip s = [] \/ exists t a, rstrip s = t ++ [a] /\ isspace a = false.
Proof.
  unfold rstrip. pose proof (lstrip_head (rev s)) as H.
  destruct (lstrip (rev s)) as [|a t]; [by left|].
  right. exists (rev t), a. by simpl.
Qed.

Lemma rstrip_app s t :
  rstrip t <> [] -> rstrip (s ++ t) = s ++ rstrip t.
Proof.
  intros Hne. destruct (rstrip_split t) as (w & Ht & Hw).
  destruct (rstrip_last t) as [E | (u & a & E & Ha)]; [done|].
  rewrite Ht at 1. rewrite app_assoc, rstrip_app_space by done.
  rewrite E, app_assoc. by apply rstrip_snoc.
Qed.

Lemma rstrip_idemp s : rstrip (rstrip s) = rstrip s.
Proof.
  destruct (rstrip_last s) as [E | (u & a & E & Ha)]; rewrite E; [done|].
  by apply rstrip_snoc.
Qed.

Lemma rstrip_nil_space s :
  rstrip s = [] -> Forall (fun a => isspace a = true) s.
Proof.
  intros H. destruct (rstrip_split s) as (w & Hs & Hw).
  rewrite H in Hs. simpl in Hs. by subst.
Qed.

Lemma strip_idemp s : strip (strip s) = strip s.
Proof.
  unfold strip.
  destruct (rstrip_last (lstrip s)) as [E | (u & a & E & Ha)].
  - by rewrite E.
  - assert (lstrip (rstrip (lstrip s)) = rstrip (lstrip s)) as ->;
      [|apply rstrip_idemp].
    pose proof (lstrip_head s) as Hh.
    destruct (rstrip_split (lstrip s)) as (w & Hs & Hw).
    destruct (rstrip (lstrip s)) as [|b r]; [done|].
    rewrite <- app_comm_cons in Hs. rewrite Hs in Hh.
    by apply lstrip_id.
Qed.

End Strings.

(** ** How the constructs of the pattern behave *)

Section Matching.
Import Re.
Local Arguments Ascii.eqb : simpl never.

Lemma m_seq r1 r2 s c k :
  m (RSeq r1 r2) s c k = m r1 s c (fun s' c' => m r2 s' c' k).
Proof. reflexivity. Qed.

Lemma m_chars l : forall s c k,
  m (foldr (fun a r => RSeq (RSet (CChar a)) r) REps l) s c k =
  if Py.startswith l s then k (drop (length l) s) c else None.
Proof.
  induction l as [|a l IH]; intros s c k; [done|].
  destruct s as [|b s]; [done|]. simpl.
  destruct (Ascii.eqb a b); simpl; [apply IH | done].
Qed.

Lemma m_lit t s c k :
  m (lit t) s c k =
  if Py.startswith (text t) s then k (drop (length (text t)) s) c else None.
Proof. apply m_chars. Qed.

Lemma m_lit_app t s c k : m (lit t) (text t ++ s) c k = k s c.
Proof. by rewrite m_lit, startswith_app, drop_app_length. Qed.

Lemma m_lit_fail t s c k :
  Py.startswith (text t) s = false -> m (lit t) s c k = None.
Proof. intros H. by rewrite m_lit, H. Qed.

(** A greedy run whose longest choice lets the rest succeed. *)
Lemma star_greedy_first p w s k x :
  Forall (fun a => p a = true) w ->
  match s with [] => True | a :: _ => p a = false end ->
  k s = Some x ->
  star_greedy p (w ++ s) k = Some x.
Proof.
  intros Hw Hs Hk. induction Hw as [|a w Ha _ IH]; simpl.
  - destruct s as [|a s]; simpl; [done|]. by rewrite Hs.
  - by rewrite Ha, IH.
Qed.

(** A greedy run fails when the rest fails after every run length. *)
Lemma star_greedy_none p : forall s k,
  (forall j, j <= length s -> Forall (fun a => p a = true) (take j s) ->
             k (drop j s) = None) ->
  star_greedy p s k = None.
Proof.
  induction s as [|a s IH]; intros k H; simpl.
  - apply (H 0); [done | constructor].
  - pose proof (H 0 ltac:(lia) ltac:(constructor)) as H0. simpl in H0.
    destruct (p a) eqn:E; [|done].
    rewrite IH; [done|].
    intros j Hj Hall. apply (H (S j)); [simpl; lia|].
    simpl. by constructor.
Qed.

Lemma star_lazy_here p s k x : k s = Some x -> star_lazy p s k = Some x.
Proof. intros H. destruct s; simpl; by rewrite H. Qed.

(** A lazy run moves on while the rest fails. *)
Lemma star_lazy_skip p pre : forall s k,
  Forall (fun a => p a = true) pre ->
  (forall j, j < length pre -> k (drop j pre ++ s) = None) ->
  star_lazy p (pre ++ s) k = star_lazy p s k.
Proof.
  induction pre as [|a pre IH]; intros s k Hp H; [done|].
  apply Forall_cons in Hp as [Ha Hp].
  change ((a :: pre) ++ s) with (a :: (pre ++ s)).
  cbn [star_lazy].
  pose proof (H 0 ltac:(simpl; lia)) as H0. simpl in H0. rewrite H0, Ha.
  apply IH; [done|]. intros j Hj. apply (H (S j)). simpl. lia.
Qed.

Lemma spaces_take_le (w : str) i n a :
  spaces (take i w) -> w !! n = Some a -> Py.isspace a = false -> i <= n.
Proof.
  intros Hw Hn Ha. destruct (decide (i <= n)) as [|Hgt]; [done|].
  exfalso. assert (take i w !! n = Some a) as Hl
    by (rewrite lookup_take_lt; [done | lia]).
  unfold spaces in Hw. rewrite Forall_lookup in Hw.
  specialize (Hw _ _ Hl). simpl in Hw. congruence.
Qed.

(** The lazy group in front of a header: the group stops at the first
    point from which only spaces separate it from the header. *)
Lemma lazy_group_until g hdr h ht body rest r c k x :
  text hdr = h :: ht -> Py.isspace h = false ->
  (forall j, j < length body ->
     Py.startswith (text hdr) (drop j (body ++ text hdr ++ rest)) = false) ->
  m r rest ((g, Py.rstrip body) :: c) k = Some x ->
  m (RSeq (RGroup g (RLazyStar CAny))
       (RSeq (RStar CSpace) (RSeq (lit hdr) r)))
    (body ++ text hdr ++ rest) c k = Some x.
Proof.
  intros Hh Hsp Hfree Hk. cbn [m].
  destruct (rstrip_split body) as (w & Hb & Hw).
  destruct (rstrip_last body) as [E | (u & a & E & Ha)].
  - (* the body is blank: the group is empty *)
    rewrite E in *. simpl in Hb. subst w.
    apply star_lazy_here. cbn [cset_mem].
    apply star_greedy_first; [exact Hw | by rewrite Hh |].
    rewrite m_lit_app, Nat.sub_diag, take_0. exact Hk.
  - rewrite E in *. clear E.
    set (T := body ++ text hdr ++ rest) in *.
    assert (T = (u ++ [a]) ++ (w ++ text hdr ++ rest)) as HT
      by (unfold T; rewrite Hb at 1; by rewrite <- !app_assoc).
    assert (length body = length u + 1 + length w) as Hlen
      by (rewrite Hb, !length_app; simpl; lia).
    rewrite HT at 1.
    rewrite star_lazy_skip.
    + apply star_lazy_here. cbn [cset_mem].
      apply star_greedy_first; [exact Hw | by rewrite Hh |].
      rewrite m_lit_app.
      replace (take (length T - length (w ++ text hdr ++ rest)) T)
        with (u ++ [a]); [done|].
      rewrite HT, length_app, Nat.add_sub, take_app_length. done.
    + by apply Forall_true.
    + intros j Hj. rewrite length_app in Hj. simpl in Hj.
      apply star_greedy_none. intros i Hi Hall.
      apply m_lit_fail.
      assert (drop j T = drop j (u ++ [a]) ++ w ++ text hdr ++ rest) as HdT
        by (rewrite HT; apply drop_app_le; rewrite length_app; simpl; lia).
      rewrite <- HdT in *. rewrite drop_drop.
      apply Hfree.
      assert (drop j T !! (length u - j) = Some a) as Hl.
      { rewrite lookup_drop, HT.
        replace (j + (length u - j)) with (length u) by lia.
        rewrite <- !app_assoc. rewrite lookup_app_r by lia.
        by rewrite Nat.sub_diag. }
      pose proof (spaces_take_le _ _ _ _ Hall Hl Ha) as Hle. lia.
Qed.

Lemma digit_not_space a : Py.isdigit a = true -> Py.isspace a = false.
Proof. destruct a as [[] [] [] [] [] [] [] []]; done. Qed.

Lemma forallb_Forall_true {A} (f : A -> bool) l :
  forallb f l = true <-> Forall (fun a => f a = true) l.
Proof.
  induction l as [|a l IH]; simpl.
  - split; [constructor | done].
  - rewrite andb_true_iff, Forall_cons. by rewrite IH.
Qed.

Lemma all_space_spaces w : all_space w = true <-> spaces w.
Proof. apply forallb_Forall_true. Qed.

Lemma head_is_cons P s :
  head_is P s = true -> exists a s', s = a :: s' /\ P a = true.
Proof. destruct s as [|a s']; [done | by exists a, s']. Qed.

Lemma m_star_first r w s c k x :
  spaces w ->
  match s with [] => True | a :: _ => Py.isspace a = false end ->
  m r s c k = Some x ->
  m (RSeq (RStar CSpace) r) (w ++ s) c k = Some x.
Proof. intros Hw Hs Hk. cbn [m]. by apply star_greedy_first. Qed.

Lemma m_opt_char_take a r s c k x :
  m r s c k = Some x ->
  m (RSeq (ROpt (RSet (CChar a))) r) (a :: s) c k = Some x.
Proof. intros Hk. cbn [m cset_mem]. by rewrite Ascii.eqb_refl, Hk. Qed.

Lemma m_opt_char_skip a r s c k :
  head_is (Ascii.eqb a) s = false ->
  m (RSeq (ROpt (RSet (CChar a))) r) s c k = m r s c k.
Proof.
  intros Hs. cbn [m cset_mem]. destruct s as [|b s]; [done|].
  simpl in Hs. by rewrite Hs.
Qed.

(** The optional number of a question header. *)
Lemma m_opt_number num r s c k x :
  wf_number num = true ->
  head_is (fun a => negb (Py.isspace a) && negb (Py.isdigit a)) s = true ->
  m r s c k = Some x ->
  m (RSeq (ROpt (RSeq (RStar CSpace) (RPlus CDigit))) r) (num ++ s) c k = Some x.
Proof.
  intros Hn Hs Hk.
  apply head_is_cons in Hs as (a & s' & -> & Ha).
  apply andb_true_iff in Ha as [Hsp Hdg].
  apply negb_true_iff in Hsp, Hdg.
  cbn [m cset_mem]. destruct num as [|n0 num']; simpl app.
  - simpl. by rewrite Hsp, Hdg.
  - unfold wf_number in Hn.
    destruct (lstrip_split (n0 :: num')) as (w & Hsplit & Hw).
    destruct (Py.lstrip (n0 :: num')) as [|d ds] eqn:El; [done|].
    pose proof (proj1 (forallb_Forall_true _ _) Hn) as Hds.
    apply Forall_cons in Hds as [Hd Hds].
    change (n0 :: num' ++ a :: s') with ((n0 :: num') ++ a :: s').
    rewrite Hsplit, <- app_assoc.
    rewrite (star_greedy_first _ w _ _ x); [done | exact Hw | | ].
    + simpl. by apply digit_not_space.
    + simpl. rewrite Hd. by apply star_greedy_first.
Qed.

(** The lazy group [(.+?)]: at least one character, then on while the
    rest of the pattern fails. *)
Lemma lazy_plus_group g r b body s c k x :
  (forall j c', j < length body -> m r (drop j body ++ s) c' k = None) ->
  m r s ((g, b :: body) :: c) k = Some x ->
  m (RSeq (RGroup g (RLazyPlus CAny)) r) (b :: body ++ s) c k = Some x.
Proof.
  intros Hfail Hk. cbn [m cset_mem].
  rewrite star_lazy_skip.
  - apply star_lazy_here.
    replace (length (b :: body ++ s) - length s) with (length (b :: body))
      by (simpl; rewrite length_app; lia).
    change (b :: body ++ s) with ((b :: body) ++ s).
    by rewrite take_app_length.
  - by apply Forall_true.
  - intros j Hj. by apply Hfail.
Qed.

Lemma lstrip_drop_spaces R j :
  spaces (take j R) -> Py.lstrip (drop j R) = Py.lstrip R.
Proof.
  intros H. rewrite <- (take_drop j R) at 2. by rewrite lstrip_app_space.
Qed.

(** Blanks and then a literal that does not start with a blank. *)
Lemma blanks_lit_fail t h ht R c k :
  text t = h :: ht -> Py.isspace h = false ->
  Py.startswith (text t) (Py.lstrip R) = false ->
  star_greedy Py.isspace R (fun s' => m (lit t) s' c k) = None.
Proof.
  intros Ht Hh Hf. apply star_greedy_none. intros j _ Hj.
  apply m_lit_fail.
  destruct (Py.startswith (text t) (drop j R)) eqn:E; [|done].
  rewrite <- (lstrip_drop_spaces R j Hj) in Hf.
  apply startswith_drop in E. rewrite E, Ht in Hf.
  rewrite <- app_comm_cons, lstrip_id in Hf by done.
  rewrite app_comm_cons, <- Ht, startswith_app in Hf. done.
Qed.

(** The look-ahead that ends a context. *)
Lemma lookahead_spec T c k :
  m (RSeq (RLook context_end) REps) T c k =
  if at_context_end T then k T c else None.
Proof.
  destruct T as [|a t]; [done|].
  unfold at_context_end, tail_ok.
  cbn [m context_end seq_of foldr].
  destruct (Ascii.eqb a newline) eqn:Ea.
  - apply Ascii.eqb_eq in Ea. subst a.
    change (newline :: t) with (text (String newline "") ++ t).
    rewrite m_lit_app. cbn [m cset_mem andb].
    destruct (Py.startswith (text "**") (Py.lstrip t)) eqn:Es.
    + destruct (lstrip_split t) as (w & Hsplit & Hw).
      pose proof (startswith_drop _ _ Es) as Hd.
      rewrite Hsplit at 1. rewrite Hd.
      rewrite (star_greedy_first _ w _ _
                 (drop (length (text "**")) (Py.lstrip t), c));
        [done | exact Hw | done |].
      by rewrite m_lit_app.
    + rewrite (blanks_lit_fail "**" "*"%char (text "*")) by done.
      cbn [orelse orb]. by destruct (at_end (text (String newline "") ++ t)).
  - rewrite m_lit_fail.
    + cbn [orelse andb orb]. unfold at_end.
      destruct t; [|done].
      change (Ascii.eqb a "010") with (Ascii.eqb a newline). by rewrite Ea.
    + apply startswith_head. intros <-. by rewrite Ascii.eqb_refl in Ea.
Qed.

Lemma lookahead_ok tail c k :
  tail_ok tail = true ->
  m (RSeq (RLook context_end) REps) tail c k = k tail c.
Proof.
  intros H. rewrite lookahead_spec. unfold at_context_end. by rewrite H.
Qed.

Lemma m_opt_char_both a r s c k :
  m (RSeq (ROpt (RSet (CChar a))) r) (a :: s) c k =
  orelse (m r s c k) (m r (a :: s) c k).
Proof. cbn [m cset_mem]. by rewrite Ascii.eqb_refl. Qed.

Lemma tail_ok_head tail :
  tail_ok tail = true -> head_is (Ascii.eqb dquote) tail = false.
Proof.
  destruct tail as [|a t]; [done|]. unfold tail_ok, head_is. intros H.
  apply andb_true_iff in H as [Ha _]. apply Ascii.eqb_eq in Ha. by subst.
Qed.

Lemma not_context_end_head a X :
  Ascii.eqb a newline = false -> at_context_end (a :: X) = false.
Proof.
  intros Ha. unfold at_context_end, tail_ok, at_end.
  change (Ascii.eqb a "010") with (Ascii.eqb a newline).
  rewrite Ha. by destruct X.
Qed.

Lemma after_body_closing cq tail :
  tail_ok tail = true -> after_body (quote_if cq ++ tail) = true.
Proof.
  intros Ht. destruct cq; [done|]. cbn [quote_if app].
  destruct tail as [|a t]; [done|]. unfold tail_ok in Ht. cbn [after_body].
  apply andb_true_iff in Ht as [-> _]. apply orb_true_r.
Qed.

(** A line break inside a body is not the end of the context. *)
Lemma not_context_end_newline rest X :
  is_nil_str (Py.lstrip rest) = false ->
  Py.startswith (text "**") (Py.lstrip rest) = false ->
  after_body X = true ->
  at_context_end (newline :: rest ++ X) = false.
Proof.
  intros Hnb Hst HX. unfold at_context_end, tail_ok, at_end.
  rewrite Ascii.eqb_refl. cbn [andb].
  assert (Py.lstrip rest <> []) as Hne by (by destruct (Py.lstrip rest)).
  rewrite lstrip_app_nonblank by done.
  assert (rest ++ X <> []) as Hne'.
  { intros E. apply app_eq_nil in E as [-> _]. done. }
  destruct (rest ++ X) eqn:E; [done|]. rewrite orb_false_r.
  destruct (Py.lstrip rest) as [|x [|y u]]; [done| |].
  - destruct X as [|z X]; [by destruct (Ascii.eqb "*" x)|].
    cbn [app Py.startswith text list_ascii_of_string].
    cbn [after_body] in HX.
    destruct (Ascii.eqb "*" z) eqn:Ez; [|by rewrite andb_false_r].
    apply Ascii.eqb_eq in Ez. subst z. done.
  - rewrite startswith_app_long; [done | simpl; lia].
Qed.

(** Inside a well-formed body the context cannot close. *)
Lemma close_fail b rest cq tail c k :
  char_ok b rest cq = true ->
  wf_tail rest cq = true ->
  tail_ok tail = true ->
  m (RSeq (ROpt (RSet (CChar dquote))) (RSeq (RLook context_end) REps))
    (b :: rest ++ quote_if cq ++ tail) c k = None.
Proof.
  intros Hb Hrest Htail. unfold char_ok in Hb.
  pose proof (after_body_closing cq tail Htail) as HX.
  destruct (Ascii.eqb b newline) eqn:En.
  - apply Ascii.eqb_eq in En. subst b.
    rewrite m_opt_char_skip by done.
    rewrite lookahead_spec.
    apply andb_true_iff in Hb as [H1 H2]. apply negb_true_iff in H1, H2.
    by rewrite not_context_end_newline.
  - destruct (Ascii.eqb b dquote) eqn:Eq.
    + apply Ascii.eqb_eq in Eq. subst b.
      rewrite m_opt_char_both, !lookahead_spec.
      rewrite (not_context_end_head dquote) by done.
      assert (at_context_end (rest ++ quote_if cq ++ tail) = false) as ->; [|done].
      destruct rest as [|b' rest'].
      * cbn [app]. destruct cq; [by apply not_context_end_head|].
        by rewrite orb_false_l in Hb.
      * rewrite <- app_comm_cons.
        destruct (Ascii.eqb b' newline) eqn:En'.
        -- apply Ascii.eqb_eq in En'. subst b'.
           cbn [wf_tail] in Hrest. apply andb_true_iff in Hrest as [Hc _].
           unfold char_ok in Hc. rewrite Ascii.eqb_refl in Hc.
           apply andb_true_iff in Hc as [H1 H2]. apply negb_true_iff in H1, H2.
           by apply not_context_end_newline.
        -- by apply not_context_end_head.
    + rewrite m_opt_char_skip by (cbn [head_is]; by rewrite Ascii.eqb_sym).
      rewrite lookahead_spec. by rewrite not_context_end_head.
Qed.

Lemma wf_tail_drop s cq j b rest :
  wf_tail s cq = true -> drop j s = b :: rest ->
  char_ok b rest cq = true /\ wf_tail rest cq = true.
Proof.
  revert j. induction s as [|a s IH]; intros j Hs Hd.
  - by rewrite drop_nil in Hd.
  - cbn [wf_tail] in Hs. apply andb_true_iff in Hs as [Ha Hs].
    destruct j as [|j].
    + inversion Hd; subst. done.
    + by apply (IH j).
Qed.

(** From the context header to the end of the context. *)
Lemma context_part lead oq body cq tail c k x :
  spaces lead ->
  wf_body body oq cq = true ->
  tail_ok tail = true ->
  k tail ((3, body) :: c) = Some x ->
  m (seq_of [RStar CSpace; ROpt (RSet (CChar dquote));
             RGroup 3 (RLazyPlus CAny); ROpt (RSet (CChar dquote));
             RLook context_end])
    (lead ++ quote_if oq ++ body ++ quote_if cq ++ tail) c k = Some x.
Proof.
  intros Hlead Hbody Htail Hk. unfold wf_body in Hbody.
  apply andb_true_iff in Hbody as [_ Hbody].
  destruct body as [|b body]; [done|].
  apply andb_true_iff in Hbody as [Hopen Hrest].
  cbn [seq_of foldr].
  assert (m (RSeq (RGroup 3 (RLazyPlus CAny))
               (RSeq (ROpt (RSet (CChar dquote)))
                  (RSeq (RLook context_end) REps)))
            ((b :: body) ++ quote_if cq ++ tail) c k = Some x) as Hgroup.
  { apply lazy_plus_group.
    - intros j c' Hj.
      destruct (drop j body) as [|b' rest'] eqn:Ed.
      + apply (f_equal length) in Ed. rewrite length_drop in Ed.
        simpl in Ed. lia.
      + rewrite <- app_comm_cons.
        destruct (wf_tail_drop _ _ _ _ _ Hrest Ed) as [Hc Hr].
        by apply close_fail.
    - destruct cq; cbn [quote_if app].
      + apply m_opt_char_take. by rewrite lookahead_ok.
      + rewrite m_opt_char_skip by (by apply tail_ok_head).
        by rewrite lookahead_ok. }
  apply m_star_first; [done| |].
  - destruct oq; cbn [quote_if app]; [done|].
    cbn [orb] in Hopen. apply andb_true_iff in Hopen as [Hsp _].
    by apply negb_true_iff.
  - destruct oq; cbn [quote_if app].
    + by apply m_opt_char_take.
    + rewrite m_opt_char_skip; [done|]. cbn [head_is].
      cbn [orb] in Hopen. apply andb_true_iff in Hopen as [_ Hq].
      apply negb_true_iff in Hq. by rewrite Ascii.eqb_sym.
Qed.

Lemma free_of_lstrip body sub rest j :
  free_of body sub = true ->
  j < length (Py.lstrip body) ->
  Py.startswith sub (drop j (Py.lstrip body ++ sub ++ rest)) = false.
Proof.
  intros Hf Hj. apply Z.eqb_eq in Hf.
  destruct (lstrip_split body) as (w & Hb & Hw).
  assert (length body = length w + length (Py.lstrip body)) as Hl
    by (rewrite Hb at 1; by rewrite length_app).
  replace (drop j (Py.lstrip body ++ sub ++ rest))
    with (drop (length w + j) (body ++ sub ++ rest)).
  - apply find_sentinel; [done | lia].
  - rewrite Hb at 1. rewrite <- app_assoc, drop_app_add'; done.
Qed.

Lemma lstrip_app_head body h t :
  Py.isspace h = false ->
  match Py.lstrip body ++ h :: t with
  | [] => True
  | a :: _ => Py.isspace a = false
  end.
Proof.
  intros Hh. pose proof (lstrip_head body) as H.
  by destruct (Py.lstrip body).
Qed.

(** One match attempt at the start of a well-formed triple takes the
    whole triple and captures its three bodies. *)
Lemma match_triple t tail :
  wf_triple t = true -> tail_ok tail = true ->
  match_at qa_pattern false (render t ++ tail) =
  Some (tail, [(3, t_body t); (2, Py.strip (t_answer t));
               (1, Py.strip (t_question t))]).
Proof.
  intros Hwf Htail. unfold wf_triple in Hwf.
  repeat (apply andb_true_iff in Hwf as [Hwf ?]).
  unfold match_at, qa_pattern. cbn [seq_of foldr].
  unfold render. rewrite <- !app_assoc.
  rewrite m_seq, m_lit_app.
  apply m_opt_number; [done | done |].
  rewrite m_seq, m_lit_app.
  (* the question *)
  destruct (lstrip_split (t_question t)) as (wq & Hq & Hwq).
  rewrite Hq at 1. rewrite <- app_assoc.
  apply m_star_first; [done | by apply lstrip_app_head |].
  apply lazy_group_until with (h := "*"%char) (ht := text "*Answer:**");
    [done | done | intros j Hj; by apply free_of_lstrip |].
  (* the answer *)
  destruct (lstrip_split (t_answer t)) as (wa & Ha & Hwa).
  rewrite Ha at 1. rewrite <- app_assoc.
  apply m_star_first; [done | by apply lstrip_app_head |].
  apply lazy_group_until with (h := "*"%char) (ht := text "*Context:**");
    [done | done | intros j Hj; by apply free_of_lstrip |].
  (* the context *)
  apply context_part; try done.
  by apply all_space_spaces.
Qed.

End Matching.

(** ** [findall] over a run of well-formed triples *)

Section Triples.
Import Re.
Local Arguments Ascii.eqb : simpl never.

Lemma match_at_no_header adv s :
  Py.startswith (text "**Question") s = false ->
  match_at qa_pattern adv s = None.
Proof.
  intros H. unfold match_at, qa_pattern. cbn [seq_of foldr].
  rewrite m_seq. by apply m_lit_fail.
Qed.

Lemma search_skip r w : forall s,
  (forall j, j < length w -> match_at r false (drop j w ++ s) = None) ->
  search r false (w ++ s) = search r false s.
Proof.
  induction w as [|a w IH]; intros s H; [done|].
  change ((a :: w) ++ s) with (a :: (w ++ s)). cbn [search].
  pose proof (H 0 ltac:(simpl; lia)) as H0. simpl in H0. rewrite H0.
  apply IH. intros j Hj. apply (H (S j)). simpl. lia.
Qed.

Lemma search_skip_spaces w s :
  spaces w -> search qa_pattern false (w ++ s) = search qa_pattern false s.
Proof.
  intros Hw. apply search_skip. intros j Hj.
  apply match_at_no_header.
  destruct (drop j w) as [|a u] eqn:E.
  - apply (f_equal length) in E. rewrite length_drop in E. simpl in E. lia.
  - assert (Py.isspace a = true) as Ha.
    { unfold spaces in Hw. rewrite Forall_forall in Hw. apply Hw.
      apply (subseteq_drop j w). rewrite E. by left. }
    rewrite <- app_comm_cons. apply startswith_head.
    intros <-. done.
Qed.

Lemma search_blank w :
  spaces w -> search qa_pattern false w = None.
Proof.
  intros Hw. rewrite <- (app_nil_r w), search_skip_spaces by done.
  done.
Qed.

Lemma item_three s0 s1 c1 c2 c3 :
  item qa_pattern s0 s1 [(3, c3); (2, c2); (1, c1)] = [c1; c2; c3].
Proof. reflexivity. Qed.

Lemma strip_rstrip s : Py.strip (Py.rstrip s) = Py.strip s.
Proof.
  unfold Py.strip. destruct (rstrip_split s) as (w & Hs & Hw).
  destruct (Py.lstrip (Py.rstrip s)) as [|a r] eqn:E.
  - apply lstrip_nil_space in E.
    assert (spaces s) as Hall by (rewrite Hs; by apply Forall_app).
    by rewrite (lstrip_space_nil s).
  - assert (Py.lstrip s = (a :: r) ++ w) as ->.
    { rewrite Hs at 1. rewrite lstrip_app_nonblank by (by rewrite E).
      by rewrite E. }
    by rewrite rstrip_app_space.
Qed.

Lemma strip_nonblank_rstrip s : Py.strip s <> [] -> Py.rstrip s <> [].
Proof.
  intros H E. apply H. rewrite <- strip_rstrip, E. done.
Qed.

(** A text that starts with something ending in a non-blank keeps that
    start when it is right-stripped. *)
Lemma rstrip_keeps_prefix A Z :
  Py.rstrip A = A -> exists Y, Py.rstrip (A ++ Z) = A ++ Y.
Proof.
  intros HA. destruct (Py.rstrip Z) as [|z r] eqn:E.
  - exists []. apply rstrip_nil_space in E.
    by rewrite rstrip_app_space, app_nil_r.
  - exists (Py.rstrip Z). apply rstrip_app. by rewrite E.
Qed.

Lemma render_all_cons t ts :
  render_all (t :: ts) = render t ++ t_sep t ++ render_all ts.
Proof. unfold render_all. simpl. by rewrite <- app_assoc. Qed.

Lemma rstrip_render_all_head t ts :
  exists Y, Py.rstrip (render_all (t :: ts)) = text "**Question" ++ Y.
Proof.
  rewrite render_all_cons. unfold render. rewrite <- !app_assoc.
  by apply rstrip_keeps_prefix.
Qed.

Lemma wf_body_nonblank body oq cq :
  wf_body body oq cq = true -> Py.strip body <> [].
Proof.
  unfold wf_body. intros H. apply andb_true_iff in H as [H _].
  by destruct (Py.strip body).
Qed.

Lemma rstrip_render t :
  wf_triple t = true -> spaces (t_sep t) ->
  Py.rstrip (render t ++ t_sep t) = render (trim_last t).
Proof.
  intros Hwf Hsep. rewrite rstrip_app_space by done.
  unfold wf_triple in Hwf. apply andb_true_iff in Hwf as [_ Hbody].
  apply wf_body_nonblank in Hbody.
  destruct t as [num q a lead oq body cq sep]. unfold render, trim_last.
  cbn [t_number t_question t_answer t_lead t_open t_body t_close t_sep] in *.
  destruct cq; cbn [quote_if].
  - rewrite !app_assoc. by apply rstrip_snoc.
  - rewrite !app_nil_r, !app_assoc. rewrite <- !app_assoc.
    rewrite !app_assoc. apply rstrip_app.
    by apply strip_nonblank_rstrip.
Qed.

Lemma lstrip_app_blank_nil s w :
  spaces w -> Py.lstrip (s ++ w) <> [] -> Py.lstrip s <> [].
Proof.
  intros Hw H E. apply H. apply lstrip_nil_space in E.
  apply lstrip_space_nil. by apply Forall_app.
Qed.

Lemma char_ok_app_spaces c s w :
  spaces w -> char_ok c (s ++ w) false = true -> char_ok c s false = true.
Proof.
  intros Hw. unfold char_ok.
  destruct (Ascii.eqb c newline).
  - intros H. apply andb_true_iff in H as [H1 H2].
    apply negb_true_iff in H1, H2.
    assert (Py.lstrip s <> []) as Hne.
    { apply (lstrip_app_blank_nil s w Hw). by destruct (Py.lstrip (s ++ w)). }
    rewrite lstrip_app_nonblank in H2 by done.
    apply andb_true_iff. split.
    + by destruct (Py.lstrip s).
    + apply negb_true_iff.
      destruct (Py.startswith (text "**") (Py.lstrip s)) eqn:E; [|done].
      by rewrite (startswith_app_r _ _ w E) in H2.
  - destruct (Ascii.eqb c dquote); [|done].
    cbn [orb]. intros H. apply negb_true_iff in H.
    assert (Py.lstrip s <> []) as Hne.
    { apply (lstrip_app_blank_nil s w Hw). by destruct (Py.lstrip (s ++ w)). }
    by destruct (Py.lstrip s).
Qed.

Lemma wf_tail_app_spaces s w :
  spaces w -> wf_tail (s ++ w) false = true -> wf_tail s false = true.
Proof.
  intros Hw. induction s as [|c s IH]; [done|].
  rewrite <- app_comm_cons. cbn [wf_tail]. intros H.
  apply andb_true_iff in H as [Hc Hs].
  apply andb_true_iff. split; [by eapply char_ok_app_spaces | by apply IH].
Qed.

Lemma wf_trim_last t : wf_triple t = true -> wf_triple (trim_last t) = true.
Proof.
  intros Hwf. unfold wf_triple in *.
  apply andb_true_iff in Hwf as [Hwf Hbody].
  destruct t as [num q a lead oq body cq sep]. unfold trim_last.
  cbn [t_number t_question t_answer t_lead t_open t_body t_close t_sep] in *.
  apply andb_true_iff. split; [done|].
  destruct cq; [done|].
  pose proof (wf_body_nonblank _ _ _ Hbody) as Hnb.
  destruct (rstrip_split body) as (w & Hb & Hw).
  pose proof (strip_nonblank_rstrip _ Hnb) as Hne.
  unfold wf_body in *. apply andb_true_iff in Hbody as [_ Hbody].
  apply andb_true_iff. split.
  - rewrite strip_rstrip. by destruct (Py.strip body).
  - destruct (Py.rstrip body) as [|b r]; [done|].
    rewrite Hb in Hbody. rewrite <- app_comm_cons in Hbody.
    apply andb_true_iff in Hbody as [Hhead Htail].
    apply andb_true_iff. split; [done|].
    by apply (wf_tail_app_spaces r w).
Qed.

Lemma entry_of_trim_last t :
  QA (Py.strip (Py.strip (t_question (trim_last t))))
     (Py.strip (Py.strip (t_answer (trim_last t))))
     (Py.strip (t_body (trim_last t))) = entry_of t.
Proof.
  unfold entry_of, trim_last. cbn [t_question t_answer t_body].
  rewrite !strip_idemp.
  destruct (t_close t); [done | by rewrite strip_rstrip].
Qed.

(** The parser's view of a run of triples: one entry per triple, in
    order. *)
Lemma findall_triples : forall ts w,
  wf_triples ts = true -> spaces w ->
  exists l, findall qa_pattern (w ++ Py.rstrip (render_all ts)) = Returns l /\
            collect l = Returns (map entry_of ts).
Proof.
  induction ts as [|t ts IH]; intros w Hwf Hw.
  - exists []. split; [|done].
    apply findall_none. cbn. rewrite app_nil_r. by apply search_blank.
  - cbn [wf_triples] in Hwf.
    apply andb_true_iff in Hwf as [Hwf Hts].
    apply andb_true_iff in Hwf as [Hwf Hnl].
    apply andb_true_iff in Hwf as [Hwf Hsp].
    assert (spaces (t_sep t)) as Hsep by (by apply all_space_spaces).
    destruct ts as [|t2 ts].
    + (* the last triple *)
      rewrite render_all_cons. cbn [render_all flat_map].
      rewrite app_nil_r, rstrip_render by done.
      pose proof (match_triple (trim_last t) [] (wf_trim_last _ Hwf) eq_refl)
        as Hm.
      rewrite app_nil_r in Hm.
      assert (length (render (trim_last t)) <> 0) as Hlen
        by (unfold render; rewrite length_app; simpl; lia).
      assert (search qa_pattern false (w ++ render (trim_last t)) =
              Some (render (trim_last t), [],
                    [(3, t_body (trim_last t));
                     (2, Py.strip (t_answer (trim_last t)));
                     (1, Py.strip (t_question (trim_last t)))])) as Hs.
      { rewrite search_skip_spaces by done.
        destruct (render (trim_last t)) eqn:E; [done|].
        cbn [search]. by rewrite Hm. }
      rewrite (findall_step _ _ _ _ _ Hs) by (simpl; lia).
      rewrite findall_none by done. cbn [obind].
      eexists. split; [done|].
      rewrite item_three. cbn [collect unpack3 obind map].
      by rewrite entry_of_trim_last.
    + (* another triple follows *)
      assert (head_is (Ascii.eqb newline) (t_sep t) = true) as Hnl'
        by (rewrite render_all_cons in Hnl; unfold render in Hnl;
            by rewrite <- !app_assoc in Hnl).
      apply head_is_cons in Hnl' as (a & sep' & Esep & Ha).
      apply Ascii.eqb_eq in Ha. subst a.
      destruct (rstrip_render_all_head t2 ts) as (Y & HY).
      rewrite render_all_cons.
      rewrite !app_assoc, rstrip_app by (by rewrite HY).
      rewrite <- !app_assoc.
      destruct (IH (t_sep t) ltac:(done) Hsep) as (l & Hl & Hc).
      assert (tail_ok (t_sep t ++ Py.rstrip (render_all (t2 :: ts))) = true)
        as Htail.
      { rewrite Esep in *. rewrite <- app_comm_cons. unfold tail_ok.
        rewrite Ascii.eqb_refl. cbn [andb].
        apply Forall_cons in Hsep as [_ Hsep'].
        rewrite lstrip_app_space by done.
        rewrite HY.
        change (text "**Question" ++ Y)
          with ("*"%char :: (text "*Question" ++ Y)).
        rewrite lstrip_id by done.
        change ("*"%char :: (text "*Question" ++ Y))
          with (text "**" ++ (text "Question" ++ Y)).
        apply startswith_app. }
      pose proof (match_triple t _ Hwf Htail) as Hm.
      set (rest := t_sep t ++ Py.rstrip (render_all (t2 :: ts))) in *.
      assert (search qa_pattern false (w ++ render t ++ rest) =
              Some (render t ++ rest, rest,
                    [(3, t_body t); (2, Py.strip (t_answer t));
                     (1, Py.strip (t_question t))])) as Hs.
      { rewrite search_skip_spaces by done.
        destruct (render t ++ rest) eqn:E;
          [apply (f_equal length) in E; unfold render in E;
           rewrite !length_app in E; simpl in E; lia|].
        cbn [search]. by rewrite Hm. }
      rewrite (findall_step _ _ _ _ _ Hs)
        by (rewrite length_app; unfold render; rewrite length_app; simpl; lia).
      rewrite Hl. cbn [obind].
      eexists. split; [done|].
      rewrite item_three. cbn [collect unpack3 obind].
      rewrite Hc. cbn [obind map]. by rewrite !strip_idemp.
Qed.

End Triples.

(** ** The parser on texts of a known shape *)

Section Parser.
Import Py.
Local Arguments Ascii.eqb : simpl never.

Lemma clamp_nat n k : k <= n -> clamp n (Z.of_nat k) = k.
Proof.
  intros H. unfold clamp.
  destruct (Z.ltb_spec (Z.of_nat k) 0); lia.
Qed.

Lemma slice_from_app pre s :
  slice_from (pre ++ s) (Z.of_nat (length pre)) = s.
Proof.
  unfold slice_from. rewrite clamp_nat by (rewrite length_app; lia).
  apply drop_app_length.
Qed.

Lemma slice_middle a b c :
  slice (a ++ b ++ c) (Z.of_nat (length a)) (Z.of_nat (length a + length b)) = b.
Proof.
  unfold slice. rewrite !clamp_nat by (rewrite !length_app; lia).
  rewrite drop_app_length.
  replace (length a + length b - length a) with (length b) by lia.
  apply take_app_length.
Qed.

Lemma find_sentinel_app body sub rest :
  free_of body sub = true ->
  find (body ++ sub ++ rest) sub = Z.of_nat (length body).
Proof.
  intros H. apply Z.eqb_eq in H. apply find_first. repeat split.
  - by rewrite drop_app_length, startswith_app.
  - rewrite length_app. lia.
  - intros j Hj. by apply find_sentinel.
Qed.


(** A text without the alias heading whose first Q&A marker comes right
    after [pre]. *)
Lemma parse_shape pre seg :
  find (pre ++ qa_marker ++ seg) alias_marker = (-1)%Z ->
  free_of pre qa_marker = true ->
  parse_analysis (pre ++ qa_marker ++ seg) =
  (matches <- Re.findall qa_pattern (strip seg) ;;
   qa_list <- collect matches ;;
   Returns (Analysis (summary_part (pre ++ qa_marker ++ seg)) qa_list)).
Proof.
  intros Halias Hqa. unfold parse_analysis. cbv zeta.
  rewrite replace_absent by done.
  fold (summary_part (pre ++ qa_marker ++ seg)).
  rewrite find_sentinel_app by done.
  replace (Z.of_nat (length pre) =? -1)%Z with false
    by (symmetry; apply Z.eqb_neq; lia).
  cbn [negb].
  replace (Z.of_nat (length pre) + Z.of_nat (length qa_marker))%Z
    with (Z.of_nat (length (pre ++ qa_marker)))
    by (rewrite length_app; lia).
  rewrite app_assoc, slice_from_app.
  by destruct (Re.findall qa_pattern (strip seg)).
Qed.


Lemma strip_segment w0 ts :
  spaces w0 -> strip (w0 ++ render_all ts) = rstrip (render_all ts).
Proof.
  intros Hw. unfold strip. rewrite lstrip_app_space by done.
  destruct ts as [|t ts]; [done|].
  rewrite render_all_cons. unfold render. rewrite <- !app_assoc.
  change (text "**Question" ++ ?x) with ("*"%char :: (text "*Question" ++ x)).
  by rewrite lstrip_id.
Qed.

(** The entries extracted from a run of well-formed triples. *)
Lemma parse_triples pre w0 ts :
  find (pre ++ qa_marker ++ w0 ++ render_all ts) alias_marker = (-1)%Z ->
  free_of pre qa_marker = true ->
  all_space w0 = true ->
  wf_triples ts = true ->
  parse_analysis (pre ++ qa_marker ++ w0 ++ render_all ts) =
  Returns (Analysis (summary_part (pre ++ qa_marker ++ w0 ++ render_all ts))
             (map entry_of ts)).
Proof.
  intros Halias Hqa Hw Hts. apply all_space_spaces in Hw.
  rewrite parse_shape by done.
  rewrite strip_segment by done.
  destruct (findall_triples ts [] Hts ltac:(constructor)) as (l & Hl & Hc).
  cbn [app] in Hl. by rewrite Hl; cbn [obind]; rewrite Hc.
Qed.

End Parser.

(** ** The loop of [main] *)

Section Batch.

Context {W : Type} (C : collaborators W).
#[local] Opaque text.

Lemma str_eqb_eq a : forall b, str_eqb a b = true <-> a = b.
Proof.
  induction a as [|x a IH]; intros [|y b]; simpl; try done.
  rewrite andb_true_iff, IH, Ascii.eqb_eq. split; [intros [-> ->] | intros [= -> ->]]; done.
Qed.

Lemma str_eqb_refl a : str_eqb a a = true.
Proof. by apply str_eqb_eq. Qed.

Lemma dict_lookup_set_eq d key v : dict_lookup (dict_set d key v) key = Some v.
Proof.
  induction d as [|[k v'] d IH]; simpl.
  - by rewrite str_eqb_refl.
  - destruct (str_eqb k key) eqn:E; simpl; by rewrite E.
Qed.

Lemma dict_lookup_set_ne d key v key' :
  key <> key' -> dict_lookup (dict_set d key v) key' = dict_lookup d key'.
Proof.
  intros Hne. assert (str_eqb key key' = false) as Hf.
  { destruct (str_eqb key key') eqn:E; [|done]. by apply str_eqb_eq in E. }
  induction d as [|[k v'] d IH]; simpl.
  - by rewrite Hf.
  - destruct (str_eqb k key) eqn:E; simpl.
    + apply str_eqb_eq in E. subst k. by rewrite Hf.
    + by rewrite IH.
Qed.

(** One turn of the loop changes the object it works on, and nothing else
    of the heap. *)
Lemma step_item fuel r st d :
  heap st !! r = Some d ->
  exists o' st',
    step C fuel r st = (o', st') /\
    let '(o, i') := item_result C fuel d (io st) in
    io st' = i' /\
    match o with
    | Returns (Some d') =>
        o' = Returns tt /\ heap st' = <[r := d']> (heap st) /\
        output_data st' = output_data st ++ [r]
    | Returns None =>
        o' = Returns tt /\ heap st' = heap st /\
        output_data st' = output_data st
    | Raises e => o' = Raises e
    | Diverges => o' = Diverges
    end.
Proof.
  intros Hd. destruct st as [i hp out]. cbn [heap] in Hd.
  assert (forall f, alter f r hp = <[r := f d]> hp) as Halter.
  { intros f. apply list_eq. intros j.
    destruct (decide (j = r)) as [->|Hne].
    - rewrite list_lookup_alter_eq, Hd. simpl.
      rewrite list_lookup_insert_eq; [done | by eapply lookup_lt_Some].
    - by rewrite list_lookup_alter_ne, list_lookup_insert_ne. }
  unfold step, item_result, bind, deref, ret, lift, set_item, append_output,
    try_finally, try_except, print. cbn [heap io output_data]. rewrite Hd.
  cbn [from_option id].
  destruct (truthy (dict_get d (text "url"))); simpl; [|by eauto 10].
  next_call; simpl; [|by eauto|by eauto].
  destruct (download_youtube_video C (dict_get d (text "url")) i)
    as [[p|e|] i1]; simpl; [|by eauto|by eauto].
  destruct (falsy_path p); simpl.
  { next_call; simpl; rewrite ?Halter; by eauto 10. }
  destruct (process_video C fuel (default [] p) i1) as [[a|e|] i2]; simpl;
    [| |by eauto]; repeat (next_call; simpl);
    rewrite ?Halter; by eauto 10.
Qed.

Lemma step_item_frame fuel r st d o' st' :
  heap st !! r = Some d -> step C fuel r st = (o', st') ->
  length (heap st') = length (heap st) /\
  forall j, j <> r -> heap st' !! j = heap st !! j.
Proof.
  intros Hd Hs. destruct st as [i hp out]. cbn [heap] in *.
  unfold step, item_result, bind, deref, ret, lift, set_item, append_output,
    try_finally, try_except, print in Hs. cbn [heap io output_data] in Hs.
  rewrite Hd in Hs. cbn [from_option id] in Hs.
  assert (forall f, length (alter f r hp) = length hp /\
                    forall j, j <> r -> alter f r hp !! j = hp !! j) as Hal.
  { intros f. split; [apply length_alter|].
    intros j Hj. by apply list_lookup_alter_ne. }
  destruct (truthy (dict_get d (text "url"))); simpl in Hs;
    [|inversion Hs; by subst].
  next_call_in Hs; simpl in Hs; [|inversion Hs; by subst|inversion Hs; by subst].
  destruct (download_youtube_video C (dict_get d (text "url")) i)
    as [[p|e|] i1]; simpl in Hs; [|inversion Hs; by subst|inversion Hs; by subst].
  destruct (falsy_path p); simpl in Hs.
  { next_call_in Hs; simpl in Hs; inversion Hs; subst; simpl;
      (apply Hal || done). }
  destruct (process_video C fuel (default [] p) i1) as [[a|e|] i2]; simpl in Hs;
    [| |inversion Hs; by subst];
    repeat (next_call_in Hs; simpl in Hs);
    inversion Hs; subst; simpl; (apply Hal || done).
Qed.

Lemma loop_batch fuel : forall ds k st o i',
  drop k (heap st) = ds ->
  batch C fuel ds (io st) = (o, i') ->
  exists o' st',
    loop C fuel (seq k (length ds)) st = (o', st') /\ io st' = i' /\
    match o with
    | Returns outs =>
        o' = Returns tt /\
        (forall j, j < k -> heap st' !! j = heap st !! j) /\
        exists rs, output_data st' = output_data st ++ rs /\
                   map (fun r => default [] (heap st' !! r)) rs = outs
    | Raises e => o' = Raises e
    | Diverges => o' = Diverges
    end.
Proof.
  induction ds as [|d ds IH]; intros k st o i' Hdrop Hb.
  - inversion Hb; subst. exists (Returns tt), st. simpl.
    repeat split. exists []. by rewrite app_nil_r.
  - assert (heap st !! k = Some d) as Hd.
    { pose proof (lookup_drop (heap st) k 0) as H0.
      rewrite Hdrop, Nat.add_0_r in H0. done. }
    assert (drop (S k) (heap st) = ds) as Hdrop'.
    { pose proof (drop_drop (heap st) 1 k) as H1.
      rewrite Hdrop, Nat.add_1_r in H1. done. }
    destruct (step_item fuel k st d Hd) as (o1 & st1 & Hstep & Hitem).
    pose proof (step_item_frame fuel k st d o1 st1 Hd Hstep) as [Hlen Hframe].
    cbn [batch] in Hb. unfold bind in Hb.
    cbn [length seq loop]. unfold bind at 1. rewrite Hstep.
    destruct (item_result C fuel d (io st)) as [[[d'|]|e|] i1] eqn:Ei;
      destruct Hitem as [Hio Hitem].
    + destruct Hitem as (-> & Hheap & Hout).
      destruct (batch C fuel ds i1) as [ob ib] eqn:Eb.
      assert (drop (S k) (heap st1) = ds) as Hdrop1.
      { rewrite Hheap, drop_insert_lt by lia. done. }
      rewrite <- Hio in Eb.
      destruct (IH (S k) st1 ob ib Hdrop1 Eb) as (o2 & st2 & Hloop & Hio2 & Hres).
      exists o2, st2. split; [done|]. 
      destruct ob as [outs|e|]; unfold ret in Hb; inversion Hb; subst;
        (split; [done|]); [|done|done].
      destruct Hres as (-> & Hfr & rs & Hout2 & Hmap).
      split; [done|]. split.
      * intros j Hj. rewrite Hfr by lia. apply Hframe. lia.
      * exists (k :: rs). split.
        -- rewrite Hout2, Hout, <- app_assoc. done.
        -- cbn [map]. rewrite Hmap. f_equal.
           rewrite Hfr by lia. rewrite Hheap.
           rewrite list_lookup_insert_eq; [done | by eapply lookup_lt_Some].
    + destruct Hitem as (-> & Hheap & Hout).
      destruct (batch C fuel ds i1) as [ob ib] eqn:Eb.
      assert (drop (S k) (heap st1) = ds) as Hdrop1 by (by rewrite Hheap).
      rewrite <- Hio in Eb.
      destruct (IH (S k) st1 ob ib Hdrop1 Eb) as (o2 & st2 & Hloop & Hio2 & Hres).
      exists o2, st2. split; [done|].
      destruct ob as [outs|e|]; unfold ret in Hb; inversion Hb; subst;
        (split; [done|]); [|done|done].
      destruct Hres as (-> & Hfr & rs & Hout2 & Hmap).
      split; [done|]. split.
      * intros j Hj. rewrite Hfr by lia. apply Hframe. lia.
      * exists rs. by rewrite Hout2, Hout.
    + subst o1. inversion Hb; subst. by exists (Raises e), st1.
    + subst o1. inversion Hb; subst. by exists Diverges, st1.
Qed.

(** The heap plays no part in the result: the objects are distinct, so the
    loop amounts to handling each descriptor on its own, in order. *)
Lemma run_batch_batch fuel ds i : run_batch C fuel ds i = batch C fuel ds i.
Proof.
  unfold run_batch.
  destruct (batch C fuel ds i) as [o i'] eqn:Eb.
  destruct (loop_batch fuel ds 0 (MState i ds []) o i' eq_refl Eb)
    as (o' & st' & -> & Hio & Hres).
  destruct o as [outs|e|].
  - destruct Hres as (-> & _ & rs & Hout & Hmap). cbn [obind].
    cbn [output_data app] in Hout. unfold dump. by rewrite Hout, Hmap, Hio.
  - subst o'. by rewrite Hio.
  - subst o'. by rewrite Hio.
Qed.

Lemma batch_app fuel a : forall b i,
  batch C fuel (a ++ b) i =
  (oa <<- batch C fuel a ;; ob <<- batch C fuel b ;; ret (oa ++ ob)) i.
Proof.
  induction a as [|d a IH]; intros b i.
  - cbn [app batch]. unfold bind, ret.
    by destruct (batch C fuel b i) as [[?|?|] ?].
  - cbn [app batch]. unfold bind at 1 3 4.
    destruct (item_result C fuel d i) as [[r|e|] i1]; [|done|done].
    unfold bind at 1. rewrite IH. unfold bind, ret.
    destruct (batch C fuel a i1) as [[oa|e|] i2]; [|done|done].
    destruct (batch C fuel b i2) as [[ob|e|] i3]; [|done|done].
    by destruct r.
Qed.

Lemma item_no_url fuel d i :
  has_url d = false -> item_result C fuel d i = (Returns None, i).
Proof. intros H. unfold item_result. unfold has_url in H. by rewrite H. Qed.

Lemma batch_filter fuel : forall ds i,
  batch C fuel ds i = batch C fuel (filter (fun d => has_url d = true) ds) i.
Proof.
  induction ds as [|d ds IH]; intros i; [done|].
  destruct (has_url d) eqn:E.
  - rewrite filter_cons_True by done. cbn [batch]. unfold bind.
    destruct (item_result C fuel d i) as [[r|e|] i1]; [|done|done].
    by rewrite IH.
  - rewrite filter_cons_False by (by rewrite E). cbn [batch]. unfold bind.
    rewrite item_no_url by done. rewrite <- IH. unfold ret.
    by destruct (batch C fuel ds i) as [[?|?|] ?].
Qed.

Lemma item_annotates fuel d i d' i' :
  item_result C fuel d i = (Returns (Some d'), i') ->
  has_url d = true /\ exists v, d' = dict_set d (text "analysis") v.
Proof.
  intros H. unfold has_url.
  destruct (truthy (dict_get d (text "url"))) eqn:Eu;
    [|unfold item_result in H; by rewrite Eu in H].
  split; [done|].
  unfold item_result in H. rewrite Eu in H.
  item_cases H; inversion H; by eauto.
Qed.

Lemma batch_annotates fuel : forall ds i out i',
  batch C fuel ds i = (Returns out, i') ->
  Forall2 (fun d o => exists v, o = dict_set d (text "analysis") v)
    (filter (fun d => has_url d = true) ds) out.
Proof.
  induction ds as [|d ds IH]; intros i out i' H.
  - inversion H. constructor.
  - cbn [batch] in H. unfold bind, ret in H.
    destruct (item_result C fuel d i) as [[r|e|] i1] eqn:Ei; [|done|done].
    destruct (batch C fuel ds i1) as [[outs|e|] i2] eqn:Eb; [|done|done].
    inversion H; subst. specialize (IH _ _ _ Eb).
    destruct r as [d'|].
    + apply item_annotates in Ei as [Hu Hv].
      rewrite filter_cons_True by done. by constructor.
    + destruct (has_url d) eqn:E.
      * unfold item_result in Ei. unfold has_url in E. rewrite E in Ei.
        item_cases Ei; done.
      * by rewrite filter_cons_False by (by rewrite E).
Qed.

End Batch.

(** ** Normalization and the parser on arbitrary text *)

Section Normalize.
Import Py.
Local Arguments Ascii.eqb : simpl never.

Lemma occurrence_found s sub n :
  startswith sub (drop n s) = true -> find s sub <> (-1)%Z.
Proof.
  intros H E. pose proof (proj1 (find_absent _ _) E n) as Hn. congruence.
Qed.

(** Where [old] occurs, [replace] writes [new]. *)
Lemma replace_occurrence s old new :
  old <> [] -> find s old <> (-1)%Z -> find (replace s old new) new <> (-1)%Z.
Proof.
  intros Hne Hf. unfold find in Hf.
  destruct (find_from_spec old s 0) as [[H1 H2] | (n & H1 & H2 & H3 & H4)];
    [done|].
  pose proof (startswith_drop _ _ H3) as Hs.
  assert (s = take n s ++ old ++ drop (length old) (drop n s)) as Hsplit
    by (rewrite <- Hs; by rewrite take_drop).
  assert (length (take n s) = n) as Hlen by (rewrite length_take; lia).
  unfold replace. destruct old as [|a old]; [done|].
  rewrite Hsplit.
  rewrite replace_from_prefix.
  - rewrite replace_from_here by done.
    apply (occurrence_found _ _ n).
    rewrite <- Hlen at 1. rewrite drop_app_length. apply startswith_app.
  - intros j Hj. rewrite <- Hsplit. apply H4. lia.
Qed.

(** A normalized text without the canonical heading had no alias. *)
Lemma alias_absent_without_summary s :
  find (replace s alias_marker summary_marker) summary_marker = (-1)%Z ->
  find s alias_marker = (-1)%Z.
Proof.
  intros H.
  destruct (Z.eq_dec (find s alias_marker) (-1)%Z) as [E|E]; [done|].
  exfalso. by apply (replace_occurrence s alias_marker summary_marker).
Qed.

Lemma normalized_without_summary s :
  find (replace s alias_marker summary_marker) summary_marker = (-1)%Z ->
  replace s alias_marker summary_marker = s.
Proof.
  intros H. apply replace_absent. by apply alias_absent_without_summary.
Qed.

Lemma collect_returns l :
  Forall (fun t => length t = 3) l -> exists q, collect l = Returns q.
Proof.
  induction 1 as [|t l Ht _ (q & Hq)]; [by exists []|].
  destruct t as [|x [|y [|z [|]]]]; try done.
  cbn [collect unpack3 obind]. rewrite Hq. by eexists.
Qed.

Lemma findall_collect_returns s :
  exists ms q, Re.findall qa_pattern s = Returns ms /\ collect ms = Returns q.
Proof.
  destruct (findall_returns qa_pattern s) as (ms & Hms & Hall).
  destruct (collect_returns ms Hall) as (q & Hq). by exists ms, q.
Qed.

(** The parser always comes back with a record. *)
Lemma parse_analysis_returns analysis_text :
  exists a, parse_analysis analysis_text = Returns a.
Proof.
  unfold parse_analysis. cbv zeta.
  set (t := replace analysis_text alias_marker summary_marker).
  destruct (negb (find t qa_marker =? -1)%Z).
  - destruct (findall_collect_returns
                (strip (slice_from t
                          (find t qa_marker + Z.of_nat (length qa_marker))%Z)))
      as (ms & q & -> & Hq).
    cbn [obind]. rewrite Hq. cbn [obind]. by eexists.
  - cbn [obind]. by eexists.
Qed.

Lemma lstrip_app s t :
  lstrip t = t -> t <> [] -> lstrip (s ++ t) = lstrip s ++ t.
Proof.
  intros Ht Hne. destruct (lstrip s) as [|a r] eqn:E.
  - apply lstrip_nil_space in E. by rewrite lstrip_app_space.
  - rewrite lstrip_app_nonblank by (by rewrite E). by rewrite E.
Qed.

(** Stripping around a piece that has no blank at either end. *)
Lemma strip_around pre mid post :
  lstrip mid = mid -> rstrip mid = mid -> mid <> [] ->
  strip (pre ++ mid ++ post) = lstrip pre ++ mid ++ rstrip post.
Proof.
  intros Hl Hr Hne. unfold strip.
  assert (lstrip (pre ++ mid ++ post) = lstrip pre ++ mid ++ post) as ->.
  { rewrite !app_assoc. destruct (lstrip (pre ++ mid)) as [|a r] eqn:E.
    - rewrite lstrip_app in E by done.
      apply (f_equal length) in E. rewrite length_app in E.
      destruct mid; [done | simpl in E; lia].
    - rewrite lstrip_app_nonblank by (by rewrite E).
      by rewrite lstrip_app. }
  destruct (rstrip post) as [|a r] eqn:E.
  - apply rstrip_nil_space in E. rewrite !app_assoc, rstrip_app_space by done.
    rewrite app_nil_r. rewrite rstrip_app by (by rewrite Hr). by rewrite Hr.
  - rewrite !app_assoc, <- E. apply rstrip_app. by rewrite E.
Qed.

Lemma strip_suffix_rstrip s : strip s `suffix_of` rstrip s.
Proof.
  unfold strip. destruct (lstrip_split s) as (w & Hs & Hw).
  destruct (rstrip (lstrip s)) as [|a r] eqn:E; [apply suffix_nil|].
  rewrite Hs at 1. rewrite rstrip_app by (by rewrite E).
  rewrite E. by apply suffix_app_r.
Qed.

End Normalize.

(** ** The alias heading *)

Section Alias.
Import Py.

(** An occurrence of the alias that starts before an alias heading and
    runs into it also runs into a canonical heading put in its place:
    the two headings start alike and every overlap is one or two
    characters long. *)
Lemma alias_overlap p X :
  p <> [] ->
  startswith alias_marker (p ++ alias_marker ++ X) = true ->
  startswith alias_marker (p ++ summary_marker ++ X) = true.
Proof.
  intros Hne.
  let l := eval vm_compute in alias_marker in change alias_marker with l.
  let l := eval vm_compute in summary_marker in change summary_marker with l.
  destruct p as [|c p]; [done|]. clear Hne. revert c p.
  assert (forall a (u : str) c (t t' : str),
             (startswith u t = true -> startswith u t' = true) ->
             startswith (a :: u) (c :: t) = true ->
             startswith (a :: u) (c :: t') = true) as Hstep.
  { intros a u c t t' Hu H. simpl in *.
    apply andb_true_iff in H as [-> H]. by rewrite Hu. }
  intros c p. apply Hstep. clear c.
  do 17 (destruct p as [|c p];
         [by vm_compute | cbn [app]; apply Hstep; clear c]).
  done.
Qed.

Lemma heading_clear_spec pre post j :
  heading_clear pre post = true ->
  length pre - 17 <= j < length pre + 12 ->
  startswith alias_marker (drop j (pre ++ summary_marker ++ post)) = false.
Proof.
  unfold heading_clear. cbv zeta. intros H Hj.
  rewrite forallb_forall in H. apply negb_true_iff. apply H.
  apply in_seq.
  change (length alias_marker - 1) with 17.
  change (length summary_marker) with 12. lia.
Qed.

(** With the heading clear of other occurrences, the alias heading and
    the canonical heading normalize to the same text. *)
Lemma replace_alias_heading pre post :
  heading_clear pre post = true ->
  replace (pre ++ alias_marker ++ post) alias_marker summary_marker =
  replace (pre ++ summary_marker ++ post) alias_marker summary_marker.
Proof.
  intros H.
  change (replace ?s alias_marker summary_marker)
    with (replace_from alias_marker summary_marker 0 s).
  assert (forall X,
    (forall j, j < length pre ->
               startswith alias_marker (drop j (pre ++ X)) = true ->
               j + length alias_marker <= length pre) ->
    replace_from alias_marker summary_marker 0 (pre ++ X) =
    replace_from alias_marker summary_marker 0 pre
      ++ replace_from alias_marker summary_marker 0 X) as Happ
    by (intros X HX; apply replace_from_app; [lia | done]).
  rewrite (Happ (alias_marker ++ post)), (Happ (summary_marker ++ post)).
  - f_equal. rewrite replace_from_here by done.
    rewrite replace_from_prefix; [done|].
    intros j Hj. change (length summary_marker) with 12 in Hj.
    pose proof (heading_clear_spec pre post (length pre + j) H ltac:(lia))
      as Hc.
    by rewrite <- drop_drop, drop_app_length in Hc.
  - intros j Hj E. change (length alias_marker) with 18.
    destruct (decide (j + 18 <= length pre)) as [|Hn]; [done|].
    rewrite (heading_clear_spec pre post j H) in E by lia. done.
  - intros j Hj E. change (length alias_marker) with 18.
    destruct (decide (j + 18 <= length pre)) as [|Hn]; [done|].
    exfalso. rewrite drop_app_le in E by lia.
    apply alias_overlap in E.
    + pose proof (heading_clear_spec pre post j H ltac:(lia)) as Hc.
      rewrite drop_app_le in Hc by lia. congruence.
    + intros E0. apply (f_equal length) in E0.
      rewrite length_drop in E0. simpl in E0. lia.
Qed.

End Alias.

(** * The claims about the response parser *)

Section ParserClaims.
Import Py.

(** C1. For every input string, the empty one included, [parse_analysis]
    terminates and returns a record holding a summary string and a
    sequence of entries; it never raises. *)
Theorem parse_analysis_total (analysis_text : str) :
  exists (s : str) (entries : list qa_entry),
    parse_analysis analysis_text = Returns (Analysis s entries).
Proof.
  destruct (parse_analysis_returns analysis_text) as ([s entries] & H).
  by exists s, entries.
Qed.




(** C6. When the normalized text holds neither marker, the summary is the
    whole input, trimmed, and there is no entry. *)
Theorem parse_no_markers (analysis_text : str) :
  let normalized := replace analysis_text alias_marker summary_marker in
  find normalized summary_marker = (-1)%Z ->
  find normalized qa_marker = (-1)%Z ->
  parse_analysis analysis_text = Returns (Analysis (strip analysis_text) []).
Proof.
  intros normalized Hs Hq.
  assert (normalized = analysis_text) as Hn
    by (by apply normalized_without_summary).
  unfold parse_analysis. cbv zeta. fold normalized.
  rewrite Hn in *. by rewrite Hs, Hq.
Qed.

(** C7, as the code has it. An input with the alias heading parses to the
    same result, so to the same summary, as the input that has the
    canonical heading in its place, when no other occurrence of the alias
    overlaps that heading. *)
Theorem parse_alias_heading (pre post : str) :
  heading_clear pre post = true ->
  exists a,
    parse_analysis (pre ++ alias_marker ++ post) = Returns a /\
    parse_analysis (pre ++ summary_marker ++ post) = Returns a.
Proof.
  intros H.
  destruct (parse_analysis_returns (pre ++ summary_marker ++ post))
    as (a & Hp).
  exists a. split; [|done].
  rewrite <- Hp. unfold parse_analysis. cbv zeta.
  by rewrite replace_alias_heading.
Qed.

(** C10. When the normalized text holds the Q&A marker but no Summary
    marker, the summary is the whole input, trimmed: it contains the Q&A
    marker and ends with the Q&A text, while the entries are still those
    found in the text after the marker: when that text is a list of
    well-formed triples, the entries are theirs, one for each, in
    order. *)
Theorem parse_qa_without_summary (analysis_text : str) :
  let normalized := replace analysis_text alias_marker summary_marker in
  find normalized summary_marker = (-1)%Z ->
  find normalized qa_marker <> (-1)%Z ->
  let qa_text :=
    strip (slice_from analysis_text
             (find analysis_text qa_marker + Z.of_nat (length qa_marker))%Z) in
  exists matches entries,
    parse_analysis analysis_text =
      Returns (Analysis (strip analysis_text) entries) /\
    Re.findall qa_pattern qa_text = Returns matches /\
    collect matches = Returns entries /\
    find (strip analysis_text) qa_marker <> (-1)%Z /\
    qa_text `suffix_of` strip analysis_text /\
    forall (pre w0 : str) (ts : list triple),
      analysis_text = pre ++ qa_marker ++ w0 ++ render_all ts ->
      free_of pre qa_marker = true ->
      all_space w0 = true ->
      wf_triples ts = true ->
      entries = map entry_of ts.
Proof.
  intros normalized Hs Hq qa_text.
  assert (find analysis_text alias_marker = (-1)%Z) as Halias
    by (by apply alias_absent_without_summary).
  assert (replace analysis_text alias_marker summary_marker = analysis_text)
    as Hrep by (by apply normalized_without_summary).
  unfold normalized in *. rewrite Hrep in Hs, Hq. clear normalized.
  destruct (findall_collect_returns qa_text) as (ms & q & Hms & Hc).
  assert (parse_analysis analysis_text =
          Returns (Analysis (strip analysis_text) q)) as Hparse.
  { unfold parse_analysis. cbv zeta. rewrite Hrep, Hs.
    apply Z.eqb_neq in Hq. rewrite Hq. cbn [negb Z.eqb].
    fold qa_text. rewrite Hms. cbn [obind]. by rewrite Hc. }
  exists ms, q. split; [done|]. split; [done|]. split; [done|].
  enough (find (strip analysis_text) qa_marker <> (-1)%Z /\
          qa_text `suffix_of` strip analysis_text) as [H1 H2].
  { split; [done|]. split; [done|].
    intros pre w0 ts Hin Hpre Hw Hts. rewrite Hin in Hparse, Halias.
    rewrite parse_triples in Hparse by done. by injection Hparse. }
  unfold find in Hq.
    destruct (find_from_spec qa_marker analysis_text 0)
      as [[H1 H2] | (n & H1 & H2 & H3 & H4)]; [done|].
    pose proof (startswith_drop _ _ H3) as Hsplit.
    assert (analysis_text =
            take n analysis_text ++ qa_marker
              ++ drop (length qa_marker) (drop n analysis_text)) as Ha
      by (rewrite <- Hsplit; by rewrite take_drop).
    set (post := drop (length qa_marker) (drop n analysis_text)) in *.
    assert (qa_text = strip post) as Hqt.
    { unfold qa_text, find. rewrite H1. unfold slice_from.
      replace (0 + Z.of_nat n + Z.of_nat (length qa_marker))%Z
        with (Z.of_nat (n + length qa_marker)) by lia.
      rewrite clamp_nat.
      - unfold post. by rewrite drop_drop.
      - rewrite Ha at 1. rewrite !length_app, length_take. lia. }
    rewrite Hqt, Ha, strip_around by done.
    split.
    + apply (occurrence_found _ _ (length (lstrip (take n analysis_text)))).
      rewrite drop_app_length. apply startswith_app.
    + do 2 apply suffix_app_r. apply strip_suffix_rstrip.
Qed.

End ParserClaims.


(** ** Witnesses and the counterexample for the parser *)







Lemma parse_no_markers_witness :
  parse_analysis ex_plain =
  Returns (Analysis (text "The model declined to answer.") []).
Proof.
  apply (parse_no_markers ex_plain); vm_compute; reflexivity.
Defined.

Lemma parse_alias_heading_witness :
  exists a,
    parse_analysis
      ([newline] ++ alias_marker ++ ex_summary ++ alias_marker ++ qa_marker
         ++ render ex_triple2)
      = Returns a /\
    parse_analysis
      ([newline] ++ summary_marker ++ ex_summary ++ alias_marker ++ qa_marker
         ++ render ex_triple2)
      = Returns a.
Proof.
  apply (parse_alias_heading [newline]
           (ex_summary ++ alias_marker ++ qa_marker ++ render ex_triple2)).
  vm_compute. reflexivity.
Defined.

(** C7, as stated, fails when the text before the heading ends with the
    beginning of the alias: with the canonical heading in place an alias
    appears across its start, and the two inputs give different
    summaries. *)
Lemma parse_alias_heading_counterexample :
  parse_analysis (text "**Video Summary:" ++ alias_marker ++ text " text")
    = Returns (Analysis (text "Video Summary:** text") []) /\
  parse_analysis (text "**Video Summary:" ++ summary_marker ++ text " text")
    = Returns (Analysis (text "Summary:** text") []).
Proof. split; vm_compute; reflexivity. Qed.

Lemma parse_qa_without_summary_witness :
  parse_analysis ex_qa_only =
    Returns (Analysis (Py.strip ex_qa_only)
               [QA (text "Why?") (text "Because.") (text "cats")]) /\
  Py.find (Py.strip ex_qa_only) qa_marker <> (-1)%Z /\
  Py.strip (Py.slice_from ex_qa_only
              (Py.find ex_qa_only qa_marker + Z.of_nat (length qa_marker))%Z)
    `suffix_of` Py.strip ex_qa_only.
Proof.
  destruct (parse_qa_without_summary ex_qa_only)
    as (ms & entries & Hp & _ & _ & Hf & Hs & Hts);
    [vm_compute; reflexivity | vm_compute; lia |].
  rewrite (Hts (text "Notes." ++ [newline]) [newline] [ex_triple2]) in Hp
    by (vm_compute; reflexivity).
  split; [exact Hp|]. split; [exact Hf | exact Hs].
Defined.

(** * The claims about the batch loop *)

Section BatchClaims.

Context {W : Type} (C : collaborators W).
#[local] Opaque text.




(** The batch around one item whose outcome is known. *)
Lemma run_batch_around fuel pre d post i0 out_pre i1 d' i2 :
  run_batch C fuel pre i0 = (Returns out_pre, i1) ->
  item_result C fuel d i1 = (Returns (Some d'), i2) ->
  run_batch C fuel (pre ++ d :: post) i0 =
  (let '(o, i5) := run_batch C fuel post i2 in
   (outs <- o ;; Returns (out_pre ++ d' :: outs), i5)).
Proof.
  rewrite !run_batch_batch. intros Hpre Hitem.
  rewrite batch_app. unfold bind at 1. rewrite Hpre.
  cbn [batch]. unfold bind, ret. rewrite Hitem.
  by destruct (batch C fuel post i2) as [[outs|e|] i5].
Qed.



(** C9. Descriptors without a truthy [url] leave no mark: the run is the
    run of the batch without them. The output is the descriptors that have
    a URL, in order, each changed under the key [analysis] only. *)
Theorem descriptor_without_url_absent (fuel : nat) (ds : list dict)
    (i : io_state) :
  run_batch C fuel ds i =
  run_batch C fuel (filter (fun d => has_url d = true) ds) i /\
  forall out i',
    run_batch C fuel ds i = (Returns out, i') ->
    Forall2
      (fun d o =>
         (exists v, o = dict_set d (text "analysis") v) /\
         forall key, key <> text "analysis" ->
                     dict_lookup o key = dict_lookup d key)
      (filter (fun d => has_url d = true) ds) out.
Proof.
  rewrite !run_batch_batch. split; [apply batch_filter|].
  intros out i' H. apply batch_annotates in H.
  eapply Forall2_impl; [exact H|].
  intros d o (v & ->). split; [by eexists|].
  intros key Hkey. apply dict_lookup_set_ne. congruence.
Qed.

End BatchClaims.

(** ** Witnesses for the batch loop *)





Lemma descriptor_without_url_absent_witness :
  Forall2
    (fun d o =>
       (exists v, o = dict_set d (text "analysis") v) /\
       forall key, key <> text "analysis" ->
                   dict_lookup o key = dict_lookup d key)
    (filter (fun d => has_url d = true) [ex_nourl; ex_fail; ex_d1])
    ex_out_mixed.
Proof.
  apply (proj2 (descriptor_without_url_absent demo 3
                  [ex_nourl; ex_fail; ex_d1] ex_i0) ex_out_mixed ex_i_mixed).
  vm_compute. reflexivity.
Defined.

(** * Further properties of the response parser *)

Section ParserMore.
Import Py.
Local Arguments Ascii.eqb : simpl never.

Lemma collect_trimmed : forall ms q,
  collect ms = Returns q ->
  Forall (fun e => strip (question e) = question e /\
                   strip (answer e) = answer e /\
                   strip (context e) = context e) q.
Proof.
  induction ms as [|t ms IH]; intros q H.
  - inversion H. constructor.
  - cbn [collect] in H.
    destruct (unpack3 t) as [[[x y] z]|e|]; cbn [obind] in H; [|done|done].
    destruct (collect ms) as [qs|e|]; cbn [obind] in H; [|done|done].
    inversion H; subst. constructor; [|by apply IH].
    cbn [question answer context]. by rewrite !strip_idemp.
Qed.

(** An occurrence in a part of a text is an occurrence in the text. *)
Lemma absent_infix sub a t b :
  (forall n, startswith sub (drop n (a ++ t ++ b)) = false) ->
  forall n, startswith sub (drop n t) = false.
Proof.
  intros H n. destruct (startswith sub (drop n t)) eqn:E; [|done].
  destruct (decide (n <= length t)) as [Hn|Hn].
  - specialize (H (length a + n)).
    rewrite <- drop_drop, drop_app_length, drop_app_le in H by done.
    by rewrite (startswith_app_r _ _ b E) in H.
  - rewrite drop_ge in E by lia. destruct sub; [|done].
    by specialize (H 0).
Qed.

Lemma absent_strip sub s :
  (forall n, startswith sub (drop n s) = false) ->
  forall n, startswith sub (drop n (strip s)) = false.
Proof.
  intros H. unfold strip.
  destruct (lstrip_split s) as (w1 & Hs & _).
  destruct (rstrip_split (lstrip s)) as (w2 & Hr & _).
  apply (absent_infix sub w1 _ w2). by rewrite <- Hr, <- Hs.
Qed.

Lemma search_no_header : forall s (adv : bool),
  (forall n, startswith (text "**Question") (drop n s) = false) ->
  Re.search qa_pattern adv s = None.
Proof.
  induction s as [|a s IH]; intros adv H; cbn [Re.search];
    rewrite match_at_no_header by apply (H 0); [done|].
  apply IH. intros n. apply (H (S n)).
Qed.

(** X1. Whatever the text, the summary and the three fields of every
    entry come back without blanks at either end. *)
Theorem parse_fields_trimmed (analysis_text : str) :
  exists a, parse_analysis analysis_text = Returns a /\
    strip (summary a) = summary a /\
    Forall (fun e => strip (question e) = question e /\
                     strip (answer e) = answer e /\
                     strip (context e) = context e) (qa a).
Proof.
  unfold parse_analysis. cbv zeta.
  set (t := replace analysis_text alias_marker summary_marker).
  destruct (negb (find t qa_marker =? -1)%Z) eqn:Eq.
  - destruct (findall_collect_returns
                (strip (slice_from t
                          (find t qa_marker + Z.of_nat (length qa_marker))%Z)))
      as (ms & q & -> & Hq).
    cbn [obind]. rewrite Hq. cbn [obind]. eexists. split; [done|].
    split; [|by apply (collect_trimmed ms)].
    cbn [summary].
    destruct (negb (find t summary_marker =? -1)%Z); apply strip_idemp.
  - cbn [obind]. eexists. split; [done|]. split; [|constructor].
    cbn [summary].
    destruct (negb (find t summary_marker =? -1)%Z); apply strip_idemp.
Qed.

(** X2. A Summary marker and no Q&A marker: the summary is the trimmed
    text after the first Summary marker, what precedes the marker is
    dropped, and there is no entry. *)
Theorem parse_summary_only (pre S : str) :
  let input := pre ++ summary_marker ++ S in
  find input alias_marker = (-1)%Z ->
  free_of pre summary_marker = true ->
  find input qa_marker = (-1)%Z ->
  parse_analysis input = Returns (Analysis (strip S) []).
Proof.
  intros input Halias Hs Hq. unfold parse_analysis. cbv zeta.
  rewrite replace_absent by done. rewrite Hq.
  unfold input in *. rewrite find_sentinel_app by done.
  replace (Z.of_nat (length pre) =? -1)%Z with false
    by (symmetry; apply Z.eqb_neq; lia).
  cbn [negb Z.eqb obind].
  replace (Z.of_nat (length pre) + Z.of_nat (length summary_marker))%Z
    with (Z.of_nat (length (pre ++ summary_marker)))
    by (rewrite length_app; lia).
  by rewrite app_assoc, slice_from_app.
Qed.

(** The entries depend on the text from the Q&A marker on only. *)
Lemma entries_after_marker pre seg :
  find (pre ++ qa_marker ++ seg) alias_marker = (-1)%Z ->
  free_of pre qa_marker = true ->
  exists entries,
    parse_analysis (pre ++ qa_marker ++ seg) =
      Returns (Analysis (summary_part (pre ++ qa_marker ++ seg)) entries) /\
    parse_analysis (qa_marker ++ seg) =
      Returns (Analysis (summary_part (qa_marker ++ seg)) entries).
Proof.
  intros Halias Hq.
  destruct (findall_collect_returns (strip seg)) as (ms & q & Hms & Hc).
  exists q. split.
  - rewrite parse_shape by done. rewrite Hms. cbn [obind]. by rewrite Hc.
  - assert (find (qa_marker ++ seg) alias_marker = (-1)%Z) as Halias'.
    { apply find_absent. apply (absent_infix alias_marker pre _ []).
      rewrite app_nil_r. by apply find_absent. }
    pose proof (parse_shape [] seg Halias' eq_refl) as Hp.
    cbn [app] in Hp. rewrite Hp, Hms. cbn [obind]. by rewrite Hc.
Qed.

(** X3. In a text without the alias heading that holds both markers, the
    Summary marker first: the summary is the trimmed text between the
    first Summary marker and the first Q&A marker, whatever precedes the
    one and follows the other; the entries are those of the text from the
    Q&A marker on, taken alone. *)
Theorem parse_summary_between (pre S seg : str) :
  let input := pre ++ summary_marker ++ S ++ qa_marker ++ seg in
  find input alias_marker = (-1)%Z ->
  free_of pre summary_marker = true ->
  free_of (pre ++ summary_marker ++ S) qa_marker = true ->
  exists (entries : list qa_entry) (s' : str),
    parse_analysis input = Returns (Analysis (strip S) entries) /\
    parse_analysis (qa_marker ++ seg) = Returns (Analysis s' entries).
Proof.
  intros input Halias Hs Hq.
  assert (input = (pre ++ summary_marker ++ S) ++ qa_marker ++ seg) as Hin
    by (unfold input; by rewrite <- !app_assoc).
  rewrite Hin in *.
  destruct (entries_after_marker _ seg Halias Hq) as (q & Hp & Hp').
  exists q. eexists. split; [|exact Hp'].
  rewrite Hp. do 2 f_equal.
  unfold summary_part. cbv zeta.
  rewrite (find_sentinel_app (pre ++ summary_marker ++ S)) by done.
  rewrite <- Hin. unfold input. rewrite find_sentinel_app by done.
  replace (Z.of_nat (length pre) =? -1)%Z with false
    by (symmetry; apply Z.eqb_neq; lia).
  replace (Z.of_nat (length (pre ++ summary_marker ++ S)) =? -1)%Z with false
    by (symmetry; apply Z.eqb_neq; lia).
  cbn [negb]. f_equal.
  replace (Z.of_nat (length pre) + Z.of_nat (length summary_marker))%Z
    with (Z.of_nat (length (pre ++ summary_marker)))
    by (rewrite length_app; lia).
  replace (length (pre ++ summary_marker ++ S))
    with (length (pre ++ summary_marker) + length S)
    by (rewrite !length_app; lia).
  rewrite (app_assoc pre summary_marker). apply slice_middle.
Qed.

(** X4. In a text without the alias heading that holds both markers, the
    Q&A marker first: the slice between the end of the Summary marker and
    the Q&A marker is empty, so the summary is the empty string; the
    entries are still those of the text from the Q&A marker on, taken
    alone, Summary marker included. *)
Theorem parse_qa_before_summary (pre mid post : str) :
  let input := pre ++ qa_marker ++ mid ++ summary_marker ++ post in
  find input alias_marker = (-1)%Z ->
  free_of pre qa_marker = true ->
  free_of (pre ++ qa_marker ++ mid) summary_marker = true ->
  exists (entries : list qa_entry) (s' : str),
    parse_analysis input = Returns (Analysis [] entries) /\
    parse_analysis (qa_marker ++ mid ++ summary_marker ++ post)
      = Returns (Analysis s' entries).
Proof.
  intros input Halias Hq Hs. unfold input in *.
  destruct (entries_after_marker _ _ Halias Hq) as (q & Hp & Hp').
  exists q. eexists. split; [|exact Hp'].
  rewrite Hp. do 2 f_equal.
  unfold summary_part. cbv zeta.
  rewrite (find_sentinel_app pre qa_marker) by done.
  assert (pre ++ qa_marker ++ mid ++ summary_marker ++ post =
          (pre ++ qa_marker ++ mid) ++ summary_marker ++ post) as Hin
    by (by rewrite <- !app_assoc).
  rewrite Hin. rewrite find_sentinel_app by done.
  replace (Z.of_nat (length pre) =? -1)%Z with false
    by (symmetry; apply Z.eqb_neq; lia).
  replace (Z.of_nat (length (pre ++ qa_marker ++ mid)) =? -1)%Z with false
    by (symmetry; apply Z.eqb_neq; lia).
  cbn [negb].
  replace (Z.of_nat (length (pre ++ qa_marker ++ mid))
           + Z.of_nat (length summary_marker))%Z
    with (Z.of_nat (length (pre ++ qa_marker ++ mid) + length summary_marker))
    by lia.
  unfold slice. rewrite !clamp_nat by (rewrite !length_app; lia).
  replace (length pre - (length (pre ++ qa_marker ++ mid)
                         + length summary_marker)) with 0
    by (rewrite !length_app; lia).
  by rewrite take_0.
Qed.

(** X5. In a text without the alias heading, no question header after
    the Q&A marker: no entry, whatever else the text after the marker
    holds. *)
Theorem parse_no_question_header (pre seg : str) :
  let input := pre ++ qa_marker ++ seg in
  find input alias_marker = (-1)%Z ->
  free_of pre qa_marker = true ->
  find seg (text "**Question") = (-1)%Z ->
  exists s, parse_analysis input = Returns (Analysis s []).
Proof.
  intros input Halias Hq H. unfold input in *.
  rewrite parse_shape by done.
  rewrite findall_none; [by eexists|].
  apply search_no_header, absent_strip. by apply find_absent.
Qed.

End ParserMore.

Lemma parse_summary_only_witness :
  parse_analysis
    (text "Here is the result. " ++ summary_marker ++ text " A cat naps.  ") =
  Returns (Analysis (text "A cat naps.") []).
Proof.
  apply (parse_summary_only (text "Here is the result. ")
           (text " A cat naps.  "));
    vm_compute; reflexivity.
Defined.

Lemma parse_summary_between_witness :
  exists (entries : list qa_entry) (s' : str),
    parse_analysis
      (text "Sure!" ++ [newline] ++ summary_marker ++ ex_summary ++ qa_marker
         ++ [newline] ++ render ex_triple2) =
    Returns (Analysis (Py.strip ex_summary) entries) /\
    parse_analysis (qa_marker ++ [newline] ++ render ex_triple2)
      = Returns (Analysis s' entries).
Proof.
  apply (parse_summary_between (text "Sure!" ++ [newline]) ex_summary
           ([newline] ++ render ex_triple2));
    vm_compute; reflexivity.
Defined.

Lemma parse_qa_before_summary_witness :
  exists (entries : list qa_entry) (s' : str),
    parse_analysis
      (qa_marker ++ ([newline] ++ render ex_triple2 ++ [newline])
         ++ summary_marker ++ text " A cat video.") =
    Returns (Analysis [] entries) /\
    parse_analysis
      (qa_marker ++ ([newline] ++ render ex_triple2 ++ [newline])
         ++ summary_marker ++ text " A cat video.")
      = Returns (Analysis s' entries).
Proof.
  apply (parse_qa_before_summary [] ([newline] ++ render ex_triple2 ++ [newline])
           (text " A cat video."));
    vm_compute; reflexivity.
Defined.

Lemma parse_no_question_header_witness :
  exists s,
    parse_analysis
      (text "Notes. " ++ qa_marker
         ++ text " **Q1:** Why? **Answer:** So. **Context:** cats") =
    Returns (Analysis s []).
Proof.
  apply (parse_no_question_header (text "Notes. ")
           (text " **Q1:** Why? **Answer:** So. **Context:** cats"));
    vm_compute; reflexivity.
Defined.

(** * The acquisition of a video *)

Section Download.

Context {W : Type} (C : collaborators W).
#[local] Opaque text.

Lemma endswith_path_join a b suffix :
  endswith b suffix = true -> endswith (path_join a b) suffix = true.
Proof.
  intros H. unfold path_join.
  destruct (head_is (Ascii.eqb "/") b); [done|].
  unfold endswith in *.
  destruct (is_nil_str a || head_is (Ascii.eqb "/") (rev a));
    rewrite ?app_assoc, rev_app_distr; by apply startswith_app_r.
Qed.

Lemma first_mp4_shape temp_dir : forall names p,
  first_mp4 temp_dir names = Some p ->
  endswith p (text ".mp4") = true.
Proof.
  induction names as [|n names IH]; intros p H; [done|].
  cbn [first_mp4] in H.
  destruct (endswith n (text ".mp4")) eqn:E; [|by apply IH].
  inversion H. by apply endswith_path_join.
Qed.

Lemma first_mp4_app temp_dir name others : forall skipped,
  Forall (fun n => endswith n (text ".mp4") = false) skipped ->
  endswith name (text ".mp4") = true ->
  first_mp4 temp_dir (skipped ++ name :: others) =
  Some (path_join temp_dir name).
Proof.
  induction 1 as [|n skipped Hn _ IH]; intros Hname; cbn [app first_mp4].
  - by rewrite Hname.
  - rewrite Hn. by apply IH.
Qed.

(** X6. When [mkdtemp], yt-dlp or the listing of the directory raises,
    and the message about it (line 42) can be printed, the acquisition
    returns [None] after that call: the exception is caught. The same
    holds when the first message (line 26) cannot be printed. *)
Theorem download_failure_gives_none (url : json) (w : W) (tr : list event)
    (e : str) :
  c_print C (msg_download_error url e) = Returns tt ->
  (c_print C (msg_downloading url) = Raises e ->
   download_youtube_video C url (w, tr) = (Returns None, (w, tr))) /\
  (c_print C (msg_downloading url) = Returns tt ->
   (forall w1,
      c_mkdtemp C w = (Raises e, w1) ->
      download_youtube_video C url (w, tr) =
      (Returns None, (w1, tr ++ [EvMkdtemp]))) /\
   (forall temp_dir w1 w2,
      let output_template := path_join temp_dir (text "%(id)s.%(ext)s") in
      c_mkdtemp C w = (Returns temp_dir, w1) ->
      c_run C output_template url w1 = (Raises e, w2) ->
      download_youtube_video C url (w, tr) =
      (Returns None, (w2, tr ++ [EvMkdtemp; EvRun output_template url]))) /\
   (forall temp_dir w1 w2 w3,
      let output_template := path_join temp_dir (text "%(id)s.%(ext)s") in
      c_mkdtemp C w = (Returns temp_dir, w1) ->
      c_run C output_template url w1 = (Returns tt, w2) ->
      c_listdir C temp_dir w2 = (Raises e, w3) ->
      download_youtube_video C url (w, tr) =
      (Returns None,
       (w3, tr ++ [EvMkdtemp; EvRun output_template url;
                   EvListdir temp_dir])))).
Proof.
  intros He.
  unfold download_youtube_video, try_except, bind, ret, print, mkdtemp,
    subprocess_run, listdir, call.
  cbn [fst snd]. split; [intros ->; by rewrite He|].
  intros ->. split; [|split].
  - intros w1 ->. cbn [fst snd]. by rewrite He.
  - intros temp_dir w1 w2 -> Hr. cbn [fst snd]. rewrite Hr.
    cbn [fst snd]. by rewrite He, <- app_assoc.
  - intros temp_dir w1 w2 w3 -> Hr Hl. cbn [fst snd].
    rewrite Hr. cbn [fst snd]. rewrite Hl. cbn [fst snd].
    by rewrite He, <- !app_assoc.
Qed.

Lemma download_gives_mp4 (url : json) (i i' : io_state) (p : str) :
  download_youtube_video C url i = (Returns (Some p), i') ->
  endswith p (text ".mp4") = true /\ falsy_path (Some p) = false.
Proof.
  intros H.
  assert (endswith p (text ".mp4") = true) as Hp.
  { revert H.
    unfold download_youtube_video, try_except, bind, ret, print, mkdtemp,
      subprocess_run, listdir, call.
    destruct i as [w tr]. cbn [fst snd].
    destruct (c_print C (msg_downloading url)) as [[]|?|]; cbn [fst snd];
      [|by next_world|done].
    destruct (c_mkdtemp C w) as [[dir|?|] w1]; cbn [fst snd];
      [|by next_world|done].
    destruct (c_run C _ url w1) as [[[]|?|] w2]; cbn [fst snd];
      [|by next_world|done].
    destruct (c_listdir C dir w2) as [[names|?|] w3]; cbn [fst snd];
      [|by next_world|done].
    destruct (first_mp4 dir names) as [q|] eqn:Eq; [|done].
    cbn [fst snd].
    destruct (c_print C (msg_downloaded q)) as [[]|?|]; cbn [fst snd];
      [|by next_world|done].
    intros [= <- _]. by apply (first_mp4_shape dir names). }
  split; [done|]. by destruct p.
Qed.

(** X7. A path that [download_youtube_video] returns ends in [.mp4] and is
    not empty: the test [not video_file_path] in [main] holds for [None]
    only. *)
Theorem download_path_shape (url : json) (i i' : io_state) (p : str) :
  download_youtube_video C url i = (Returns (Some p), i') ->
  endswith p (text ".mp4") = true /\ falsy_path (Some p) = false.
Proof. apply download_gives_mp4. Qed.

(** X8. The file returned is the first name of the listing that ends in
    [.mp4], joined to the temporary directory; the names before it are
    passed over. The messages of lines 26 and 37 are printed on the
    way. *)
Theorem download_first_mp4 (url : json) (w w1 w2 w3 : W) (tr : list event)
    (temp_dir name : str) (skipped others : list str) :
  c_print C (msg_downloading url) = Returns tt ->
  c_mkdtemp C w = (Returns temp_dir, w1) ->
  c_run C (path_join temp_dir (text "%(id)s.%(ext)s")) url w1
    = (Returns tt, w2) ->
  c_listdir C temp_dir w2 = (Returns (skipped ++ name :: others), w3) ->
  forallb (fun n => negb (endswith n (text ".mp4"))) skipped = true ->
  endswith name (text ".mp4") = true ->
  c_print C (msg_downloaded (path_join temp_dir name)) = Returns tt ->
  download_youtube_video C url (w, tr) =
  (Returns (Some (path_join temp_dir name)),
   (w3, tr ++ [EvMkdtemp;
               EvRun (path_join temp_dir (text "%(id)s.%(ext)s")) url;
               EvListdir temp_dir])).
Proof.
  intros Hp Hm Hr Hl Hs Hn Hq.
  unfold download_youtube_video, try_except, bind, ret, print, mkdtemp,
    subprocess_run, listdir, call.
  cbn [fst snd]. rewrite Hp, Hm. cbn [fst snd]. rewrite Hr. cbn [fst snd].
  rewrite Hl. cbn [fst snd].
  rewrite first_mp4_app; [by rewrite Hq, <- !app_assoc | | done].
  apply Forall_forall. intros n Hin. rewrite forallb_forall in Hs.
  apply negb_true_iff, Hs. by apply list_elem_of_In.
Qed.

(** X9. The calls of one acquisition: none if the first message (line
    26) cannot be printed; otherwise [mkdtemp]; if it returns, yt-dlp
    with the output template in the new directory and the URL as given;
    if that returns, the listing of the directory. Nothing is removed:
    the temporary directory stays. *)
Theorem download_calls (url : json) (i : io_state) :
  exists evs : list event,
    snd (snd (download_youtube_video C url i)) = snd i ++ evs /\
    forallb (fun ev => negb (is_remove ev)) evs = true /\
    ((evs = [] /\ c_print C (msg_downloading url) <> Returns tt) \/
     (evs = [EvMkdtemp] /\
      forall d w1, c_mkdtemp C (fst i) <> (Returns d, w1)) \/
     exists (temp_dir : str) (w1 : W),
       let output_template := path_join temp_dir (text "%(id)s.%(ext)s") in
       c_mkdtemp C (fst i) = (Returns temp_dir, w1) /\
       ((evs = [EvMkdtemp; EvRun output_template url] /\
         forall w2, c_run C output_template url w1 <> (Returns tt, w2)) \/
        (evs = [EvMkdtemp; EvRun output_template url; EvListdir temp_dir] /\
         exists w2, c_run C output_template url w1 = (Returns tt, w2)))).
Proof.
  unfold download_youtube_video, try_except, bind, ret, print, mkdtemp,
    subprocess_run, listdir, call.
  destruct i as [w tr]. cbn [fst snd].
  destruct (c_print C (msg_downloading url)) as [[]|e'|]; cbn [fst snd].
  2,3: repeat (next_world; cbn [fst snd]); exists [];
       (split; [by rewrite app_nil_r|]); (split; [done|]); by left.
  destruct (c_mkdtemp C w) as [[dir|e'|] w1]; cbn [fst snd].
  2,3: repeat (next_world; cbn [fst snd]); exists [EvMkdtemp];
       (split; [done|]); (split; [done|]); right; by left.
  destruct (c_run C _ url w1) as [[[]|e'|] w2] eqn:Er; cbn [fst snd].
  2,3: repeat (next_world; cbn [fst snd]); eexists [_; _];
       (split; [by rewrite <- app_assoc|]); (split; [done|]);
       right; right; exists dir, w1; (split; [done|]); left;
       (split; [done|]); intros w2'; by rewrite Er.
  destruct (c_listdir C dir w2) as [[names|e'|] w3]; cbn [fst snd];
    repeat (next_world; cbn [fst snd]); eexists [_; _; _];
    (split; [by rewrite <- !app_assoc|]); (split; [done|]);
    right; right; exists dir, w1; (split; [done|]); right;
    (split; [done|]); by exists w2.
Qed.

End Download.

Lemma download_path_shape_witness :
  endswith ex_path (text ".mp4") = true /\ falsy_path (Some ex_path) = false.
Proof.
  apply (download_path_shape demo (dict_get ex_d2 (text "url")) ex_i1 ex_i2).
  vm_compute. reflexivity.
Defined.

Lemma download_first_mp4_witness :
  download_youtube_video demo (JStr (text "https://example.com/a")) (0, []) =
  (Returns (Some (path_join (text "/tmp/d") (text "abc.mp4"))),
   (0, [] ++ [EvMkdtemp;
              EvRun (path_join (text "/tmp/d") (text "%(id)s.%(ext)s"))
                (JStr (text "https://example.com/a"));
              EvListdir (text "/tmp/d")])).
Proof.
  apply (download_first_mp4 demo (JStr (text "https://example.com/a"))
           0 0 0 0 [] (text "/tmp/d") (text "abc.mp4") [text "notes.txt"] []);
    vm_compute; reflexivity.
Defined.

Lemma download_failure_gives_none_witness :
  download_youtube_video demo (JStr (text "https://example.com/v1")) (0, []) =
  (Returns None,
   (0, [] ++ [EvMkdtemp;
              EvRun (path_join (text "/tmp/d") (text "%(id)s.%(ext)s"))
                (JStr (text "https://example.com/v1"))])).
Proof.
  refine (proj1 (proj2 (proj2
            (download_failure_gives_none demo
               (JStr (text "https://example.com/v1")) 0 []
               (text "yt-dlp failed") _) _))
            (text "/tmp/d") 0 0 _ _);
    vm_compute; reflexivity.
Defined.

(** * The processing of a downloaded video *)

Section Process.

Context {W : Type} (C : collaborators W).
#[local] Opaque text.

(** The wait: one [sleep] and one [get_file] for each handle seen in state
    PROCESSING, the first being the handle the wait starts with; a handle
    that comes out of the wait is in another state. *)
Lemma poll_spec : forall fuel h i o i',
  poll C fuel h i = (o, i') ->
  exists hs,
    snd i' = snd i ++ poll_calls (map fh_name hs) /\
    Forall (fun h' => fh_state h' = text "PROCESSING") hs /\
    (hs = [] \/ exists hs', hs = h :: hs') /\
    forall h', o = Returns h' -> fh_state h' <> text "PROCESSING".
Proof.
  induction fuel as [|fuel IH]; intros h i o i' H; cbn [poll] in H;
    destruct (str_eqb (fh_state h) (text "PROCESSING")) eqn:E.
  - inversion H; subst. exists []. rewrite app_nil_r.
    split; [done|]. split; [constructor|]. split; [by left | done].
  - inversion H; subst. exists []. rewrite app_nil_r.
    split; [done|]. split; [constructor|]. split; [by left|].
    intros h' [= <-] Hs. rewrite Hs, str_eqb_refl in E. done.
  - apply str_eqb_eq in E.
    unfold bind, sleep, get_file, call in H. cbn [fst snd] in H.
    destruct (c_get_file C (fh_name h) (fst i)) as [[h1|e|] w1] eqn:Eg.
    + apply IH in H as (hs & Htr & Hall & Hhd & Hret). cbn [snd] in Htr.
      exists (h :: hs). split; [|split; [by constructor|split; [|done]]].
      * rewrite Htr. cbn [map poll_calls flat_map app].
        by rewrite <- !app_assoc.
      * right. by eexists.
    + inversion H; subst. exists [h]. cbn [snd].
      split; [by rewrite <- app_assoc|].
      split; [by repeat constructor|]. split; [right; by exists []|done].
    + inversion H; subst. exists [h]. cbn [snd].
      split; [by rewrite <- app_assoc|].
      split; [by repeat constructor|]. split; [right; by exists []|done].
  - inversion H; subst. exists []. rewrite app_nil_r.
    split; [done|]. split; [constructor|]. split; [by left|].
    intros h' [= <-] Hs. rewrite Hs, str_eqb_refl in E. done.
Qed.

Lemma process_video_trace (fuel : nat) (video_file_path : str)
    (i i' : io_state) (o : outcome analysis) :
  process_video C fuel video_file_path i = (o, i') ->
  (c_print C (msg_processing_file video_file_path) <> Returns tt /\
   i' = i /\ forall a, o <> Returns a) \/
  (c_print C (msg_processing_file video_file_path) = Returns tt /\
   exists (hs : list file_handle) (tail : list event),
     snd i' = snd i ++ EvUpload video_file_path
                :: poll_calls (map fh_name hs) ++ tail /\
     Forall (fun h => fh_state h = text "PROCESSING") hs /\
     (forall h0 w1,
         c_upload_file C video_file_path (fst i) = (Returns h0, w1) ->
         hs = [] \/ exists hs', hs = h0 :: hs') /\
     (tail = [] \/
      exists h, tail = [EvAgentRun h] /\ fh_state h <> text "PROCESSING") /\
     forall a, o = Returns a -> tail <> []).
Proof.
  unfold process_video, bind, print, upload_file, agent_run, call, of_outcome.
  destruct i as [w tr]. cbn [fst snd].
  destruct (c_print C (msg_processing_file video_file_path)) as [[]|e|].
  2,3: intros [= <- <-]; left; by repeat split.
  intros H. right. split; [done|]. revert H.
  destruct (c_upload_file C video_file_path w) as [[h0|e|] w1].
  2,3: intros [= <- <-]; exists [], []; cbn [snd map poll_calls flat_map app];
       split; [done|]; split; [constructor|]; split; [by intros ? ? [=]|];
       split; [by left | done].
  destruct (poll C fuel h0 (w1, tr ++ [EvUpload video_file_path]))
    as [[h|e|] i2] eqn:Ep;
    apply poll_spec in Ep as (hs & Htr & Hall & Hhd & Hret); cbn [snd] in Htr.
  2,3: intros [= <- <-]; exists hs, []; rewrite Htr, app_nil_r, <- app_assoc;
       split; [done|]; split; [done|]; split; [by intros ? ? [= <- _]|];
       split; [by left | done].
  destruct i2 as [w2 tr2]. cbn [fst snd] in *.
  destruct (c_agent_run C h w2) as [r w3]. intros H.
  assert (i' = (w3, tr2 ++ [EvAgentRun h])) as ->.
  { destruct r as [content|?|]; [next_call_in H|..]; by inversion H. }
  exists hs, [EvAgentRun h]. cbn [snd]. rewrite Htr, <- !app_assoc.
  split; [done|]. split; [done|]. split; [by intros ? ? [= <- _]|].
  split; [|done]. right. exists h. split; [done|]. by apply Hret.
Qed.

(** The calls of [process_video] remove nothing. *)
Lemma process_video_no_remove (fuel : nat) (video_file_path : str)
    (i i' : io_state) (o : outcome analysis) :
  process_video C fuel video_file_path i = (o, i') ->
  exists evs, snd i' = snd i ++ evs /\
              forallb (fun ev => negb (is_remove ev)) evs = true.
Proof.
  intros H. apply process_video_trace in H
    as [(_ & -> & _) | (_ & hs & tail & Htr & _ & _ & Htail & _)].
  - exists []. by rewrite app_nil_r.
  - eexists. split; [exact Htr|].
    cbn [forallb is_remove negb andb]. rewrite forallb_app.
    assert (forall names,
              forallb (fun ev => negb (is_remove ev)) (poll_calls names) = true)
      as -> by (induction names as [|n names IH]; [done|]; by cbn).
    by destruct Htail as [-> | (h & -> & _)].
Qed.

(** X10. The calls of [process_video]: none if its first message (line
    98) cannot be printed; otherwise one upload of the file, then a
    [sleep] and a [get_file] for each handle seen in state PROCESSING,
    starting with the uploaded one, then at most one run of the agent, on
    a handle that is no longer in that state. A result comes only after
    the agent has run. *)
Theorem process_video_calls (fuel : nat) (video_file_path : str)
    (i i' : io_state) (o : outcome analysis) :
  process_video C fuel video_file_path i = (o, i') ->
  (c_print C (msg_processing_file video_file_path) <> Returns tt /\
   i' = i /\ forall a, o <> Returns a) \/
  (c_print C (msg_processing_file video_file_path) = Returns tt /\
   exists (hs : list file_handle) (tail : list event),
     snd i' = snd i ++ EvUpload video_file_path
                :: poll_calls (map fh_name hs) ++ tail /\
     Forall (fun h => fh_state h = text "PROCESSING") hs /\
     (forall h0 w1,
         c_upload_file C video_file_path (fst i) = (Returns h0, w1) ->
         hs = [] \/ exists hs', hs = h0 :: hs') /\
     (tail = [] \/
      exists h, tail = [EvAgentRun h] /\ fh_state h <> text "PROCESSING") /\
     forall a, o = Returns a -> tail <> []).
Proof. apply process_video_trace. Qed.

(** X11. The wait has no limit of its own: while the service keeps
    answering PROCESSING, [process_video] gives no result, whatever the
    budget, and every unit of budget is spent on one more [sleep] and
    [get_file]. The first message (line 98) is printed before. *)
Theorem process_video_waits_forever (video_file_path : str) (i : io_state)
    (h0 : file_handle) (w1 : W) :
  c_print C (msg_processing_file video_file_path) = Returns tt ->
  c_upload_file C video_file_path (fst i) = (Returns h0, w1) ->
  fh_state h0 = text "PROCESSING" ->
  (forall name w, exists h w',
      c_get_file C name w = (Returns h, w') /\
      fh_state h = text "PROCESSING") ->
  forall fuel, exists names,
    fst (process_video C fuel video_file_path i) = Diverges /\
    snd (snd (process_video C fuel video_file_path i)) =
      snd i ++ EvUpload video_file_path :: poll_calls names /\
    length names = fuel.
Proof.
  intros Hp Hu Hs Hg fuel.
  assert (forall fuel h j, fh_state h = text "PROCESSING" ->
            exists names,
              fst (poll C fuel h j) = Diverges /\
              snd (snd (poll C fuel h j)) = snd j ++ poll_calls names /\
              length names = fuel) as Hpoll.
  { clear Hu Hs fuel. intros fuel. induction fuel as [|fuel IH]; intros h j Hh;
      cbn [poll]; rewrite Hh, str_eqb_refl.
    - exists []. by rewrite app_nil_r.
    - unfold bind, sleep, get_file, call. cbn [fst snd].
      destruct (Hg (fh_name h) (fst j)) as (h1 & w' & -> & Hh1).
      destruct (IH h1 (w', (snd j ++ [EvSleep]) ++ [EvGetFile (fh_name h)]) Hh1)
        as (names & Ho & Htr & Hlen).
      exists (fh_name h :: names). split; [done|]. split; [|simpl; lia].
      rewrite Htr. cbn [snd poll_calls flat_map app].
      by rewrite <- !app_assoc. }
  unfold process_video, bind, print, upload_file, call.
  destruct i as [w tr]. cbn [fst snd] in *. rewrite Hp, Hu.
  destruct (Hpoll fuel h0 (w1, tr ++ [EvUpload video_file_path]) Hs)
    as (names & Ho & Htr & Hlen).
  exists names.
  destruct (poll C fuel h0 (w1, tr ++ [EvUpload video_file_path]))
    as [o i2]. cbn [fst snd] in *. subst o.
  split; [done|]. split; [|done]. cbn [snd]. by rewrite Htr, <- app_assoc.
Qed.

End Process.

Lemma process_video_calls_witness :
  (c_print demo (msg_processing_file ex_path) <> Returns tt /\
   snd (process_video demo 3 ex_path ex_i0) = ex_i0 /\
   forall a, fst (process_video demo 3 ex_path ex_i0) <> Returns a) \/
  (c_print demo (msg_processing_file ex_path) = Returns tt /\
   exists (hs : list file_handle) (tail : list event),
     snd (snd (process_video demo 3 ex_path ex_i0)) =
       snd ex_i0 ++ EvUpload ex_path :: poll_calls (map fh_name hs) ++ tail /\
     Forall (fun h => fh_state h = text "PROCESSING") hs /\
     (forall h0 w1,
         c_upload_file demo ex_path (fst ex_i0) = (Returns h0, w1) ->
         hs = [] \/ exists hs', hs = h0 :: hs') /\
     (tail = [] \/
      exists h, tail = [EvAgentRun h] /\ fh_state h <> text "PROCESSING") /\
     forall a, fst (process_video demo 3 ex_path ex_i0) = Returns a ->
               tail <> []).
Proof.
  apply (process_video_calls demo 3 ex_path ex_i0
           (snd (process_video demo 3 ex_path ex_i0))
           (fst (process_video demo 3 ex_path ex_i0))).
  vm_compute. reflexivity.
Defined.

Lemma process_video_waits_forever_witness :
  exists names,
    fst (process_video stuck 4 ex_path ex_i0) = Diverges /\
    snd (snd (process_video stuck 4 ex_path ex_i0)) =
      snd ex_i0 ++ EvUpload ex_path :: poll_calls names /\
    length names = 4.
Proof.
  apply (process_video_waits_forever stuck ex_path ex_i0
           (Handle (text "files/x") (text "PROCESSING")) 0).
  - reflexivity.
  - reflexivity.
  - reflexivity.
  - intros name w. eexists _, _. split; reflexivity.
Defined.

(** * Further properties of the loop of [main] *)

Section BatchMore.

Context {W : Type} (C : collaborators W).
#[local] Opaque text.

Lemma download_raises url i e i' :
  download_youtube_video C url i = (Raises e, i') ->
  exists e0, c_print C (msg_download_error url e0) = Raises e.
Proof.
  unfold download_youtube_video, try_except, bind, ret, print, mkdtemp,
    subprocess_run, listdir, call.
  destruct i as [w tr]. cbn [fst snd].
  destruct (c_print C (msg_downloading url)) as [[]|e0|]; cbn [fst snd];
    [|destruct (c_print C (msg_download_error url e0)) as [[]|?|] eqn:E;
      intros [= <- <-]; by eauto|done].
  destruct (c_mkdtemp C w) as [[dir|e0|] w1]; cbn [fst snd];
    [|destruct (c_print C (msg_download_error url e0)) as [[]|?|] eqn:E;
      intros [= <- <-]; by eauto|done].
  destruct (c_run C _ url w1) as [[[]|e0|] w2]; cbn [fst snd];
    [|destruct (c_print C (msg_download_error url e0)) as [[]|?|] eqn:E;
      intros [= <- <-]; by eauto|done].
  destruct (c_listdir C dir w2) as [[names|e0|] w3]; cbn [fst snd];
    [|destruct (c_print C (msg_download_error url e0)) as [[]|?|] eqn:E;
      intros [= <- <-]; by eauto|done].
  destruct (first_mp4 dir names) as [q|]; [|done]. cbn [fst snd].
  destruct (c_print C (msg_downloaded q)) as [[]|e0|]; cbn [fst snd];
    [done| |done].
  destruct (c_print C (msg_download_error url e0)) as [[]|?|] eqn:E;
    intros [= <- <-]; by eauto.
Qed.

Lemma item_raises fuel d i e i' :
  item_result C fuel d i = (Raises e, i') ->
  has_url d = true /\
  exists msg, unguarded_message d msg /\ c_print C msg = Raises e.
Proof.
  intros H. unfold has_url.
  destruct (truthy (dict_get d (text "url"))) eqn:Eu;
    [|unfold item_result in H; by rewrite Eu in H].
  split; [done|].
  unfold item_result in H. rewrite Eu in H. unfold unguarded_message.
  item_cases H; try done; injection H as <- <-;
    try (match goal with
         | Hd : download_youtube_video _ _ _ = (Raises _, _) |- _ =>
             apply download_raises in Hd as (? & Hd)
         end);
    eauto 10.
Qed.

Lemma batch_raises fuel e : forall ds i i',
  batch C fuel ds i = (Raises e, i') ->
  exists d msg, In d ds /\ has_url d = true /\
                unguarded_message d msg /\ c_print C msg = Raises e.
Proof.
  induction ds as [|d ds IH]; intros i i' H; [done|].
  cbn [batch] in H. unfold bind, ret in H.
  destruct (item_result C fuel d i) as [[r|e'|] i1] eqn:Ei; [| |done].
  - destruct (batch C fuel ds i1) as [[outs|e'|] i2] eqn:Eb; [done| |done].
    injection H as -> <-. apply IH in Eb as (d' & msg & Hin & Hrest).
    exists d', msg. split; [by right | done].
  - injection H as -> <-. apply item_raises in Ei as (Hu & msg & Hm & Hp).
    exists d, msg. split; [by left | done].
Qed.

(** X12. An exception leaves the loop of [main] only from a [print]: it
    is the exception of a message about a descriptor with a URL, printed
    outside every [try] (lines 168 and 171) or inside an [except] handler
    (lines 42, 180 and 187). Every exception of a collaborator ends in an
    error entry or is dropped. *)
Theorem loop_raises_from_print (fuel : nat) (ds : list dict)
    (i i' : io_state) (e : str) :
  run_batch C fuel ds i = (Raises e, i') ->
  exists d msg, In d ds /\ has_url d = true /\
                unguarded_message d msg /\ c_print C msg = Raises e.
Proof. rewrite run_batch_batch. apply batch_raises. Qed.

Lemma item_process_returns fuel d i path i2 a i3 o4 i4 :
  has_url d = true ->
  c_print C (msg_processing (title_of d) (dict_get d (text "url")))
    = Returns tt ->
  download_youtube_video C (dict_get d (text "url")) i = (Returns path, i2) ->
  falsy_path path = false ->
  process_video C fuel (default [] path) i2 = (Returns a, i3) ->
  os_remove C (default [] path) i3 = (o4, i4) ->
  removal_done C (default [] path) o4 ->
  item_result C fuel d i =
  (Returns (Some (dict_set d (text "analysis") (analysis_json a))), i4).
Proof.
  intros Hu H1 Hd Hp Hv Hr Ho. unfold has_url in Hu.
  unfold item_result, bind, ret, try_finally, try_except, print.
  rewrite Hu. cbn [negb]. rewrite H1, Hd, Hp, Hv, Hr.
  destruct Ho as [->|(e' & -> & H3)]; [done|]. by rewrite H3.
Qed.

(** X13. When the processing of an item returns, and the message of line
    168 and, if the removal of the file raises, that of line 187 can be
    printed, the item is output with the record of the parser under
    [analysis]: an object with the summary under [summary] and the list
    of the entries under [qa], each an object with its [question],
    [answer] and [context]; the other keys are as they were. The file is
    removed afterwards, and a removal that raises changes nothing of the
    output. The results before it are kept and the items after it
    follow. *)
Theorem batch_annotates_success (fuel : nat) (pre post : list dict) (d : dict)
    (i0 i1 i2 i3 i4 : io_state) (out_pre : list dict) (path : option str)
    (a : analysis) (o4 : outcome unit) :
  run_batch C fuel pre i0 = (Returns out_pre, i1) ->
  has_url d = true ->
  c_print C (msg_processing (title_of d) (dict_get d (text "url")))
    = Returns tt ->
  download_youtube_video C (dict_get d (text "url")) i1 = (Returns path, i2) ->
  falsy_path path = false ->
  process_video C fuel (default [] path) i2 = (Returns a, i3) ->
  os_remove C (default [] path) i3 = (o4, i4) ->
  removal_done C (default [] path) o4 ->
  let record :=
    JObj [(text "summary", JStr (summary a));
          (text "qa",
           JArr (map (fun e =>
                        JObj [(text "question", JStr (question e));
                              (text "answer", JStr (answer e));
                              (text "context", JStr (context e))])
                   (qa a)))] in
  let entry := dict_set d (text "analysis") record in
  dict_lookup entry (text "analysis") = Some record /\
  (forall key, key <> text "analysis" ->
               dict_lookup entry key = dict_lookup d key) /\
  run_batch C fuel (pre ++ d :: post) i0 =
  (let '(o, i5) := run_batch C fuel post i4 in
   (outs <- o ;; Returns (out_pre ++ entry :: outs), i5)).
Proof.
  intros Hpre Hu H1 Hd Hp Hv Hr Ho record entry.
  split; [apply dict_lookup_set_eq|].
  split; [intros key Hkey; apply dict_lookup_set_ne; congruence|].
  apply (run_batch_around C fuel pre d post i0 out_pre i1 _ i4); [done|].
  by eapply item_process_returns.
Qed.

Lemma poll_calls_no_remove names :
  forallb (fun ev => negb (is_remove ev)) (poll_calls names) = true.
Proof. induction names as [|n names IH]; [done|]. by cbn. Qed.

(** X14. For an item whose file was downloaded, the file is removed once,
    as the last call made for the item, whether the processing returned
    or raised. *)
Theorem item_file_removed_once (fuel : nat) (d : dict) (i i2 i' : io_state)
    (path : str) (out : list dict) :
  has_url d = true ->
  download_youtube_video C (dict_get d (text "url")) i
    = (Returns (Some path), i2) ->
  run_batch C fuel [d] i = (Returns out, i') ->
  exists evs,
    snd i' = snd i2 ++ evs ++ [EvRemove path] /\
    forallb (fun ev => negb (is_remove ev)) evs = true.
Proof.
  intros Hu Hd. rewrite run_batch_batch. cbn [batch].
  pose proof (download_gives_mp4 C _ _ _ _ Hd) as [_ Hp].
  unfold has_url in Hu.
  unfold item_result, bind, ret, try_finally, try_except, print.
  rewrite Hu. cbn [negb].
  destruct (c_print C (msg_processing _ _)) as [[]|?|]; [|done|done].
  rewrite Hd, Hp. cbn [default from_option id].
  destruct (process_video C fuel path i2) as [o3 i3] eqn:Ev.
  apply process_video_no_remove in Ev as (evs & Htr & Hno).
  assert (snd (snd (os_remove C path i3)) =
          snd i2 ++ evs ++ [EvRemove path]) as Hrm.
  { unfold os_remove, call.
    destruct (c_remove C path (fst i3)) as [r w']. cbn [snd].
    by rewrite Htr, <- app_assoc. }
  destruct o3 as [a|e|]; [| |done]; repeat (next_call; cbn [fst snd]);
    try done; cbn [snd] in Hrm; intros [= _ <-]; by eexists.
Qed.

Lemma item_variant fuel d i d' i' :
  item_result C fuel d i = (Returns (Some d'), i') ->
  exists v, d' = dict_set d (text "analysis") v /\
            ((exists msg, v = error_json msg) \/
             (exists a, v = analysis_json a)).
Proof.
  intros H.
  destruct (truthy (dict_get d (text "url"))) eqn:Eu;
    [|unfold item_result in H; by rewrite Eu in H].
  unfold item_result in H. rewrite Eu in H.
  item_cases H; inversion H; by eauto 6.
Qed.

(** X15. Every descriptor of the output carries an [analysis] field, and
    it is one of two things: an object with a message under [error], or
    an object with a text under [summary] and, under [qa], a list of
    objects with a text each under [question], [answer] and [context]. *)
Theorem outputs_have_analysis (fuel : nat) (ds out : list dict)
    (i i' : io_state) :
  run_batch C fuel ds i = (Returns out, i') ->
  Forall (fun o =>
            exists v, dict_lookup o (text "analysis") = Some v /\
              ((exists msg, v = JObj [(text "error", JStr msg)]) \/
               (exists (s : str) (entries : list (str * str * str)),
                  v = JObj [(text "summary", JStr s);
                            (text "qa",
                             JArr (map (fun '(q, a, c) =>
                                          JObj [(text "question", JStr q);
                                                (text "answer", JStr a);
                                                (text "context", JStr c)])
                                     entries))]))) out.
Proof.
  rewrite run_batch_batch. revert i out i'.
  induction ds as [|d ds IH]; intros i out i' H.
  - inversion H. constructor.
  - cbn [batch] in H. unfold bind, ret in H.
    destruct (item_result C fuel d i) as [[r|e|] i1] eqn:Ei; [|done|done].
    destruct (batch C fuel ds i1) as [[outs|e|] i2] eqn:Eb; [|done|done].
    inversion H; subst. specialize (IH _ _ _ Eb).
    destruct r as [d'|]; [|done]. constructor; [|done].
    apply item_variant in Ei as (v & -> & Hv).
    exists v. split; [apply dict_lookup_set_eq|].
    destruct Hv as [(msg & ->) | (a & ->)]; [left; by exists msg|].
    right. exists (summary a),
      (map (fun e => (question e, answer e, context e)) (qa a)).
    unfold analysis_json. by rewrite map_map.
Qed.

Lemma dict_set_keys key v : forall d,
  map fst (dict_set d key v) =
  match dict_lookup d key with
  | Some _ => map fst d
  | None => map fst d ++ [key]
  end.
Proof.
  induction d as [|[k v'] d IH]; [done|].
  cbn [dict_set dict_lookup]. destruct (str_eqb k key); [done|].
  cbn [map fst]. rewrite IH. by destruct (dict_lookup d key).
Qed.

(** X16. The fields of an output descriptor are those of the input, in the
    same order: an [analysis] field that was there is overwritten in
    place, otherwise the new field comes last. *)
Theorem output_keeps_field_order (fuel : nat) (ds out : list dict)
    (i i' : io_state) :
  run_batch C fuel ds i = (Returns out, i') ->
  Forall2
    (fun d o =>
       map fst o =
       match dict_lookup d (text "analysis") with
       | Some _ => map fst d
       | None => map fst d ++ [text "analysis"]
       end)
    (filter (fun d => has_url d = true) ds) out.
Proof.
  rewrite run_batch_batch. intros H. apply batch_annotates in H.
  eapply Forall2_impl; [exact H|].
  intros d o (v & ->). apply dict_set_keys.
Qed.

Lemma poll_fuel k : forall fuel h i o i',
  poll C fuel h i = (o, i') -> o <> Diverges ->
  poll C (fuel + k) h i = (o, i').
Proof.
  induction fuel as [|fuel IH]; intros h i o i' H Ho.
  - cbn [poll] in H. destruct k as [|k]; [done|].
    cbn [Nat.add poll].
    destruct (str_eqb (fh_state h) (text "PROCESSING")); [|done].
    inversion H; by subst.
  - cbn [Nat.add poll] in *.
    destruct (str_eqb (fh_state h) (text "PROCESSING")); [|done].
    unfold bind in *.
    destruct (sleep i) as [[u|e|] i1]; [|done|done].
    destruct (get_file C (fh_name h) i1) as [[h1|e|] i2]; [|done|done].
    by apply IH.
Qed.

Lemma process_video_fuel k fuel path i o i' :
  process_video C fuel path i = (o, i') -> o <> Diverges ->
  process_video C (fuel + k) path i = (o, i').
Proof.
  unfold process_video, bind. intros H Ho.
  destruct (print C (msg_processing_file path) i) as [[u|e|] i0];
    [|done|done].
  destruct (upload_file C path i0) as [[h0|e|] i1]; [|done|done].
  destruct (poll C fuel h0 i1) as [[h|e|] i2] eqn:Ep.
  - by rewrite (poll_fuel k _ _ _ _ _ Ep).
  - by rewrite (poll_fuel k _ _ _ _ _ Ep).
  - inversion H; by subst.
Qed.

Lemma item_fuel k fuel d i o i' :
  item_result C fuel d i = (o, i') -> o <> Diverges ->
  item_result C (fuel + k) d i = (o, i').
Proof.
  unfold item_result, bind, ret, try_finally, try_except. intros H Ho.
  destruct (negb (truthy (dict_get d (text "url")))); [done|].
  destruct (print C (msg_processing _ _) i) as [[u|e|] i0]; [|done|done].
  destruct (download_youtube_video C (dict_get d (text "url")) i0)
    as [[p|e|] i1]; [|done|done].
  destruct (falsy_path p); [done|].
  destruct (process_video C fuel (default [] p) i1) as [o3 i3] eqn:Ev.
  destruct o3 as [a|e|];
    [rewrite (process_video_fuel k _ _ _ _ _ Ev) by done..|];
    [done|done|].
  inversion H; by subst.
Qed.

Lemma batch_fuel k fuel : forall ds i o i',
  batch C fuel ds i = (o, i') -> o <> Diverges ->
  batch C (fuel + k) ds i = (o, i').
Proof.
  induction ds as [|d ds IH]; intros i o i' H Ho; [done|].
  cbn [batch] in *. unfold bind, ret in *.
  destruct (item_result C fuel d i) as [o1 i1] eqn:Ei.
  destruct o1 as [r|e|];
    [rewrite (item_fuel k _ _ _ _ _ Ei) by done..|]; [|done|].
  - destruct (batch C fuel ds i1) as [o2 i2] eqn:Eb.
    destruct o2 as [outs|e|];
      [rewrite (IH _ _ _ Eb) by done..|]; [done|done|].
    inversion H; by subst.
  - inversion H; by subst.
Qed.

(** X17. The budget is only a bound on the waits of the model: a run that
    ends within a budget ends the same way, with the same output, the
    same world and the same calls, within any larger one. *)
Theorem run_batch_budget (fuel k : nat) (ds : list dict) (i i' : io_state)
    (o : outcome (list dict)) :
  run_batch C fuel ds i = (o, i') ->
  o <> Diverges ->
  run_batch C (fuel + k) ds i = (o, i').
Proof. rewrite !run_batch_batch. apply batch_fuel. Qed.

End BatchMore.

Lemma loop_raises_from_print_witness :
  exists d msg, In d [ex_d1; ex_d2; ex_d3] /\ has_url d = true /\
                unguarded_message d msg /\
                c_print demo_ascii msg = Raises (text "UnicodeEncodeError").
Proof.
  apply (loop_raises_from_print demo_ascii 3 [ex_d1; ex_d2; ex_d3]
           ex_i0 ex_i4).
  vm_compute. reflexivity.
Defined.

Lemma batch_annotates_success_witness :
  let record :=
    JObj [(text "summary", JStr (text "ok")); (text "qa", JArr [])] in
  let entry :=
    [(text "url", JStr (text "https://example.com/a"));
     (text "title", JStr (text "A"));
     (text "analysis", record)] in
  dict_lookup entry (text "analysis") = Some record /\
  (forall key, key <> text "analysis" ->
               dict_lookup entry key = dict_lookup ex_d1 key) /\
  run_batch demo 3 ([] ++ ex_d1 :: [ex_d2]) ex_i0 =
  (let '(o, i5) := run_batch demo 3 [ex_d2] ex_j4 in
   (outs <- o ;; Returns ([] ++ entry :: outs), i5)).
Proof.
  apply (batch_annotates_success demo 3 [] [ex_d2] ex_d1
           ex_i0 ex_i0 ex_j2 ex_j3 ex_j4 [] (Some ex_path) ex_a1
           (Returns tt));
    try (vm_compute; reflexivity).
  left. reflexivity.
Defined.

Lemma item_file_removed_once_witness :
  exists evs,
    snd ex_i4 = snd ex_i2 ++ evs ++ [EvRemove ex_path] /\
    forallb (fun ev => negb (is_remove ev)) evs = true.
Proof.
  apply (item_file_removed_once demo 3 ex_d2 ex_i1 ex_i2 ex_i4 ex_path
           [dict_set ex_d2 (text "analysis")
              (error_json (text "quota exceeded"))]);
    vm_compute; reflexivity.
Defined.

Lemma outputs_have_analysis_witness :
  Forall (fun o =>
            exists v, dict_lookup o (text "analysis") = Some v /\
              ((exists msg, v = JObj [(text "error", JStr msg)]) \/
               (exists (s : str) (entries : list (str * str * str)),
                  v = JObj [(text "summary", JStr s);
                            (text "qa",
                             JArr (map (fun '(q, a, c) =>
                                          JObj [(text "question", JStr q);
                                                (text "answer", JStr a);
                                                (text "context", JStr c)])
                                     entries))]))) ex_out_mixed.
Proof.
  apply (outputs_have_analysis demo 3 [ex_nourl; ex_fail; ex_d1] ex_out_mixed
           ex_i0 ex_i_mixed).
  vm_compute. reflexivity.
Defined.

Lemma output_keeps_field_order_witness :
  Forall2
    (fun d o =>
       map fst o =
       match dict_lookup d (text "analysis") with
       | Some _ => map fst d
       | None => map fst d ++ [text "analysis"]
       end)
    (filter (fun d => has_url d = true) [ex_nourl; ex_fail; ex_d1])
    ex_out_mixed.
Proof.
  apply (output_keeps_field_order demo 3 [ex_nourl; ex_fail; ex_d1]
           ex_out_mixed ex_i0 ex_i_mixed).
  vm_compute. reflexivity.
Defined.

Lemma run_batch_budget_witness :
  run_batch demo (1 + 5) [ex_nourl; ex_fail; ex_d1] ex_i0 =
  (Returns ex_out_mixed, ex_i_mixed).
Proof.
  apply (run_batch_budget demo 1 5 [ex_nourl; ex_fail; ex_d1] ex_i0
           ex_i_mixed (Returns ex_out_mixed));
    [vm_compute; reflexivity | discriminate].
Defined.

(** * [main] around the loop *)

Section MainMore.

Context {W : Type} (C : collaborators W) (E : environment W).
#[local] Opaque text.

(** The loop never looks at the record of calls: running it from an
    empty record, as [in_loop] does, loses nothing. *)
Lemma appends_ret {A} (a : A) : appends (W := W) (ret a).
Proof. intros w tr. unfold ret. cbn [fst snd]. by rewrite app_nil_r. Qed.

Lemma appends_of_outcome {A} (o : outcome A) : appends (W := W) (of_outcome o).
Proof. intros w tr. unfold of_outcome. cbn [fst snd]. by rewrite app_nil_r. Qed.

Lemma appends_call {A} ev (f : W -> outcome A * W) : appends (call ev f).
Proof. intros w tr. unfold call. cbn [fst snd]. by destruct (f w). Qed.

Lemma appends_print msg : appends (print C msg).
Proof. intros w tr. unfold print. cbn [fst snd]. by rewrite app_nil_r. Qed.

Lemma appends_bind {A B} (m : @IO W A) (f : A -> @IO W B) :
  appends m -> (forall a, appends (f a)) -> appends (a <<- m ;; f a).
Proof.
  intros Hm Hf w tr. unfold bind. rewrite (Hm w tr).
  destruct (m (w, [])) as [[a|e|] [w1 tr1]]; cbn [fst snd]; [|done|done].
  rewrite (Hf a w1 (tr ++ tr1)), (Hf a w1 tr1).
  destruct (f a (w1, [])) as [r [w2 tr2]]. cbn [fst snd].
  by rewrite app_assoc.
Qed.

Lemma appends_try_except {A} (m : @IO W A) (h : str -> @IO W A) :
  appends m -> (forall e, appends (h e)) -> appends (try_except m h).
Proof.
  intros Hm Hh w tr. unfold try_except. rewrite (Hm w tr).
  destruct (m (w, [])) as [[a|e|] [w1 tr1]]; cbn [fst snd]; [done| |done].
  rewrite (Hh e w1 (tr ++ tr1)), (Hh e w1 tr1).
  destruct (h e (w1, [])) as [r [w2 tr2]]. cbn [fst snd].
  by rewrite app_assoc.
Qed.

Lemma appends_try_finally {A} (m : @IO W A) (fin : @IO W unit) :
  appends m -> appends fin -> appends (try_finally m fin).
Proof.
  intros Hm Hf w tr. unfold try_finally. rewrite (Hm w tr).
  destruct (m (w, [])) as [[a|e|] [w1 tr1]]; cbn [fst snd]; [| |done];
    rewrite (Hf w1 (tr ++ tr1)), (Hf w1 tr1);
    destruct (fin (w1, [])) as [[u|e'|] [w2 tr2]]; cbn [fst snd];
    by rewrite app_assoc.
Qed.

Lemma appends_download url : appends (download_youtube_video C url).
Proof.
  apply appends_try_except.
  - apply appends_bind; [apply appends_print|]. intros _.
    apply appends_bind; [apply appends_call|]. intros dir.
    apply appends_bind; [apply appends_call|]. intros _.
    apply appends_bind; [apply appends_call|]. intros names.
    destruct (first_mp4 dir names); [|apply appends_ret].
    apply appends_bind; [apply appends_print|]. intros; apply appends_ret.
  - intros e. apply appends_bind; [apply appends_print|].
    intros; apply appends_ret.
Qed.

Lemma appends_poll : forall fuel h, appends (poll C fuel h).
Proof.
  induction fuel as [|fuel IH]; intros h; cbn [poll];
    destruct (str_eqb (fh_state h) (text "PROCESSING"));
    try apply appends_ret.
  - intros w tr. unfold diverge. cbn [fst snd]. by rewrite app_nil_r.
  - apply appends_bind; [by intros w tr|]. intros _.
    apply appends_bind; [apply appends_call | apply IH].
Qed.

Lemma appends_process_video fuel path : appends (process_video C fuel path).
Proof.
  apply appends_bind; [apply appends_print|]. intros _.
  apply appends_bind; [apply appends_call|]. intros h0.
  apply appends_bind; [apply appends_poll|]. intros h.
  apply appends_bind; [apply appends_call|]. intros content.
  apply appends_bind; [apply appends_print|]. intros _.
  apply appends_of_outcome.
Qed.

Lemma appends_item_result fuel d : appends (item_result C fuel d).
Proof.
  unfold item_result.
  destruct (negb (truthy (dict_get d (text "url")))); [apply appends_ret|].
  apply appends_bind; [apply appends_print|]. intros _.
  apply appends_bind; [apply appends_download|]. intros p.
  destruct (falsy_path p).
  { apply appends_bind; [apply appends_print|]. intros; apply appends_ret. }
  apply appends_bind; [|intros; apply appends_ret].
  apply appends_try_finally.
  - apply appends_try_except.
    + apply appends_bind; [apply appends_process_video|].
      intros; apply appends_ret.
    + intros e. apply appends_bind; [apply appends_print|].
      intros; apply appends_ret.
  - apply appends_try_except; [apply appends_call|].
    intros; apply appends_print.
Qed.

Lemma appends_main_loop fuel : forall items, appends (main_loop C fuel items).
Proof.
  induction items as [|v items IH]; cbn [main_loop]; [apply appends_ret|].
  destruct v; try apply appends_of_outcome.
  apply appends_bind; [apply appends_item_result|]. intros r.
  apply appends_bind; [apply IH|]. intros; apply appends_ret.
Qed.

(** On objects, the loop of [main] is the loop on descriptors. *)
Lemma main_loop_objects fuel : forall ds i,
  main_loop C fuel (map JObj ds) i =
  (let '(o, i') := batch C fuel ds i in
   (outs <- o ;; Returns (map JObj outs), i')).
Proof.
  induction ds as [|d ds IH]; intros i; [done|].
  cbn [map main_loop batch]. unfold bind, ret.
  destruct (item_result C fuel d i) as [[r|e|] i1]; [|done|done].
  rewrite IH.
  destruct (batch C fuel ds i1) as [[outs|e|] i2]; [|done|done].
  by destruct r.
Qed.

Lemma main_loop_non_object fuel v rest : forall ds i outs i',
  is_object v = false ->
  batch C fuel ds i = (Returns outs, i') ->
  main_loop C fuel (map JObj ds ++ v :: rest) i =
  (Raises (text "'" ++ type_name v ++ text "' object has no attribute 'get'"),
   i').
Proof.
  induction ds as [|d ds IH]; intros i outs i' Hv H.
  - inversion H; subst. by destruct v.
  - cbn [map app main_loop batch] in *. unfold bind, ret in *.
    destruct (item_result C fuel d i) as [[r|e|] i1]; [|done|done].
    destruct (batch C fuel ds i1) as [[outs1|e|] i2] eqn:Eb; [|done|done].
    rewrite (IH i1 outs1 i2 Hv Eb). by inversion H.
Qed.

Lemma main_loop_outputs_objects fuel : forall items i outs i',
  main_loop C fuel items i = (Returns outs, i') ->
  forallb is_object outs = true.
Proof.
  induction items as [|v items IH]; intros i outs i' H.
  - by inversion H.
  - cbn [main_loop] in H. destruct v; try done.
    unfold bind, ret in H.
    destruct (item_result C fuel fields i) as [[r|e|] i1]; [|done|done].
    destruct (main_loop C fuel items i1) as [[outs1|e|] i2] eqn:El;
      [|done|done].
    specialize (IH _ _ _ El). inversion H; subst. by destruct r.
Qed.

Lemma item_events_no_write (evs : list event) :
  forallb (fun ev => negb (is_write ev)) (map EvItem evs) = true.
Proof. induction evs as [|ev evs IH]; [done|]. by cbn. Qed.

(** X18. Without an API key (none, or an empty one) [main] returns at
    once: nothing is configured, no file is read, no video is handled and
    no output is written. *)
Theorem main_without_key (fuel : nat) (input_json : str) (w w1 w2 : W)
    (tr : list main_event) (key : option str) :
  e_load_dotenv E w = (Returns tt, w1) ->
  e_getenv E (text "GOOGLE_API_KEY") w1 = (Returns key, w2) ->
  default [] key = [] ->
  main C E fuel input_json (w, tr) =
  (Returns tt, (w2, tr ++ [EvLoadDotenv; EvGetenv (text "GOOGLE_API_KEY")])).
Proof.
  intros Hl Hg Hk. unfold main, bind, env_call, ret. cbn [fst snd].
  rewrite Hl. cbn [fst snd]. rewrite Hg. rewrite <- app_assoc.
  by destruct key as [[|a key]|].
Qed.

Section Started.

Variables (fuel : nat) (input_json : str) (w w1 w2 w3 : W)
  (tr : list main_event) (a : ascii) (key : str).

Hypothesis Hdotenv : e_load_dotenv E w = (Returns tt, w1).
Hypothesis Hgetenv :
  e_getenv E (text "GOOGLE_API_KEY") w1 = (Returns (Some (a :: key)), w2).
Hypothesis Hconfigure : e_configure E (a :: key) w2 = (Returns tt, w3).

(** X19. An input file that cannot be read or decoded ends [main]: the
    agent is not built, no video is handled and no output is written.
    [main] ends as the [print] of the message about it (line 141) does:
    without an exception when the message can be printed. *)
Theorem main_unreadable_input (e : str) (w4 : W) :
  e_read_json E input_json w3 = (Raises e, w4) ->
  main C E fuel input_json (w, tr) =
  (c_print C (msg_read_error e),
   (w4, tr ++ [EvLoadDotenv; EvGetenv (text "GOOGLE_API_KEY");
               EvConfigure (a :: key); EvReadJson input_json])).
Proof.
  intros Hr.
  unfold main, bind, env_call, main_print, try_except, ret. cbn [fst snd].
  rewrite Hdotenv. cbn [fst snd]. rewrite Hgetenv. cbn [fst snd].
  rewrite Hconfigure. cbn [fst snd]. rewrite Hr. cbn [fst snd].
  rewrite <- !app_assoc.
  by destruct (c_print C (msg_read_error e)) as [[]|?|].
Qed.

Variables (videos_data : json) (w4 w5 : W).

Hypothesis Hread : e_read_json E input_json w3 = (Returns videos_data, w4).
Hypothesis Hagent : e_agent E w4 = (Returns tt, w5).

(** X20. When the input holds objects only, [main] writes to
    [output.json], as its last call, the list the loop gives for them:
    the annotated descriptors, in order. The result of [main] is that of
    the write. *)
Theorem main_writes_batch_output (ds outs : list dict) (w6 : W)
    (evs : list event) :
  iterate videos_data = Returns (map JObj ds) ->
  run_batch C fuel ds (w5, []) = (Returns outs, (w6, evs)) ->
  main C E fuel input_json (w, tr) =
  (let '(r, w7) :=
     e_write_json E (text "output.json") (JArr (map JObj outs)) w6 in
   (r, (w7, tr ++ [EvLoadDotenv; EvGetenv (text "GOOGLE_API_KEY");
                   EvConfigure (a :: key); EvReadJson input_json; EvAgent]
               ++ map EvItem evs
               ++ [EvWriteJson (text "output.json")
                     (JArr (map JObj outs))]))).
Proof.
  intros Hit Hrun. rewrite run_batch_batch in Hrun.
  unfold main, bind, env_call, try_except, ret, of_outcome, in_loop.
  cbn [fst snd].
  rewrite Hdotenv. cbn [fst snd]. rewrite Hgetenv. cbn [fst snd].
  rewrite Hconfigure. cbn [fst snd]. rewrite Hread. cbn [fst snd].
  rewrite Hagent. cbn [fst snd]. rewrite Hit.
  rewrite main_loop_objects, Hrun. cbn [obind fst snd].
  destruct (e_write_json E (text "output.json") (JArr (map JObj outs)) w6)
    as [r w7].
  by rewrite <- !app_assoc.
Qed.

(** X21. A value of the input that is not an object ends [main] with an
    exception as soon as the loop reaches it: the objects before it have
    been handled, the values after it are not, and nothing is written,
    the results collected so far included. *)
Theorem main_non_object_item (ds outs : list dict) (v : json)
    (rest : list json) (w6 : W) (evs : list event) :
  iterate videos_data = Returns (map JObj ds ++ v :: rest) ->
  is_object v = false ->
  run_batch C fuel ds (w5, []) = (Returns outs, (w6, evs)) ->
  main C E fuel input_json (w, tr) =
  (Raises (text "'" ++ type_name v ++ text "' object has no attribute 'get'"),
   (w6, tr ++ [EvLoadDotenv; EvGetenv (text "GOOGLE_API_KEY");
               EvConfigure (a :: key); EvReadJson input_json; EvAgent]
           ++ map EvItem evs)).
Proof.
  intros Hit Hv Hrun. rewrite run_batch_batch in Hrun.
  unfold main, bind, env_call, try_except, ret, of_outcome, in_loop.
  cbn [fst snd].
  rewrite Hdotenv. cbn [fst snd]. rewrite Hgetenv. cbn [fst snd].
  rewrite Hconfigure. cbn [fst snd]. rewrite Hread. cbn [fst snd].
  rewrite Hagent. cbn [fst snd]. rewrite Hit.
  rewrite (main_loop_non_object fuel v rest ds _ outs (w6, evs) Hv Hrun).
  cbn [fst snd]. by rewrite <- !app_assoc.
Qed.

End Started.

(** X22. In every run of [main] the output is written at most once, as
    the last call, to [output.json], and what is written is a list of
    objects; in particular nothing is written when [main] stops early or
    when the loop does not come to its end. *)
Theorem main_writes_at_end (fuel : nat) (input_json : str) (s : main_state) :
  exists evs : list main_event,
    snd (snd (main C E fuel input_json s)) = snd s ++ evs /\
    (forallb (fun ev => negb (is_write ev)) evs = true \/
     exists evs' output_data,
       evs = evs' ++ [EvWriteJson (text "output.json") (JArr output_data)] /\
       forallb (fun ev => negb (is_write ev)) evs' = true /\
       forallb is_object output_data = true).
Proof.
  unfold main, bind, env_call, main_print, try_except, ret, of_outcome,
    in_loop.
  destruct s as [w tr]. cbn [fst snd].
  destruct (e_load_dotenv E w) as [[u|e|] w1]; cbn [fst snd].
  2,3: exists [EvLoadDotenv]; split; [done | by left].
  destruct (e_getenv E (text "GOOGLE_API_KEY") w1) as [[k|e|] w2];
    cbn [fst snd].
  2,3: eexists [_; _]; split; [by rewrite <- !app_assoc | by left].
  destruct k as [[|a key]|]; cbn [fst snd].
  1,3: eexists [_; _]; split; [by rewrite <- !app_assoc | by left].
  destruct (e_configure E (a :: key) w2) as [[u'|e|] w3]; cbn [fst snd].
  2,3: eexists [_; _; _]; split; [by rewrite <- !app_assoc | by left].
  destruct (e_read_json E input_json w3) as [[videos_data|e|] w4];
    cbn [fst snd].
  2,3: try (next_world; cbn [fst snd]); eexists [_; _; _; _];
       (split; [by rewrite <- !app_assoc | by left]).
  destruct (e_agent E w4) as [[u''|e|] w5]; cbn [fst snd].
  2,3: eexists [_; _; _; _; _]; split; [by rewrite <- !app_assoc | by left].
  destruct (iterate videos_data) as [items|e|]; cbn [fst snd].
  2,3: eexists [_; _; _; _; _]; split; [by rewrite <- !app_assoc | by left].
  destruct (main_loop C fuel items (w5, [])) as [[outs|e|] [w6 evs]] eqn:El;
    cbn [fst snd].
  2,3: eexists ([_; _; _; _; _] ++ map EvItem evs); split;
       [by rewrite <- !app_assoc | left; apply item_events_no_write].
  destruct (e_write_json E (text "output.json") (JArr outs) w6) as [r w7].
  cbn [snd].
  eexists (([_; _; _; _; _] ++ map EvItem evs) ++ [_]). split.
  - by rewrite <- !app_assoc.
  - right. eexists _, outs. split; [done|]. split.
    + apply item_events_no_write.
    + by apply (main_loop_outputs_objects fuel items (w5, []) outs (w6, evs)).
Qed.

End MainMore.

(** ** Witnesses for [main] *)

Lemma main_without_key_witness :
  main demo demo_env 3 (text "videos.json") (0, []) =
  (Returns tt, (0, [] ++ [EvLoadDotenv; EvGetenv (text "GOOGLE_API_KEY")])).
Proof.
  apply (main_without_key demo demo_env 3 (text "videos.json") 0 0 0 [] None);
    vm_compute; reflexivity.
Defined.

Lemma main_unreadable_input_witness :
  main demo demo_env 3 (text "missing.json") (1, []) =
  (Returns tt,
   (1, [] ++ [EvLoadDotenv; EvGetenv (text "GOOGLE_API_KEY");
              EvConfigure (text "secret"); EvReadJson (text "missing.json")])).
Proof.
  apply (main_unreadable_input demo demo_env 3 (text "missing.json")
           1 1 1 1 [] "s"%char (text "ecret"))
    with (e := text "[Errno 2] No such file or directory");
    vm_compute; reflexivity.
Defined.

Lemma main_writes_batch_output_witness :
  main demo demo_env 3 (text "videos.json") (1, []) =
  (let '(r, w7) :=
     e_write_json demo_env (text "output.json") (JArr (map JObj ex_out_mixed))
       (fst ex_i_mixed) in
   (r, (w7, [] ++ [EvLoadDotenv; EvGetenv (text "GOOGLE_API_KEY");
                   EvConfigure (text "secret");
                   EvReadJson (text "videos.json"); EvAgent]
               ++ map EvItem (snd ex_i_mixed)
               ++ [EvWriteJson (text "output.json")
                     (JArr (map JObj ex_out_mixed))]))).
Proof.
  apply (main_writes_batch_output demo demo_env 3 (text "videos.json")
           1 1 1 1 [] "s"%char (text "ecret"))
    with (videos_data := JArr (map JObj [ex_nourl; ex_fail; ex_d1]))
         (w4 := 0) (w5 := 0) (ds := [ex_nourl; ex_fail; ex_d1]);
    vm_compute; reflexivity.
Defined.

Lemma main_non_object_item_witness :
  main demo demo_env 3 (text "mixed.json") (1, []) =
  (Raises (text "'int' object has no attribute 'get'"),
   (fst ex_i1,
    [] ++ [EvLoadDotenv; EvGetenv (text "GOOGLE_API_KEY");
           EvConfigure (text "secret"); EvReadJson (text "mixed.json");
           EvAgent]
       ++ map EvItem (snd ex_i1))).
Proof.
  apply (main_non_object_item demo demo_env 3 (text "mixed.json")
           1 1 1 1 [] "s"%char (text "ecret"))
    with (videos_data := JArr [JObj ex_d1; JNum 7; JObj ex_d3])
         (w4 := 0) (w5 := 0) (ds := [ex_d1]) (outs := ex_out1)
         (v := JNum 7) (rest := [JObj ex_d3])
         (w6 := fst ex_i1) (evs := snd ex_i1);
    vm_compute; reflexivity.
Defined.

(** * Where the parts of an entry end *)

Section Reach.
Import Re.
Local Arguments Ascii.eqb : simpl never.

Lemma star_greedy_blind p : forall s (k1 k2 : str -> option result),
  (forall s', k1 s' = None -> k2 s' = None) ->
  star_greedy p s k1 = None -> star_greedy p s k2 = None.
Proof.
  induction s as [|a s IH]; intros k1 k2 Hk H; simpl in *; [by apply Hk|].
  destruct (p a); [|by apply Hk].
  destruct (star_greedy p s k1) eqn:E; simpl in H; [done|].
  rewrite (IH _ _ Hk E). simpl. by apply Hk.
Qed.

Lemma star_lazy_blind p : forall s (k1 k2 : str -> option result),
  (forall s', k1 s' = None -> k2 s' = None) ->
  star_lazy p s k1 = None -> star_lazy p s k2 = None.
Proof.
  induction s as [|a s IH]; intros k1 k2 Hk H; simpl in *.
  - destruct (k1 []) eqn:E; [done|]. by rewrite (Hk _ E).
  - destruct (k1 (a :: s)) eqn:E; [done|]. rewrite (Hk _ E).
    destruct (p a); [by eapply IH | done].
Qed.

(** Whether a match is found does not depend on the groups captured so
    far. *)
Lemma m_blind r : forall s c1 c2 k1 k2,
  (forall s' d1 d2, k1 s' d1 = None -> k2 s' d2 = None) ->
  m r s c1 k1 = None -> m r s c2 k2 = None.
Proof.
  induction r as [|cs|r1 IH1 r2 IH2|r1 IH1 r2 IH2|r1 IH1|cs|cs|cs|cs|n r1 IH1|r1 IH1|];
    simpl; intros s c1 c2 k1 k2 Hk H.
  - by eapply Hk.
  - destruct s as [|a s]; [done|]. destruct (cset_mem cs a); [by eapply Hk|done].
  - eapply IH1; [|exact H]. intros s' d1 d2. by apply IH2.
  - destruct (m r1 s c1 k1) eqn:E1; simpl in H; [done|].
    rewrite (IH1 _ _ c2 _ k2 Hk E1). simpl. by eapply IH2.
  - destruct (m r1 s c1 k1) eqn:E1; simpl in H; [done|].
    rewrite (IH1 _ _ c2 _ k2 Hk E1). simpl. by eapply Hk.
  - eapply star_greedy_blind; [|exact H]. intros s'. apply Hk.
  - destruct s as [|a s]; [done|]. destruct (cset_mem cs a); [|done].
    eapply star_greedy_blind; [|exact H]. intros s'. apply Hk.
  - eapply star_lazy_blind; [|exact H]. intros s'. apply Hk.
  - destruct s as [|a s]; [done|]. destruct (cset_mem cs a); [|done].
    eapply star_lazy_blind; [|exact H]. intros s'. apply Hk.
  - eapply IH1; [|exact H]. intros s' d1 d2. apply Hk.
  - destruct (m r1 s c1 (fun s' c' => Some (s', c'))) as [[t d]|] eqn:E1.
    + destruct (m r1 s c2 (fun s' c' => Some (s', c'))) as [[t' d']|];
        [by eapply Hk | done].
    + assert (m r1 s c2 (fun s' c' => Some (s', c')) = None) as ->; [|done].
      eapply IH1; [|exact E1]. done.
  - destruct (at_end s); [by eapply Hk | done].
Qed.

Lemma star_greedy_complete p : forall s (k : str -> option result) j,
  j <= length s ->
  Forall (fun a => p a = true) (take j s) ->
  k (drop j s) <> None ->
  star_greedy p s k <> None.
Proof.
  induction s as [|a s IH]; intros k j Hj Hall Hk.
  - by destruct j.
  - simpl. destruct j as [|j].
    + simpl in Hk. destruct (p a); [|done].
      by destruct (star_greedy p s k).
    + simpl in Hall, Hk, Hj. apply Forall_cons in Hall as [-> Hall].
      specialize (IH k j ltac:(lia) Hall Hk).
      by destruct (star_greedy p s k).
Qed.

Lemma star_lazy_complete p : forall s (k : str -> option result) j,
  j <= length s ->
  Forall (fun a => p a = true) (take j s) ->
  k (drop j s) <> None ->
  star_lazy p s k <> None.
Proof.
  induction s as [|a s IH]; intros k j Hj Hall Hk.
  - destruct j; simpl in *; by destruct (k []).
  - simpl. destruct (k (a :: s)) eqn:E; [done|].
    destruct j as [|j]; [simpl in Hk; congruence|].
    simpl in Hall, Hk, Hj. apply Forall_cons in Hall as [-> Hall].
    apply (IH k j); [lia | done | done].
Qed.

(** The matcher finds a match whenever there is one. *)
Lemma m_complete r : forall s s' c c0 k,
  (forall t d1 d2, k t d1 = None -> k t d2 = None) ->
  reach r s s' -> k s' c0 <> None -> m r s c k <> None.
Proof.
  induction r as [|cs|r1 IH1 r2 IH2|r1 IH1 r2 IH2|r1 IH1|cs|cs|cs|cs|n r1 IH1|r1 IH1|];
    simpl; intros s s' c c0 k Hb Hr Hk.
  - subst s'. intros E. by apply (Hb _ _ c0) in E.
  - destruct Hr as (a & -> & ->). intros E. by apply (Hb _ _ c0) in E.
  - destruct Hr as (t & Hr1 & Hr2).
    apply (IH1 s t c c _); [|done|by eapply IH2].
    intros u d1 d2. by apply m_blind.
  - destruct Hr as [Hr|Hr].
    + specialize (IH1 _ _ c _ _ Hb Hr Hk). by destruct (m r1 s c k).
    + specialize (IH2 _ _ c _ _ Hb Hr Hk). by destruct (m r1 s c k).
  - destruct Hr as [Hr| ->].
    + specialize (IH1 _ _ c _ _ Hb Hr Hk). by destruct (m r1 s c k).
    + destruct (m r1 s c k); [done|]. simpl.
      intros E. by apply (Hb _ _ c0) in E.
  - destruct Hr as (j & Hj & -> & Hall).
    apply (star_greedy_complete _ _ _ j); [done | done|].
    intros E. by apply (Hb _ _ c0) in E.
  - destruct Hr as (j & Hj & -> & Hall).
    destruct s as [|a s]; [simpl in Hj; lia|].
    simpl in Hall. apply Forall_cons in Hall as [-> Hall].
    apply (star_greedy_complete _ _ _ j); [simpl in Hj; lia | done|].
    intros E. by apply (Hb _ _ c0) in E.
  - destruct Hr as (j & Hj & -> & Hall).
    apply (star_lazy_complete _ _ _ j); [done | done|].
    intros E. by apply (Hb _ _ c0) in E.
  - destruct Hr as (j & Hj & -> & Hall).
    destruct s as [|a s]; [simpl in Hj; lia|].
    simpl in Hall. apply Forall_cons in Hall as [-> Hall].
    apply (star_lazy_complete _ _ _ j); [simpl in Hj; lia | done|].
    intros E. by apply (Hb _ _ c0) in E.
  - apply (IH1 s s' c c0); [|done|].
    + intros t d1 d2. apply Hb.
    + intros E. by apply (Hb _ _ c0) in E.
  - destruct Hr as (-> & t & Hr).
    assert (m r1 s c (fun s' c' => Some (s', c')) <> None) as Hin
      by (by apply (IH1 s t c c)).
    destruct (m r1 s c (fun s' c' => Some (s', c'))) as [[t' d]|]; [|done].
    intros E. by apply (Hb _ _ c0) in E.
  - destruct Hr as (-> & ->). intros E. by apply (Hb _ _ c0) in E.
Qed.

Lemma star_greedy_inv p : forall s (k : str -> option result) x,
  star_greedy p s k = Some x ->
  exists j, j <= length s /\ Forall (fun a => p a = true) (take j s) /\
            k (drop j s) = Some x.
Proof.
  induction s as [|a s IH]; intros k x H; simpl in H.
  - exists 0. by repeat split.
  - destruct (p a) eqn:Ea.
    + destruct (star_greedy p s k) as [y|] eqn:E; simpl in H.
      * inversion H; subst. destruct (IH _ _ E) as (j & Hj & Hall & Hk).
        exists (S j). simpl. split; [lia|]. split; [by constructor | done].
      * exists 0. split; [simpl; lia|]. split; [constructor | done].
    + exists 0. split; [simpl; lia|]. split; [constructor | done].
Qed.

(** A lazy run stops at the first place from which the rest matches. *)
Lemma star_lazy_inv p : forall s (k : str -> option result) x,
  star_lazy p s k = Some x ->
  exists j, j <= length s /\ Forall (fun a => p a = true) (take j s) /\
            k (drop j s) = Some x /\
            forall j', j' < j -> k (drop j' s) = None.
Proof.
  induction s as [|a s IH]; intros k x H; simpl in H.
  - destruct (k []) eqn:E; [|done]. exists 0.
    split; [done|]. split; [constructor|]. split; [simpl; congruence | lia].
  - destruct (k (a :: s)) eqn:E.
    + exists 0. split; [simpl; lia|]. split; [constructor|].
      split; [simpl; congruence | lia].
    + destruct (p a) eqn:Ea; [|done].
      destruct (IH _ _ H) as (j & Hj & Hall & Hk & Hmin).
      exists (S j). simpl. split; [lia|]. split; [by constructor|].
      split; [done|]. intros [|j'] Hj'; [done|]. apply Hmin. lia.
Qed.

Lemma m_sound_groupless r : groupless r = true -> forall s c k x,
  m r s c k = Some x -> exists s', reach r s s' /\ k s' c = Some x.
Proof.
  induction r as [|cs|r1 IH1 r2 IH2|r1 IH1 r2 IH2|r1 IH1|cs|cs|cs|cs|n r1 IH1|r1 IH1|];
    simpl; intros Hg s c k x H.
  - by exists s.
  - destruct s as [|a s]; [done|]. destruct (cset_mem cs a) eqn:E; [|done].
    exists s. split; [by exists a | done].
  - apply andb_true_iff in Hg as [Hg1 Hg2].
    destruct (IH1 Hg1 _ _ _ _ H) as (t & Hr1 & H1).
    destruct (IH2 Hg2 _ _ _ _ H1) as (s' & Hr2 & H2).
    exists s'. split; [by exists t | done].
  - apply andb_true_iff in Hg as [Hg1 Hg2].
    destruct (m r1 s c k) as [y|] eqn:E; simpl in H.
    + inversion H; subst. destruct (IH1 Hg1 _ _ _ _ E) as (s' & Hr & Hk).
      exists s'. split; [by left | done].
    + destruct (IH2 Hg2 _ _ _ _ H) as (s' & Hr & Hk).
      exists s'. split; [by right | done].
  - destruct (m r1 s c k) as [y|] eqn:E; simpl in H.
    + inversion H; subst. destruct (IH1 Hg _ _ _ _ E) as (s' & Hr & Hk).
      exists s'. split; [by left | done].
    + exists s. split; [by right | done].
  - apply star_greedy_inv in H as (j & Hj & Hall & Hk).
    exists (drop j s). split; [by exists j | done].
  - destruct s as [|a s]; [done|]. destruct (cset_mem cs a) eqn:E; [|done].
    apply star_greedy_inv in H as (j & Hj & Hall & Hk).
    exists (drop j s). split; [|done].
    exists j. simpl. split; [lia|]. split; [done | by constructor].
  - apply star_lazy_inv in H as (j & Hj & Hall & Hk & _).
    exists (drop j s). split; [by exists j | done].
  - destruct s as [|a s]; [done|]. destruct (cset_mem cs a) eqn:E; [|done].
    apply star_lazy_inv in H as (j & Hj & Hall & Hk & _).
    exists (drop j s). split; [|done].
    exists j. simpl. split; [lia|]. split; [done | by constructor].
  - done.
  - destruct (m r1 s c (fun s' c' => Some (s', c'))) as [[t d]|] eqn:E;
      [|done].
    destruct (IH1 Hg _ _ _ _ E) as (s' & Hr & Hk). inversion Hk; subst.
    exists s. split; [|done]. split; [done | by exists t].
  - destruct (at_end s) eqn:E; [|done]. by exists s.
Qed.

(** What is left after a pattern is an end of the text it started on. *)
Lemma reach_drop r : forall s s',
  reach r s s' -> exists j, j <= length s /\ s' = drop j s.
Proof.
  induction r as [|cs|r1 IH1 r2 IH2|r1 IH1 r2 IH2|r1 IH1|cs|cs|cs|cs|n r1 IH1|r1 IH1|];
    simpl; intros s s' H.
  - exists 0. split; [lia | done].
  - destruct H as (a & -> & _). exists 1. split; [simpl; lia | done].
  - destruct H as (t & H1 & H2).
    destruct (IH1 _ _ H1) as (j1 & Hj1 & ->).
    destruct (IH2 _ _ H2) as (j2 & Hj2 & ->).
    rewrite length_drop in Hj2.
    exists (j1 + j2). split; [lia | by rewrite drop_drop].
  - destruct H as [H|H]; eauto.
  - destruct H as [H| ->]; [eauto|]. exists 0. split; [lia | done].
  - destruct H as (j & Hj & -> & _). by exists j.
  - destruct H as (j & Hj & -> & _). by exists (S j).
  - destruct H as (j & Hj & -> & _). by exists j.
  - destruct H as (j & Hj & -> & _). by exists (S j).
  - eauto.
  - destruct H as (-> & _). exists 0. split; [lia | done].
  - destruct H as (-> & _). exists 0. split; [lia | done].
Qed.

Lemma reach_chars l : forall s s',
  reach (foldr (fun a r => RSeq (RSet (CChar a)) r) REps l) s s' <->
  s = l ++ s'.
Proof.
  induction l as [|a l IH]; intros s s'; simpl; [done|]. split.
  - intros (t & (b & -> & Hb) & Hr). apply Ascii.eqb_eq in Hb. subst b.
    apply IH in Hr. by subst.
  - intros ->. exists (l ++ s'). split; [|by apply IH].
    exists a. split; [done | apply Ascii.eqb_refl].
Qed.

Lemma reach_lit t s s' : reach (lit t) s s' <-> s = text t ++ s'.
Proof. apply reach_chars. Qed.

Lemma reach_seq r1 r2 s s' :
  reach (RSeq r1 r2) s s' <-> exists t, reach r1 s t /\ reach r2 t s'.
Proof. done. Qed.

Lemma reach_blanks_none s : reach (RStar CSpace) s s.
Proof. exists 0. split; [lia|]. split; [done | constructor]. Qed.

Lemma reach_group_any n s j :
  j <= length s -> reach (RGroup n (RLazyStar CAny)) s (drop j s).
Proof.
  intros Hj. exists j. split; [done|]. split; [done|].
  by apply Forall_forall.
Qed.

Lemma reach_group_some n s j :
  S j <= length s -> reach (RGroup n (RLazyPlus CAny)) s (drop (S j) s).
Proof.
  intros Hj. exists j. split; [done|]. split; [done|].
  by apply Forall_forall.
Qed.

(** One step along a sequence, over a part without groups. *)
Lemma step_groupless r1 r2 s c k x :
  groupless r1 = true ->
  m (RSeq r1 r2) s c k = Some x ->
  exists j, j <= length s /\ reach r1 s (drop j s) /\
            m r2 (drop j s) c k = Some x.
Proof.
  intros Hg H. rewrite m_seq in H.
  apply (m_sound_groupless r1 Hg) in H as (s' & Hr & H).
  destruct (reach_drop _ _ _ Hr) as (j & Hj & ->). by exists j.
Qed.

(** One step over a group [(.*?)]: it holds the shortest text after which
    the rest of the pattern matches. *)
Lemma step_lazy_group n r2 s c k x :
  m (RSeq (RGroup n (RLazyStar CAny)) r2) s c k = Some x ->
  exists j, j <= length s /\
            m r2 (drop j s) ((n, take j s) :: c) k = Some x /\
            forall j', j' < j ->
                       m r2 (drop j' s) ((n, take j' s) :: c) k = None.
Proof.
  intros H. rewrite m_seq in H. cbn [m] in H.
  apply star_lazy_inv in H as (j & Hj & _ & H & Hmin).
  exists j. split; [done|].
  rewrite length_drop in H.
  replace (length s - (length s - j)) with j in H by lia.
  split; [done|]. intros j' Hj'. specialize (Hmin j' Hj').
  rewrite length_drop in Hmin.
  by replace (length s - (length s - j')) with j' in Hmin by lia.
Qed.

(** One step over a group [(.+?)]. *)
Lemma step_lazy_plus_group n r2 s c k x :
  m (RSeq (RGroup n (RLazyPlus CAny)) r2) s c k = Some x ->
  exists j, S j <= length s /\
            m r2 (drop (S j) s) ((n, take (S j) s) :: c) k = Some x /\
            forall j', j' < j ->
                       m r2 (drop (S j') s) ((n, take (S j') s) :: c) k = None.
Proof.
  intros H. rewrite m_seq in H. cbn [m] in H.
  destruct s as [|a s]; [done|]. cbn [cset_mem] in H.
  apply star_lazy_inv in H as (j & Hj & _ & H & Hmin).
  exists j. split; [simpl; lia|].
  cbn [drop]. rewrite length_drop in H. cbn [length] in *.
  replace (S (length s) - (length s - j)) with (S j) in H by lia.
  split; [done|]. intros j' Hj'. specialize (Hmin j' Hj').
  rewrite length_drop in Hmin.
  by replace (S (length s) - (length s - j')) with (S j') in Hmin by lia.
Qed.

End Reach.

Section Delimiters.
Import Re Py.
Local Arguments Ascii.eqb : simpl never.

Lemma startswith_length p : forall s,
  startswith p s = true -> length p <= length s.
Proof.
  induction p as [|a p IH]; intros [|b s] H; simpl in *; try done; [lia|].
  apply andb_true_iff in H as [_ H]. apply IH in H. lia.
Qed.

(** An occurrence inside the first [j] characters ends within them, and is
    an occurrence in the whole text. *)
Lemma occurrence_in_take sub (s : str) j p :
  j <= length s -> 0 < length sub ->
  startswith sub (drop p (take j s)) = true ->
  p + length sub <= j /\ startswith sub (drop p s) = true.
Proof.
  intros Hj Hne H. pose proof (startswith_length _ _ H) as Hl.
  rewrite length_drop, length_take in Hl.
  split; [lia|].
  apply (startswith_app_r _ _ (drop j s)) in H.
  rewrite <- drop_app_le in H by (rewrite length_take; lia).
  by rewrite take_drop in H.
Qed.

Lemma at_bold_line_app s w :
  at_bold_line s = true -> at_bold_line (s ++ w) = true.
Proof.
  destruct s as [|a t]; [done|]. cbn [at_bold_line app].
  intros H. apply andb_true_iff in H as [-> H]. cbn [andb].
  destruct (lstrip t) as [|b u] eqn:E; [done|].
  rewrite lstrip_app_nonblank by (by rewrite E). rewrite E.
  by apply startswith_app_r.
Qed.

(** Where the text is at a bold line, the look-ahead of the pattern
    holds. *)
Lemma at_bold_line_reach s :
  at_bold_line s = true -> exists u, reach context_end s u.
Proof.
  destruct s as [|a t]; [done|]. cbn [at_bold_line].
  intros H. apply andb_true_iff in H as [Ha H].
  apply Ascii.eqb_eq in Ha. subst a.
  destruct (lstrip_split t) as (w & Ht & Hw).
  apply startswith_drop in H.
  exists (drop (length (text "**")) (lstrip t)).
  unfold context_end. cbn [seq_of foldr]. left.
  apply reach_seq. exists t. split; [by apply reach_lit|].
  apply reach_seq. exists (lstrip t). split.
  - exists (length w).
    assert (length w <= length t) as Hl
      by (rewrite Ht, length_app; lia).
    assert (drop (length w) t = lstrip t) as Hd
      by (rewrite Ht at 1; apply drop_app_length).
    assert (take (length w) t = w) as Htk
      by (rewrite Ht; apply take_app_length).
    split; [done|]. split; [done|]. by rewrite Htk.
  - apply reach_seq. eexists. split; [by apply reach_lit | done].
Qed.

Lemma length_drop_add (t : str) a :
  a <= length t -> length (drop a t) + a = length t.
Proof. intros H. rewrite length_drop. lia. Qed.

(** The groups of a match of [qa_pattern]. *)
Lemma match_at_parts (adv : bool) s0 s1 c :
  match_at qa_pattern adv s0 = Some (s1, c) ->
  exists q a x,
    c = [(3, x); (2, a); (1, q)] /\
    (forall p, startswith (text "**Answer:**") (drop p q) = false) /\
    (forall p, startswith (text "**Context:**") (drop p a) = false) /\
    (forall p, 1 <= p -> at_bold_line (drop p x) = false).
Proof.
  unfold match_at, qa_pattern. cbn [seq_of foldr].
  set (kf := fun (s' : str) (c' : caps) =>
               if adv && (length s' =? length s0)
               then None else Some (s', c')).
  intros H.
  assert (forall t d1 d2, kf t d1 = None -> kf t d2 = None) as Hkf.
  { unfold kf. intros t d1 d2. by destruct (adv && (length t =? length s0)). }
  apply step_groupless in H as (a1 & Ha1 & R1 & H); [|reflexivity].
  pose proof (length_drop_add _ _ Ha1) as L1.
  remember (drop a1 s0) as t1 eqn:E1.
  apply step_groupless in H as (a2 & Ha2 & R2 & H); [|reflexivity].
  pose proof (length_drop_add _ _ Ha2) as L2.
  remember (drop a2 t1) as t2 eqn:E2.
  apply step_groupless in H as (a3 & Ha3 & R3 & H); [|reflexivity].
  pose proof (length_drop_add _ _ Ha3) as L3.
  remember (drop a3 t2) as t3 eqn:E3.
  apply step_groupless in H as (a4 & Ha4 & R4 & H); [|reflexivity].
  pose proof (length_drop_add _ _ Ha4) as L4.
  remember (drop a4 t3) as t4 eqn:E4.
  apply step_lazy_group in H as (j1 & Hj1 & H & M1).
  pose proof (length_drop_add _ _ Hj1) as L5.
  remember (drop j1 t4) as t5 eqn:E5.
  apply step_groupless in H as (a6 & Ha6 & R6 & H); [|reflexivity].
  pose proof (length_drop_add _ _ Ha6) as L6.
  remember (drop a6 t5) as t6 eqn:E6.
  apply step_groupless in H as (a7 & Ha7 & R7 & H); [|reflexivity].
  pose proof (length_drop_add _ _ Ha7) as L7.
  remember (drop a7 t6) as t7 eqn:E7.
  apply step_groupless in H as (a8 & Ha8 & R8 & H); [|reflexivity].
  pose proof (length_drop_add _ _ Ha8) as L8.
  remember (drop a8 t7) as t8 eqn:E8.
  apply step_lazy_group in H as (j2 & Hj2 & H & M2).
  pose proof (length_drop_add _ _ Hj2) as L9.
  remember (drop j2 t8) as t9 eqn:E9.
  apply step_groupless in H as (a10 & Ha10 & R10 & H); [|reflexivity].
  pose proof (length_drop_add _ _ Ha10) as L10.
  remember (drop a10 t9) as t10 eqn:E10.
  apply step_groupless in H as (a11 & Ha11 & R11 & H); [|reflexivity].
  pose proof (length_drop_add _ _ Ha11) as L11.
  remember (drop a11 t10) as t11 eqn:E11.
  apply step_groupless in H as (a12 & Ha12 & R12 & H); [|reflexivity].
  pose proof (length_drop_add _ _ Ha12) as L12.
  remember (drop a12 t11) as t12 eqn:E12.
  apply step_groupless in H as (a13 & Ha13 & R13 & H); [|reflexivity].
  pose proof (length_drop_add _ _ Ha13) as L13.
  remember (drop a13 t12) as t13 eqn:E13.
  apply step_lazy_plus_group in H as (j3 & Hj3 & H & M3).
  remember (drop (S j3) t13) as t14 eqn:E14.
  apply step_groupless in H as (a15 & Ha15 & R15 & H); [|reflexivity].
  remember (drop a15 t14) as t15 eqn:E15.
  apply step_groupless in H as (a16 & Ha16 & R16 & H); [|reflexivity].
  remember (drop a16 t15) as t16 eqn:E16.
  cbn [m] in H.
  destruct (adv && (length t16 =? length s0)) eqn:Ek; [done|].
  injection H as <- <-.
  assert (forall d, kf t16 d <> None) as Hend
    by (intros d; unfold kf; by rewrite Ek).
  assert (a7 = 11) as Ea7.
  { apply reach_lit in R7. apply (f_equal length) in R7.
    rewrite length_app in R7.
    change (length (text "**Answer:**")) with 11 in R7.
    clear -R7 L7. lia. }
  assert (a11 = 12) as Ea11.
  { apply reach_lit in R11. apply (f_equal length) in R11.
    rewrite length_app in R11.
    change (length (text "**Context:**")) with 12 in R11.
    clear -R11 L11. lia. }
  assert (reach (RSeq (ROpt (RSet (CChar dquote)))
                   (RSeq (RLook context_end) REps)) t14 t16) as Htail14.
  { apply reach_seq. exists t15. split; [done|].
    apply reach_seq. by exists t16. }
  assert (forall s : str,
            (exists e, S e <= length s /\ t14 = drop (S e) s) ->
            reach (RSeq (RStar CSpace)
                     (RSeq (ROpt (RSet (CChar dquote)))
                        (RSeq (RGroup 3 (RLazyPlus CAny))
                           (RSeq (ROpt (RSet (CChar dquote)))
                              (RSeq (RLook context_end) REps))))) s t16)
    as Hblank.
  { intros s (e & He & Et).
    apply reach_seq. exists s. split; [apply reach_blanks_none|].
    apply reach_seq. exists s. split; [by right|].
    apply reach_seq. exists t14. split; [|done].
    rewrite Et. by apply reach_group_some. }
  exists (take j1 t4), (take j2 t8), (take (S j3) t13).
  split; [done|]. split; [|split].
  - intros p.
    destruct (startswith (text "**Answer:**") (drop p (take j1 t4))) eqn:Eq;
      [exfalso|done].
    apply occurrence_in_take in Eq as [Hp Hocc]; [|done|simpl; lia].
    change (length (text "**Answer:**")) with 11 in Hp.
    apply startswith_drop in Hocc. rewrite drop_drop in Hocc.
    change (length (text "**Answer:**")) with 11 in Hocc.
    assert (p < j1) as Hlt by (clear -Hp; lia).
    refine (m_complete _ _ t16 _ [] _ Hkf _ (Hend _) (M1 p Hlt)).
    apply reach_seq. exists (drop p t4). split; [apply reach_blanks_none|].
    apply reach_seq. exists (drop (p + 11) t4).
    split; [by apply reach_lit|].
    apply reach_seq. eexists. split; [apply reach_blanks_none|].
    apply reach_seq. exists t9. split.
    + assert (t9 = drop (j1 + a6 + a8 + j2 - p) (drop (p + 11) t4)) as ->.
      { rewrite E9, E8, E7, E6, E5, !drop_drop. f_equal.
        clear -Hp Ea7. lia. }
      apply reach_group_any.
      assert (p + 11 <= length t4) as Hp4 by (clear -Hp Hj1; lia).
      pose proof (length_drop_add _ _ Hp4) as Lp.
      clear -Lp L5 L6 L7 L8 Hj2 Hp Ea7. lia.
    + apply reach_seq. exists t10. split; [exact R10|].
      apply reach_seq. exists t11. split; [exact R11|].
      apply reach_seq. exists t12. split; [exact R12|].
      apply reach_seq. exists t13. split; [exact R13|].
      apply reach_seq. exists t14. split; [|done].
      rewrite E14. by apply reach_group_some.
  - intros p.
    destruct (startswith (text "**Context:**") (drop p (take j2 t8))) eqn:Eq;
      [exfalso|done].
    apply occurrence_in_take in Eq as [Hp Hocc]; [|done|simpl; lia].
    change (length (text "**Context:**")) with 12 in Hp.
    apply startswith_drop in Hocc. rewrite drop_drop in Hocc.
    change (length (text "**Context:**")) with 12 in Hocc.
    assert (p < j2) as Hlt by (clear -Hp; lia).
    refine (m_complete _ _ t16 _ [] _ Hkf _ (Hend _) (M2 p Hlt)).
    apply reach_seq. exists (drop p t8). split; [apply reach_blanks_none|].
    apply reach_seq. exists (drop (p + 12) t8).
    split; [by apply reach_lit|].
    apply Hblank.
    exists (j2 + a10 + a12 + a13 + j3 - p).
    assert (p + 12 <= length t8) as Hp8 by (clear -Hp Hj2; lia).
    pose proof (length_drop_add _ _ Hp8) as Lp.
    split.
    + clear -Lp L9 L10 L11 L12 L13 Hj3 Hp Ea11. lia.
    + rewrite E14, E13, E12, E11, E10, E9, !drop_drop. f_equal.
      clear -Hp Ea11. lia.
  - intros p Hp.
    destruct (at_bold_line (drop p (take (S j3) t13))) eqn:Eb; [exfalso|done].
    assert (p < S j3) as Hlt.
    { destruct (decide (p < S j3)); [done|].
      rewrite drop_ge in Eb by (rewrite length_take; lia). done. }
    apply (at_bold_line_app _ (drop (S j3) t13)) in Eb.
    rewrite <- drop_app_le in Eb by (rewrite length_take; lia).
    rewrite take_drop in Eb.
    destruct p as [|j']; [lia|].
    assert (j' < j3) as Hlt' by (clear -Hlt; lia).
    refine (m_complete _ _ (drop (S j') t13) _ [] _ Hkf _ _ (M3 j' Hlt')).
    + apply reach_seq. eexists. split; [by right|].
      apply reach_seq. eexists. split; [|done].
      split; [done|]. by apply at_bold_line_reach.
    + unfold kf.
      replace (length (drop (S j') t13) =? length s0) with false;
        [by rewrite andb_false_r|].
      symmetry. apply Nat.eqb_neq.
      assert (S j' <= length t13) as Hj' by (clear -Hlt Hj3; lia).
      pose proof (length_drop_add _ _ Hj') as Lp.
      clear -Lp L1 L2 L3 L4 L5 L6 L7 L8 L9 L10 L11 L12 L13. lia.
Qed.

Lemma search_match r : forall s (adv : bool) s0 s1 c,
  search r adv s = Some (s0, s1, c) ->
  exists adv' : bool, match_at r adv' s0 = Some (s1, c).
Proof.
  induction s as [|a s IH]; intros adv s0 s1 c H; cbn [search] in H.
  - destruct (match_at r adv []) as [[s' c']|] eqn:E; [|done].
    inversion H; subst. by exists adv.
  - destruct (match_at r adv (a :: s)) as [[s' c']|] eqn:E.
    + inversion H; subst. by exists adv.
    + by eapply IH.
Qed.

Lemma findall_loop_items r : forall fuel (adv : bool) s l,
  findall_loop fuel r adv s = Returns l ->
  Forall (fun t => exists (adv' : bool) s0 s1 c,
                     match_at r adv' s0 = Some (s1, c) /\
                     t = item r s0 s1 c) l.
Proof.
  induction fuel as [|fuel IH]; intros adv s l H; [done|].
  cbn [findall_loop] in H.
  destruct (search r adv s) as [[[s0 s1] c]|] eqn:E.
  - destruct (findall_loop fuel r (length s1 =? length s0) s1) as [rest|e|]
      eqn:Er; cbn [obind] in H; [|done|done].
    inversion H; subst. constructor; [|by eapply IH].
    apply search_match in E as (adv' & E). by exists adv', s0, s1, c.
  - inversion H. constructor.
Qed.

Lemma strip_head_nonblank s a t :
  strip s = a :: t -> isspace a = false.
Proof.
  unfold strip. intros H.
  destruct (rstrip_split (lstrip s)) as (w & Hs & _).
  pose proof (lstrip_head s) as Hh. rewrite Hs, H in Hh. done.
Qed.

(** A bold line in a trimmed text is a bold line of the text, and not at
    its start. *)
Lemma at_bold_line_strip x :
  (forall p, 1 <= p -> at_bold_line (drop p x) = false) ->
  forall p, at_bold_line (drop p (strip x)) = false.
Proof.
  intros H p.
  destruct (at_bold_line (drop p (strip x))) eqn:E; [exfalso|done].
  unfold strip in *.
  destruct (lstrip_split x) as (w1 & Hx & _).
  destruct (rstrip_split (lstrip x)) as (w2 & Hr & _).
  assert (p < length (rstrip (lstrip x))) as Hp.
  { destruct (decide (p < length (rstrip (lstrip x)))); [done|].
    rewrite drop_ge in E by lia. done. }
  pose proof (at_bold_line_app _ w2 E) as E2.
  rewrite <- drop_app_le, <- Hr in E2 by lia.
  destruct (decide (1 <= length w1 + p)) as [Hge|Hlt].
  - specialize (H (length w1 + p) Hge).
    rewrite Hx, <- drop_drop, drop_app_length in H. congruence.
  - assert (p = 0) as -> by lia. rewrite drop_0 in E.
    destruct (rstrip (lstrip x)) as [|a t] eqn:Es; [done|].
    pose proof (strip_head_nonblank x a t Es) as Ha.
    cbn [at_bold_line] in E. apply andb_true_iff in E as [E _].
    apply Ascii.eqb_eq in E. subst a. done.
Qed.

Lemma collect_entries_delimited : forall ms q,
  Forall (fun t => exists (adv' : bool) s0 s1 c,
                     match_at qa_pattern adv' s0 = Some (s1, c) /\
                     t = item qa_pattern s0 s1 c) ms ->
  collect ms = Returns q ->
  Forall (fun e =>
            find (question e) (text "**Answer:**") = (-1)%Z /\
            find (answer e) (text "**Context:**") = (-1)%Z /\
            forall p, at_bold_line (drop p (context e)) = false) q.
Proof.
  induction ms as [|t ms IH]; intros q Hall H.
  - inversion H. constructor.
  - apply Forall_cons in Hall as [(adv' & s0 & s1 & c & Hm & ->) Hall].
    apply match_at_parts in Hm as (qu & an & cx & -> & Hq & Ha & Hx).
    rewrite item_three in H. cbn [collect unpack3 obind] in H.
    destruct (collect ms) as [qs|e|] eqn:Ec; cbn [obind] in H; [|done|done].
    inversion H; subst. constructor; [|by apply IH].
    cbn [question answer context]. split; [|split].
    + apply find_absent. by apply absent_strip.
    + apply find_absent. by apply absent_strip.
    + by apply at_bold_line_strip.
Qed.

(** X23. Where the parts of an entry end, for every text: the question
    holds no Answer header, the answer holds no Context header, and the
    context holds no line break followed by optional blanks and [**]:
    each part stops at the first place where what follows it in the
    pattern can start. *)
Theorem entries_end_at_first_header (analysis_text : str) :
  exists a, parse_analysis analysis_text = Returns a /\
    Forall (fun e =>
              find (question e) (text "**Answer:**") = (-1)%Z /\
              find (answer e) (text "**Context:**") = (-1)%Z /\
              forall p, at_bold_line (drop p (context e)) = false) (qa a).
Proof.
  unfold parse_analysis. cbv zeta.
  set (t := replace analysis_text alias_marker summary_marker).
  destruct (negb (find t qa_marker =? -1)%Z).
  - set (qa_text := strip _).
    destruct (findall_collect_returns qa_text) as (ms & q & Hms & Hq).
    rewrite Hms. cbn [obind]. rewrite Hq. cbn [obind].
    eexists. split; [done|]. cbn [qa].
    apply (collect_entries_delimited ms); [|done].
    by apply (findall_loop_items _ _ _ _ _ Hms).
  - cbn [obind]. eexists. split; [done|]. constructor.
Qed.

End Delimiters.

(** * Blanks around the text *)

Section Padding.
Import Py.
Local Arguments Ascii.eqb : simpl never.

Variables (M : str) (w1 w2 : str).

Hypothesis Hhead : match M with a :: _ => isspace a = false | [] => False end.
Hypothesis Hlast :
  match rev M with a :: _ => isspace a = false | [] => False end.
Hypothesis Hw1 : spaces w1.
Hypothesis Hw2 : spaces w2.

Lemma blank_head_fail (w s : str) j :
  spaces w -> j < length w -> startswith M (drop j (w ++ s)) = false.
Proof.
  intros Hw Hj. rewrite drop_app_le by lia.
  destruct (drop j w) as [|a u] eqn:E.
  - apply (f_equal length) in E. rewrite length_drop in E. simpl in E. lia.
  - assert (isspace a = true) as Ha.
    { unfold spaces in Hw. rewrite Forall_forall in Hw. apply Hw.
      apply (subseteq_drop j w). rewrite E. by left. }
    destruct M as [|h M']; [done|].
    rewrite <- app_comm_cons. apply startswith_head. intros ->. congruence.
Qed.

(** An occurrence of [M] cannot run into the blanks that follow. *)
Lemma occurrence_before_blanks (y : str) j :
  startswith M (drop j (y ++ w2)) = true -> j + length M <= length y.
Proof.
  intros H. apply startswith_drop in H.
  destruct (rev M) as [|l R] eqn:Er; [done|].
  assert (M = rev R ++ [l]) as EM.
  { rewrite <- (rev_involutive M), Er. done. }
  destruct (decide (j + length M <= length y)) as [|Hn]; [done|exfalso].
  assert ((y ++ w2) !! (j + length (rev R)) = Some l) as Hl.
  { rewrite <- lookup_drop, H. rewrite EM at 1.
    rewrite <- app_assoc. by apply list_lookup_middle. }
  rewrite EM, length_app in Hn. simpl in Hn.
  rewrite lookup_app_r in Hl by lia.
  assert (isspace l = true) as Hs.
  { unfold spaces in Hw2. rewrite Forall_forall in Hw2. apply Hw2.
    by eapply list_elem_of_lookup_2. }
  congruence.
Qed.

Lemma occurrence_padded (y : str) j :
  startswith M (drop j (w1 ++ y ++ w2)) = true <->
  length w1 <= j /\ startswith M (drop (j - length w1) y) = true.
Proof.
  split.
  - intros H. destruct (decide (length w1 <= j)) as [Hj|Hj].
    + split; [done|]. rewrite drop_app_ge in H by done.
      pose proof (occurrence_before_blanks _ _ H) as Hl.
      rewrite drop_app_le in H by lia.
      rewrite startswith_app_long in H; [done|].
      rewrite length_drop. lia.
    + rewrite blank_head_fail in H by (done || lia). done.
  - intros [Hj H]. rewrite drop_app_ge by done.
    pose proof (startswith_length _ _ H) as Hl. rewrite length_drop in Hl.
    assert (0 < length M) by (destruct M; [done | simpl; lia]).
    rewrite drop_app_le by lia. by apply startswith_app_r.
Qed.

Lemma find_padded (y : str) :
  find (w1 ++ y ++ w2) M =
  if (find y M =? -1)%Z then (-1)%Z
  else (Z.of_nat (length w1) + find y M)%Z.
Proof.
  unfold find at 2 3.
  destruct (find_from_spec M y 0) as [[H1 H2] | (n & H1 & H2 & H3 & H4)];
    rewrite H1.
  - cbn [Z.eqb]. apply find_absent. intros j.
    destruct (startswith M (drop j (w1 ++ y ++ w2))) eqn:E; [|done].
    apply occurrence_padded in E as [_ E]. by rewrite H2 in E.
  - replace (0 + Z.of_nat n =? -1)%Z with false
      by (symmetry; apply Z.eqb_neq; lia).
    replace (Z.of_nat (length w1) + (0 + Z.of_nat n))%Z
      with (Z.of_nat (length w1 + n)) by lia.
    apply find_first. split; [|split].
    + apply occurrence_padded. split; [lia|].
      by replace (length w1 + n - length w1) with n by lia.
    + rewrite !length_app. lia.
    + intros j Hj.
      destruct (startswith M (drop j (w1 ++ y ++ w2))) eqn:E; [|done].
      apply occurrence_padded in E as [Hge E].
      rewrite H4 in E by lia. done.
Qed.

End Padding.

Section PaddedText.
Import Py.
Local Arguments Ascii.eqb : simpl never.

Lemma find_range y sub :
  find y sub = (-1)%Z \/
  exists n, find y sub = Z.of_nat n /\ n + length sub <= length y.
Proof.
  unfold find.
  destruct (find_from_spec sub y 0) as [[H1 H2] | (n & H1 & H2 & H3 & H4)].
  - by left.
  - right. exists n. split; [lia|].
    apply startswith_length in H3. rewrite length_drop in H3.
    destruct (decide (length sub = 0)); lia.
Qed.

Lemma of_nat_not_minus_one n : (Z.of_nat n =? -1)%Z = false.
Proof. apply Z.eqb_neq. lia. Qed.

Lemma strip_padded w1 s w2 :
  spaces w1 -> spaces w2 -> strip (w1 ++ s ++ w2) = strip s.
Proof.
  intros H1 H2. unfold strip. rewrite lstrip_app_space by done.
  destruct (lstrip s) as [|a r] eqn:E.
  - apply lstrip_nil_space in E.
    rewrite lstrip_space_nil; [done|]. by apply Forall_app.
  - rewrite lstrip_app_nonblank by (by rewrite E).
    rewrite E. by apply rstrip_app_space.
Qed.

Lemma slice_padded (w1 y w2 : str) lo hi :
  lo <= length y -> hi <= length y ->
  slice (w1 ++ y ++ w2) (Z.of_nat (length w1 + lo)) (Z.of_nat (length w1 + hi))
  = slice y (Z.of_nat lo) (Z.of_nat hi).
Proof.
  intros Hlo Hhi. unfold slice.
  rewrite !clamp_nat by (rewrite ?length_app; lia).
  rewrite <- drop_drop, drop_app_length.
  replace (length w1 + hi - (length w1 + lo)) with (hi - lo) by lia.
  rewrite drop_app_le by lia.
  rewrite take_app_le; [done|]. rewrite length_drop. lia.
Qed.

Lemma slice_from_padded (w1 y w2 : str) lo :
  lo <= length y ->
  slice_from (w1 ++ y ++ w2) (Z.of_nat (length w1 + lo)) =
  slice_from y (Z.of_nat lo) ++ w2.
Proof.
  intros Hlo. unfold slice_from.
  rewrite !clamp_nat by (rewrite ?length_app; lia).
  rewrite <- drop_drop, drop_app_length. by rewrite drop_app_le.
Qed.

Lemma replace_padded (w1 x w2 : str) :
  spaces w1 -> spaces w2 ->
  replace (w1 ++ x ++ w2) alias_marker summary_marker =
  w1 ++ replace x alias_marker summary_marker ++ w2.
Proof.
  intros H1 H2.
  change (replace ?s alias_marker summary_marker)
    with (replace_from alias_marker summary_marker 0 s).
  rewrite replace_from_prefix
    by (intros j Hj; by apply blank_head_fail).
  f_equal. rewrite replace_from_app; [f_equal|lia|].
  - apply replace_from_absent. intros n.
    destruct (decide (n < length w2)) as [Hn|Hn].
    + rewrite <- (app_nil_r w2). by apply blank_head_fail.
    + by rewrite drop_ge by lia.
  - intros j Hj E. by apply (occurrence_before_blanks _ w2).
Qed.

(** X24. Blanks before and after the text change nothing: the parser
    gives the same record for the text and for the text between blanks
    (so also for the trimmed text). *)
Theorem parse_ignores_outer_blanks (w1 x w2 : str) :
  all_space w1 = true -> all_space w2 = true ->
  parse_analysis (w1 ++ x ++ w2) = parse_analysis x.
Proof.
  intros H1 H2. apply all_space_spaces in H1, H2.
  unfold parse_analysis. cbv zeta. rewrite replace_padded by done.
  set (y := replace x alias_marker summary_marker).
  rewrite (find_padded summary_marker w1 w2) by done.
  rewrite (find_padded qa_marker w1 w2) by done.
  destruct (find_range y summary_marker) as [Es | (i & Es & Hi)];
    destruct (find_range y qa_marker) as [Eq | (j & Eq & Hj)];
    rewrite Es, Eq; rewrite ?Z.eqb_refl, ?of_nat_not_minus_one;
    rewrite <- ?Nat2Z.inj_add, ?of_nat_not_minus_one; cbn [negb obind].
  - by rewrite strip_padded.
  - rewrite strip_padded by done.
    rewrite <- Nat.add_assoc, slice_from_padded by lia.
    rewrite <- (app_nil_l (slice_from y _ ++ w2)).
    by rewrite strip_padded by (done || constructor).
  - rewrite <- Nat.add_assoc, slice_from_padded by lia.
    rewrite <- (app_nil_l (slice_from y _ ++ w2)).
    by rewrite strip_padded by (done || constructor).
  - rewrite <- !Nat.add_assoc, slice_from_padded by lia.
    rewrite slice_padded by lia.
    rewrite <- (app_nil_l (slice_from y _ ++ w2)).
    by rewrite strip_padded by (done || constructor).
Qed.

End PaddedText.

Lemma parse_ignores_outer_blanks_witness :
  parse_analysis ([newline] ++ text "  " ++ ex_qa_only ++ text " " ++ [newline])
  = parse_analysis ex_qa_only.
Proof.
  apply (parse_ignores_outer_blanks ([newline] ++ text "  ") ex_qa_only
           (text " " ++ [newline]));
    vm_compute; reflexivity.
Defined.

(** * How the steps compose *)

Section Composition.

Context {W : Type} (C : collaborators W).
#[local] Opaque text.

(** X25. When the upload and the wait come back, the agent answers with
    a text, and the two messages of [process_video] (the path, line 98,
    and the text of the agent, line 115) can be printed, [process_video]
    returns what [parse_analysis] makes of that text: the parsing step
    cannot make the item fail. *)
Theorem process_video_returns_parse (fuel : nat) (video_file_path : str)
    (i i1 i2 i3 : io_state) (h0 h : file_handle) (analysis_text : str) :
  c_print C (msg_processing_file video_file_path) = Returns tt ->
  upload_file C video_file_path i = (Returns h0, i1) ->
  poll C fuel h0 i1 = (Returns h, i2) ->
  agent_run C h i2 = (Returns (JStr analysis_text), i3) ->
  c_print C (msg_analysis (JStr analysis_text)) = Returns tt ->
  exists a,
    parse_analysis analysis_text = Returns a /\
    process_video C fuel video_file_path i = (Returns a, i3).
Proof.
  intros H1 Hu Hp Ha H2.
  destruct (parse_analysis_returns analysis_text) as (a & Hparse).
  exists a. split; [done|].
  unfold process_video, bind, of_outcome, print.
  rewrite H1, Hu, Hp, Ha, H2.
  cbn [parse_content]. by rewrite Hparse.
Qed.

(** X26. The loop handles a list part by part: the run of [ds1 ++ ds2] is
    the run of [ds1], then the run of [ds2] from the world and the calls
    the first run left, and the output is the two outputs one after the
    other. *)
Theorem run_batch_app (fuel : nat) (ds1 ds2 : list dict) (i : io_state) :
  run_batch C fuel (ds1 ++ ds2) i =
  (let '(o1, i1) := run_batch C fuel ds1 i in
   match o1 with
   | Returns out1 =>
       let '(o2, i2) := run_batch C fuel ds2 i1 in
       (out2 <- o2 ;; Returns (out1 ++ out2), i2)
   | Raises e => (Raises e, i1)
   | Diverges => (Diverges, i1)
   end).
Proof.
  rewrite !run_batch_batch, batch_app. unfold bind, ret.
  destruct (batch C fuel ds1 i) as [[out1|e|] i1]; [|done|done].
  rewrite run_batch_batch.
  by destruct (batch C fuel ds2 i1) as [[out2|e|] i2].
Qed.

End Composition.

Lemma process_video_returns_parse_witness :
  exists a,
    parse_analysis (summary_marker ++ text " ok") = Returns a /\
    process_video demo 3 ex_path ex_i0 =
    (Returns a,
     (1, [EvUpload ex_path; EvSleep; EvGetFile (text "files/x");
          EvAgentRun (Handle (text "files/x") (text "ACTIVE"))])).
Proof.
  apply (process_video_returns_parse demo 3 ex_path ex_i0
           (1, [EvUpload ex_path])
           (1, [EvUpload ex_path; EvSleep; EvGetFile (text "files/x")])
           (1, [EvUpload ex_path; EvSleep; EvGetFile (text "files/x");
                EvAgentRun (Handle (text "files/x") (text "ACTIVE"))])
           (Handle (text "files/x") (text "PROCESSING"))
           (Handle (text "files/x") (text "ACTIVE"))
           (summary_marker ++ text " ok"));
    vm_compute; reflexivity.
Defined.

(** * The summary and the Q&A marker *)

Section SummaryMarker.
Import Py.
Local Arguments Ascii.eqb : simpl never.

(** X27. When the normalized text holds the Summary marker, the summary
    never holds the Q&A marker: it stops before the first one, is empty
    when that one comes too early, and the text has none otherwise. *)
Theorem summary_free_of_qa_marker (analysis_text : str) :
  let normalized := replace analysis_text alias_marker summary_marker in
  find normalized summary_marker <> (-1)%Z ->
  exists a, parse_analysis analysis_text = Returns a /\
            find (summary a) qa_marker = (-1)%Z.
Proof.
  intros y Hs.
  destruct (parse_analysis_returns analysis_text) as ([s q] & Hp).
  exists (Analysis s q). split; [done|]. cbn [summary].
  assert (s = summary_part y) as ->.
  { revert Hp. unfold parse_analysis. cbv zeta. fold y.
    fold (summary_part y).
    destruct (negb (find y qa_marker =? -1)%Z); cbn [obind].
    - destruct (Re.findall qa_pattern _) as [ms|e|]; cbn [obind]; [|done|done].
      destruct (collect ms) as [qs|e|]; cbn [obind]; [|done|done].
      by intros [= <- _].
    - by intros [= <- _]. }
  unfold summary_part. cbv zeta.
  destruct (find_range y summary_marker) as [Es | (i & Es & Hi)]; [done|].
  rewrite Es, of_nat_not_minus_one. cbn [negb].
  change (length summary_marker) with 12 in *.
  replace (Z.of_nat i + Z.of_nat 12)%Z with (Z.of_nat (i + 12)) by lia.
  apply find_absent.
  destruct (find_range y qa_marker) as [Eq | (j & Eq & Hj)]; rewrite Eq.
  - cbn [Z.eqb negb]. apply absent_strip. unfold slice_from.
    rewrite clamp_nat by done.
    apply (absent_infix _ (take (i + 12) y) _ []).
    rewrite app_nil_r, take_drop. by apply find_absent.
  - rewrite of_nat_not_minus_one. cbn [negb]. apply absent_strip.
    unfold slice. rewrite !clamp_nat by lia.
    intros p.
    destruct (startswith qa_marker (drop p (take (j - (i + 12))
                                              (drop (i + 12) y)))) eqn:E;
      [exfalso|done].
    apply occurrence_in_take in E as [Hp' Hocc];
      [|rewrite length_drop; lia|simpl; lia].
    rewrite drop_drop in Hocc.
    apply find_first in Eq as (_ & _ & Hmin).
    rewrite Hmin in Hocc; [done|].
    change (length qa_marker) with 26 in Hp'. lia.
Qed.

End SummaryMarker.

Lemma summary_free_of_qa_marker_witness :
  exists a, parse_analysis ex_truncated = Returns a /\
            Py.find (summary a) qa_marker = (-1)%Z.
Proof.
  apply (summary_free_of_qa_marker ex_truncated).
  vm_compute. discriminate.
Defined.
